(** * docker-volume-loopback: the volume manager, embedded and verified

    A shallow embedding of [manager/manager.go] (name validation, metadata
    resolution, List, Get, Create, Mount, UnMount, Delete) and of the option
    handling of [Create] in [driver/driver.go], over an explicit model of the
    host: a file tree, a mount table and the external utilities the manager
    shells out to. *)

From Stdlib Require Import ZArith Ascii String List Lia Bool.
From stdpp Require Import base option gmap sets list strings sorting.

Open Scope string_scope.
Open Scope list_scope.
Open Scope Z_scope.

(** ** Go strings

    A Go [string] is a sequence of bytes; Rocq's [string] is a sequence of
    [ascii] (8-bit) characters, which is the same thing. *)

Module GoString.

Fixpoint bytes (s : string) : list ascii :=
  match s with
  | EmptyString => []
  | String c s' => c :: bytes s'
  end.

(** [strings.HasPrefix] *)
Fixpoint HasPrefix (s pre : string) : bool :=
  match pre, s with
  | EmptyString, _ => true
  | String _ _, EmptyString => false
  | String p pre', String c s' => Ascii.eqb p c && HasPrefix s' pre'
  end.

(** [strings.Contains] *)
Fixpoint Contains (s sub : string) : bool :=
  HasPrefix s sub ||
  match s with
  | EmptyString => false
  | String _ s' => Contains s' sub
  end.

(** The ASCII white space of [unicode.IsSpace]: tab, line feed, vertical
    tab, form feed, carriage return and space. *)
Definition isSpace (c : ascii) : bool :=
  let n := nat_of_ascii c in
  ((9 <=? n) && (n <=? 13))%nat || (n =? 32)%nat.

Fixpoint TrimLeftSpace (s : string) : string :=
  match s with
  | EmptyString => EmptyString
  | String c s' => if isSpace c then TrimLeftSpace s' else s
  end.

Fixpoint TrimRightSpace (s : string) : string :=
  match s with
  | EmptyString => EmptyString
  | String c s' =>
      match TrimRightSpace s' with
      | EmptyString => if isSpace c then EmptyString else String c EmptyString
      | t => String c t
      end
  end.

(** [strings.TrimSpace], on the ASCII white space. *)
Definition TrimSpace (s : string) : string :=
  TrimRightSpace (TrimLeftSpace s).

End GoString.

(** ** Regular expressions, as far as [NamePattern] needs them

    The constructs of Go's [regexp] syntax that occur in the pattern:
    character classes, concatenation and bounded repetition.  Matching is by
    derivatives, so [EmptyMatch], [NoMatch] and [Alternate] are there for the
    derivative of a concatenation. *)

Module Regexp.

Inductive regexp : Type :=
| NoMatch
| EmptyMatch
| CharClass (ranges : list (ascii * ascii))
| Concat (r1 r2 : regexp)
| Alternate (r1 r2 : regexp)
| Repeat (r : regexp) (min max : nat).

Definition in_range (c : ascii) (rg : ascii * ascii) : bool :=
  ((nat_of_ascii (fst rg) <=? nat_of_ascii c) &&
   (nat_of_ascii c <=? nat_of_ascii (snd rg)))%nat.

Definition in_class (ranges : list (ascii * ascii)) (c : ascii) : bool :=
  existsb (in_range c) ranges.

Fixpoint nullable (r : regexp) : bool :=
  match r with
  | NoMatch => false
  | EmptyMatch => true
  | CharClass _ => false
  | Concat r1 r2 => nullable r1 && nullable r2
  | Alternate r1 r2 => nullable r1 || nullable r2
  | Repeat r min _ => (min =? 0)%nat || nullable r
  end.

Fixpoint deriv (c : ascii) (r : regexp) : regexp :=
  match r with
  | NoMatch => NoMatch
  | EmptyMatch => NoMatch
  | CharClass ranges => if in_class ranges c then EmptyMatch else NoMatch
  | Concat r1 r2 =>
      Alternate (Concat (deriv c r1) r2)
                (if nullable r1 then deriv c r2 else NoMatch)
  | Alternate r1 r2 => Alternate (deriv c r1) (deriv c r2)
  | Repeat r min max =>
      match max with
      | O => NoMatch
      | S max' => Concat (deriv c r) (Repeat r (Nat.pred min) max')
      end
  end.

(** The whole of [s] matches [r]. *)
Fixpoint matches (r : regexp) (s : string) : bool :=
  match s with
  | EmptyString => nullable r
  | String c s' => matches (deriv c r) s'
  end.

(** [Regexp.MatchString] for a pattern written [^r$]: without the
    multi-line flag [^] and [$] match at the two ends of the text only, so
    the text matches when the whole of it matches [r]. *)
Definition MatchString (anchored : regexp) (s : string) : bool :=
  matches anchored s.

End Regexp.

Import Regexp.

(** ** Errors

    A Go [error] is [option error] here, [None] being [nil]. *)

Inductive errno : Type := ENOENT | EEXIST | ENOTDIR | EISDIR | ENOTEMPTY.

Inductive error : Type :=
| New (format : string)                  (** made by [errors.Errorf] *)
| Wrap (cause : error) (format : string) (** made by [errors.Wrapf] *)
| PathError (e : errno)                  (** [*os.PathError] *)
| ExitError                              (** [*exec.ExitError] *)
| NumError.                              (** [*strconv.NumError] *)

Definition errors_Errorf (format : string) : option error :=
  Some (New format).

(** [errors.Wrapf] of [github.com/pkg/errors]: "If err is nil, Wrapf returns
    nil." *)
Definition errors_Wrapf (err : option error) (format : string) : option error :=
  match err with
  | None => None
  | Some e => Some (Wrap e format)
  end.

(** [os.IsNotExist] *)
Definition os_IsNotExist (err : option error) : bool :=
  match err with
  | Some (PathError ENOENT) => true
  | _ => false
  end.

(** ** manager.go: the name validator *)

Definition NamePattern : string := "^[a-zA-Z0-9][\w\-]{1,250}$".

Definition alnum : list (ascii * ascii) :=
  [("a", "z"); ("A", "Z"); ("0", "9")]%char.

(** [\w] is [[0-9A-Za-z_]]; the class of the pattern adds the hyphen. *)
Definition word_or_hyphen : list (ascii * ascii) :=
  [("0", "9"); ("A", "Z"); ("a", "z"); ("_", "_"); ("-", "-")]%char.

(** [regexp.MustCompile(NamePattern)] *)
Definition NameRegex : regexp :=
  Concat (CharClass alnum) (Repeat (CharClass word_or_hyphen) 1 250).

Definition msg_name_empty : string :=
  "Volume name cannot be an empty string".
Definition msg_name_pattern : string :=
  "Volume name '%s' does nto match allowed pattern '%s'".

Definition validateName (name : string) : option error :=
  if String.eqb name "" then errors_Errorf msg_name_empty
  else if negb (MatchString NameRegex name) then errors_Errorf msg_name_pattern
  else None.

(** ** The host: file tree, mount table, external utilities

    A path is the list of its components below the root, so [filepath.Join]
    of a cleaned directory and a single component appends the component.
    Symbolic links are not modelled; the three configured directories and the
    names joined to them are taken as cleaned paths and plain components. *)

Abbreviation path := (list string).

Definition filepath_Join (dir : path) (elem : string) : path := dir ++ [elem].

(** [p + s] on a path rendered as a string: [s] is appended to the last
    component. *)
Definition path_append (p : path) (s : string) : path :=
  match reverse p with
  | [] => [s]
  | c :: q => reverse q ++ [c +:+ s]
  end.

Definition filepath_Dir (p : path) : path := removelast p.
Definition filepath_Base (p : path) : string := List.last p "".

(** [filepath.Ext]: the suffix that starts at the last dot of the last
    component. *)
Fixpoint Ext (s : string) : string :=
  match s with
  | EmptyString => EmptyString
  | String c s' =>
      match Ext s' with
      | EmptyString => if Ascii.eqb c "." then s else EmptyString
      | e => e
      end
  end.

Definition filepath_Ext (p : path) : string := Ext (filepath_Base p).

(** [strings.TrimLeft(s, ".")] *)
Fixpoint TrimLeftDots (s : string) : string :=
  match s with
  | EmptyString => EmptyString
  | String c s' => if Ascii.eqb c "." then TrimLeftDots s' else s
  end.

(** [filepath.Match] on one component, for patterns made of literal
    characters, [?] and [*]; character classes and escapes are not
    modelled. *)
Fixpoint filepath_Match (pattern : string) : string -> bool :=
  match pattern with
  | EmptyString => fun s => String.eqb s ""
  | String p pattern' =>
      if Ascii.eqb p "*" then
        fix star (s : string) : bool :=
          filepath_Match pattern' s ||
          match s with
          | EmptyString => false
          | String _ s' => star s'
          end
      else if Ascii.eqb p "?" then
        fun s => match s with
                 | EmptyString => false
                 | String _ s' => filepath_Match pattern' s'
                 end
      else
        fun s => match s with
                 | EmptyString => false
                 | String c s' => Ascii.eqb p c && filepath_Match pattern' s'
                 end
  end.

(** What a path names, as [os.Stat] reports it. *)
Inductive node : Type :=
| Regular (size blocks : Z)   (** length in bytes, allocated 512-byte blocks *)
| Directory
| Irregular.                  (** device, socket, named pipe *)

Global Instance node_eq_dec : EqDecision node.
Proof. solve_decision. Defined.

(** The utilities the manager runs, with the arguments it passes. *)
Inductive command : Type :=
| truncate (size : Z) (file : path)      (** truncate -s size file *)
| fallocate (size : Z) (file : path)     (** fallocate -l size file *)
| dd (out : path) (bs count : Z)         (** dd if=/dev/zero of=out bs= count= *)
| mkfs (fs : string) (flags : list string) (file : path)
| mount (flags : list string) (file mountpoint : path)
| umount (mountpoint : path)             (** umount -ld mountpoint *)
| chmod (mode : Z) (target : path).

Record World : Type := mkWorld {
  files : gmap path node;
  mounts : gset path;
  trace : list command      (** the utilities run so far, oldest first *)
}.

Definition set_files (f : gmap path node -> gmap path node) (w : World) :=
  mkWorld (f (files w)) (mounts w) (trace w).
Definition set_mounts (f : gset path -> gset path) (w : World) :=
  mkWorld (files w) (f (mounts w)) (trace w).
Definition log (c : command) (w : World) :=
  mkWorld (files w) (mounts w) (trace w ++ [c]).

(** How a utility ends: exit status 0, or a failure with its combined output
    and, for the utilities that write a file, the length of the partial file
    it leaves behind, if it leaves one. *)
Inductive outcome : Type :=
| Exit0
| Failed (output : string) (partial : option Z).

(** What the manager cannot decide: how each utility ends in a given world,
    and whether [chown(2)] is permitted. *)
Record Host : Type := mkHost {
  run : command -> World -> outcome;
  chown_err : path -> Z -> Z -> World -> option error
}.

(** The root directory always exists. *)
Definition lookup_node (p : path) (w : World) : option node :=
  match p with
  | [] => Some Directory
  | _ => files w !! p
  end.

(** The name [b] when [k] is [d/b]. *)
Definition child_name (d k : path) : option string :=
  if bool_decide (k = d ++ [filepath_Base k]) then Some (filepath_Base k)
  else None.

(** The entries of directory [d], in no particular order: the manager counts
    them, or takes the only one. *)
Definition children (d : path) (w : World) : list (string * node) :=
  omap (fun kn => match child_name d (fst kn) with
                  | Some b => Some (b, snd kn)
                  | None => None
                  end)
       (map_to_list (files w)).

Definition blocks_for (size : Z) : Z := (size + 511) / 512.

(** A utility writes [n] at [p], unless [p] is a directory. *)
Definition write_file (p : path) (n : node) (w : World) : World :=
  match files w !! p with
  | Some Directory => w
  | _ => set_files (insert p n) w
  end.

Definition effect (c : command) (w : World) : World :=
  match c with
  | truncate size p => write_file p (Regular size 0) w
  | fallocate size p => write_file p (Regular size (blocks_for size)) w
  | dd p bs count =>
      write_file p (Regular (bs * count) (blocks_for (bs * count))) w
  | mkfs _ _ _ => w
  | mount _ _ mp => set_mounts (fun ms => {[mp]} ∪ ms) w
  | umount mp => set_mounts (fun ms => ms ∖ {[mp]}) w
  | chmod _ _ => w
  end.

Definition partial_effect (c : command) (partial : option Z) (w : World)
  : World :=
  match c, partial with
  | truncate _ p, Some n => write_file p (Regular n 0) w
  | fallocate _ p, Some n => write_file p (Regular n (blocks_for n)) w
  | dd p _ _, Some n => write_file p (Regular n (blocks_for n)) w
  | _, _ => w
  end.

(** ** Stateful code: a state monad over the world *)

Definition IO (A : Type) : Type := World -> A * World.

Global Instance IO_ret : MRet IO := fun A x w => (x, w).
Global Instance IO_bind : MBind IO :=
  fun A B f c w => let '(x, w') := c w in f x w'.

Definition is_nil (err : option error) : bool :=
  match err with None => true | Some _ => false end.

(** Path resolution: what [p] names when its parent is a directory. *)
Inductive resolution : Type :=
| Found (n : node)
| Absent                 (** the parent is a directory without such an entry *)
| NoParent (e : errno).  (** the parent is missing, or is not a directory *)

Definition resolve (p : path) (w : World) : resolution :=
  match p with
  | [] => Found Directory
  | _ =>
      match lookup_node (filepath_Dir p) w with
      | Some Directory =>
          match files w !! p with
          | Some n => Found n
          | None => Absent
          end
      | Some _ => NoParent ENOTDIR
      | None => NoParent ENOENT
      end
  end.

Module os.

(** [os.Stat] *)
Definition Stat (p : path) : IO (option node * option error) :=
  fun w =>
    match resolve p w with
    | Found n => ((Some n, None), w)
    | Absent => ((None, Some (PathError ENOENT)), w)
    | NoParent e => ((None, Some (PathError e)), w)
    end.

Fixpoint mkdir_all (done rest : path) (fs : gmap path node)
  : option error * gmap path node :=
  match rest with
  | [] => (None, fs)
  | c :: rest' =>
      let q := done ++ [c] in
      match fs !! q with
      | Some Directory => mkdir_all q rest' fs
      | Some _ => (Some (PathError ENOTDIR), fs)
      | None => mkdir_all q rest' (<[q := Directory]> fs)
      end
  end.

(** [os.MkdirAll]: the directory and the parents it lacks. *)
Definition MkdirAll (p : path) : IO (option error) :=
  fun w =>
    let '(err, fs) := mkdir_all [] p (files w) in
    (err, set_files (fun _ => fs) w).

(** [os.Mkdir] *)
Definition Mkdir (p : path) : IO (option error) :=
  fun w =>
    match resolve p w with
    | Found _ => (Some (PathError EEXIST), w)
    | Absent => (None, set_files (insert p Directory) w)
    | NoParent e => (Some (PathError e), w)
    end.

(** [os.Create]: open for writing, create if absent, truncate. *)
Definition Create (p : path) : IO (option error) :=
  fun w =>
    match resolve p w with
    | Found Directory => (Some (PathError EISDIR), w)
    | Found Irregular => (None, w)
    | Found (Regular _ _) | Absent =>
        (None, set_files (insert p (Regular 0 0)) w)
    | NoParent e => (Some (PathError e), w)
    end.

(** [os.Remove]: a file, or an empty directory. *)
Definition Remove (p : path) : IO (option error) :=
  fun w =>
    match p, resolve p w with
    | [], _ => (Some (PathError ENOTEMPTY), w)
    | _, Found Directory =>
        match children p w with
        | [] => (None, set_files (delete p) w)
        | _ => (Some (PathError ENOTEMPTY), w)
        end
    | _, Found _ => (None, set_files (delete p) w)
    | _, Absent => (Some (PathError ENOENT), w)
    | _, NoParent e => (Some (PathError e), w)
    end.

(** [os.RemoveAll]: the path and everything below it; no error when the
    path does not exist. *)
Definition RemoveAll (p : path) : IO (option error) :=
  fun w =>
    (None,
     set_files (filter (fun kn => ¬ p `prefix_of` fst kn)) w).

(** [ioutil.ReadDir]: the entries of a directory. *)
Definition ReadDir (p : path) : IO (list (string * node) * option error) :=
  fun w =>
    match resolve p w with
    | Found Directory => ((children p w, None), w)
    | Found _ => (([], Some (PathError ENOTDIR)), w)
    | Absent => (([], Some (PathError ENOENT)), w)
    | NoParent e => (([], Some (PathError e)), w)
    end.

(** [filepath.Glob] for a pattern whose directory part is literal: the
    entries of that directory whose name matches the last component.  It
    "ignores file system errors such as I/O errors reading directories". *)
Definition Glob (pattern : path) : IO (list path * option error) :=
  let dir := filepath_Dir pattern in
  '(entries, _) ← ReadDir dir;
  mret (omap (fun e : string * node =>
                if filepath_Match (filepath_Base pattern) (fst e)
                then Some (filepath_Join dir (fst e)) else None)
             entries, None).

End os.

(** ** Integers of the Go code *)

Definition uint64 (z : Z) : Z := z mod 2 ^ 64.
Definition uint32 (z : Z) : Z := z mod 2 ^ 32.
(** Two's complement wrap-around of an [int64] result. *)
Definition int64 (z : Z) : Z := (z + 2 ^ 63) mod 2 ^ 64 - 2 ^ 63.

Definition not_nil (err : option error) : bool := negb (is_nil err).

(** ** strconv.ParseUint *)

Module strconv.

Definition digit (c : ascii) : option Z :=
  let n := Z.of_nat (nat_of_ascii c) in
  if (48 <=? n) && (n <=? 57) then Some (n - 48)
  else if (97 <=? n) && (n <=? 122) then Some (n - 97 + 10)
  else if (65 <=? n) && (n <=? 90) then Some (n - 65 + 10)
  else None.

Definition maxUint64 : Z := 2 ^ 64 - 1.

(** The loop of [ParseUint] over the bytes of [s], [n] being the value read
    so far.  The result is the value and whether an error was met. *)
Fixpoint parse_loop (base cutoff maxVal : Z) (s : string) (n : Z)
  : Z * option error :=
  match s with
  | EmptyString => (n, None)
  | String c s' =>
      match digit c with
      | None => (0, Some NumError)
      | Some d =>
          if base <=? d then (0, Some NumError)
          else if cutoff <=? n then (maxVal, Some NumError)
          else
            let n := uint64 (n * base) in
            let n1 := uint64 (n + d) in
            if (n1 <? n) || (maxVal <? n1) then (maxVal, Some NumError)
            else parse_loop base cutoff maxVal s' n1
      end
  end.

(** [strconv.ParseUint(s, base, bitSize)] for [2 <= base <= 36] and
    [0 < bitSize <= 64]. *)
Definition ParseUint (s : string) (base bitSize : Z) : Z * option error :=
  if (String.length s =? 0)%nat then (0, Some NumError)
  else
    let cutoff := maxUint64 / base + 1 in
    let maxVal := 2 ^ bitSize - 1 in
    parse_loop base cutoff maxVal s 0.

End strconv.

(** ** driver.go: the [mode] option of [Driver.Create]

    The seventh step of [Driver.Create]: from the options of the request to
    the [mode] argument of [Manager.Create], or the error the request ends
    with. *)

Definition msg_mode_parse : string :=
  "cannot parse mode '%s' as positive 4-position octal".
Definition msg_mode_range : string :=
  "mode value '%s' does not fall between 0 and 7777 in octal encoding".

Definition Driver_Create_mode (Options : gmap string string)
  : Z * option error :=
  let mode := 0 in
  let modeStr := default "" (Options !! "mode") in
  let modePresent := bool_decide (is_Some (Options !! "mode")) in
  if modePresent && (0 <? String.length modeStr)%nat then
    let '(modeParsed, err) := strconv.ParseUint modeStr 8 32 in
    if not_nil err then (mode, errors_Wrapf err msg_mode_parse)
    else if (modeParsed <=? 0) || (4095 <? modeParsed)   (* 07777 *)
    then (mode, errors_Errorf msg_mode_range)
    else (uint32 modeParsed, None)
  else (mode, None).

(** ** manager.go: the manager *)

Record Manager : Type := mkManager {
  stateDir : path;
  dataDir : path;
  mountDir : path
}.

(** The fields [getVolume] fills in ([CreatedAt], the modification time of
    the data file, is left out: the file tree keeps no times). *)
Record Volume : Type := mkVolume {
  Name : string;
  Fs : string;
  AllocatedSizeInBytes : Z;
  MaxSizeInBytes : Z;
  StateDir : path;
  DataFilePath : path;
  MountPointPath : path
}.

(** The zero value of the struct. *)
Definition noVolume : Volume := mkVolume "" "" 0 0 [] [] [].

Definition MkFsOptions : gmap string (list string) :=
  <["ext4" := ["-F"]]> (<["xfs" := []]> ∅).

Definition MountOptions : gmap string (list string) :=
  <["ext4" := []]> (<["xfs" := ["-o"; "nouuid"]]> ∅).

Definition msg_glob : string :=
  "An issue occurred while retrieving details about volume '%s' - cannot glob data dir".
Definition msg_ambiguous : string :=
  "More than 1 data file found for volume '%s'".
Definition msg_not_exist : string :=
  "Volume '%s' does not exist".
Definition msg_disappeared : string :=
  "Volume '%s' disappeared just a moment ago".
Definition msg_not_regular : string :=
  "Volume data path expected to point to a file but it appears to be something else: '%s'".

(** On Linux [FileInfo.Sys()] is always a [*syscall.Stat_t], so the branch
    for a failed type assertion has no counterpart here. *)
Definition getVolume (m : Manager) (name : string) : IO (Volume * option error) :=
  let prefix := path_append (filepath_Join (dataDir m) name) ".*" in
  '(matches, err) ← os.Glob prefix;
  if not_nil err then mret (noVolume, errors_Wrapf err msg_glob) else
  if (1 <? length matches)%nat then
    mret (noVolume, errors_Errorf msg_ambiguous)
  else if (length matches =? 0)%nat then
    mret (noVolume, errors_Errorf msg_not_exist)
  else
  let volumeDataFilePath := hd [] matches in
  let fs := TrimLeftDots (filepath_Ext volumeDataFilePath) in
  '(volumeDataFileInfo, err) ← os.Stat volumeDataFilePath;
  if not_nil err then
    if os_IsNotExist err then mret (noVolume, errors_Errorf msg_disappeared)
    else mret (noVolume, err)
  else
  match volumeDataFileInfo with
  | Some (Regular Size Blocks) =>
      let mountPointPath := filepath_Join (mountDir m) name in
      mret (mkVolume name fs
              (uint64 (int64 (Blocks * 512)))
              (uint64 Size)
              (filepath_Join (stateDir m) name)
              volumeDataFilePath
              mountPointPath, None)
  | _ => mret (noVolume, errors_Errorf msg_not_regular)
  end.

Definition msg_get_name : string :=
  "Error creating volume '%s' - invalid volume name".

Definition Get (m : Manager) (name : string) : IO (Volume * option error) :=
  let err := validateName name in
  if not_nil err then mret (noVolume, errors_Wrapf err msg_get_name) else
  getVolume m name.

(** Modelled from the spec: [Volume.IsMounted], the method [Mount], [UnMount]
    and [Delete] call; the file that declares [Volume] and its methods is not
    among the sources.  Spec 4.4: the leases of a volume are the entries of
    its state directory, "an absent state directory is treated as zero
    leases, not an error", and the volume is mounted when the lease count is
    greater than zero. *)
Definition IsMounted (vol : Volume) : IO (bool * option error) :=
  '(leases, err) ← os.ReadDir (StateDir vol);
  if not_nil err then
    if os_IsNotExist err then mret (false, None) else mret (false, err)
  else mret ((0 <? length leases)%nat, None).

(** The lease identifiers recorded for a volume (spec 4.4, [listLeases]). *)
Definition listLeases (vol : Volume) (w : World) : list string :=
  (fst (fst (os.ReadDir (StateDir vol) w))).*1.

Definition msg_delete_name : string :=
  "Error deleting volume '%s' - invalid volume name".
Definition msg_delete_meta : string :=
  "Error deleting volume '%s' - cannot get its metadata".
Definition msg_delete_status : string :=
  "Error deleting volume '%s' - cannot get its mount status.".
Definition msg_in_use : string :=
  "Error deleting volume '%s' - still in use".
Definition msg_delete_remove : string :=
  "Error deleting volume '%s' - cannot delete '%s'".

Definition Delete (m : Manager) (name : string) : IO (option error) :=
  let err := validateName name in
  if not_nil err then mret (errors_Wrapf err msg_delete_name) else
  '(vol, err) ← Get m name;
  if not_nil err then mret (errors_Wrapf err msg_delete_meta) else
  '(isMounted, err) ← IsMounted vol;
  if not_nil err then mret (errors_Wrapf err msg_delete_status) else
  if (isMounted : bool) then mret (errors_Wrapf err msg_in_use) else
  err ← os.Remove (DataFilePath vol);
  if not_nil err then mret (errors_Wrapf err msg_delete_remove) else
  mret None.

(** ** manager.go: the operations that run utilities *)

Section WithHost.

Variable host : Host.

(** [exec.Command(...).CombinedOutput()]: the utility is run, the host decides
    how it ends; the result is its combined output and the error. *)
Definition exec_Command (c : command) : IO (string * option error) :=
  fun w =>
    match run host c w with
    | Exit0 => (("", None), effect c (log c w))
    | Failed output partial =>
        ((output, Some ExitError), partial_effect c partial (log c w))
    end.

(** [os.Chown] *)
Definition os_Chown (p : path) (uid gid : Z) : IO (option error) :=
  fun w => (chown_err host p uid gid w, w).

Definition msg_mount_name : string :=
  "Error mounting volume '%s' - invalid volume name".
Definition msg_mount_meta : string :=
  "Error mounting volume '%s' - cannot get its metadata".
Definition msg_mount_status : string :=
  "Error mounting volume '%s' - cannot check its mount status".
Definition msg_mount_statedir : string :=
  "Error mounting volume '%s' - cannot create its state dir".
Definition msg_mount_lease_access : string :=
  "Error mounting volume '%s' - cannot access lease file '%s'".
Definition msg_mount_lease_create : string :=
  "Error mounting volume '%s' - cannot create lease file '%s'".
Definition msg_mount_mkdir : string :=
  "Error mounting volume '%s' - cannot create mount point dir".
Definition msg_mount_failed : string :=
  "Error mounting volume '%s' - cannot mount data file '%s' at '%s': %s".

Definition Mount (m : Manager) (name lease : string)
  : IO (path * option error) :=
  let failedResult : path := [] in
  let err := validateName name in
  if not_nil err then mret (failedResult, errors_Wrapf err msg_mount_name) else
  '(vol, err) ← getVolume m name;
  if not_nil err then mret (failedResult, errors_Wrapf err msg_mount_meta) else
  '(isAlreadyMounted, err) ← IsMounted vol;
  if not_nil err then mret (failedResult, errors_Wrapf err msg_mount_status) else
  '(_, err) ← os.Stat (StateDir vol);
  err ← (if not_nil err && os_IsNotExist err
         then os.MkdirAll (StateDir vol) else mret None);
  if not_nil err then mret (failedResult, errors_Wrapf err msg_mount_statedir) else
  let leaseFile := filepath_Join (StateDir vol) lease in
  '(_, err) ← os.Stat leaseFile;
  if not_nil err && negb (os_IsNotExist err) then
    mret (failedResult, errors_Wrapf err msg_mount_lease_access) else
  err ← os.Create leaseFile;
  if not_nil err then
    mret (failedResult, errors_Wrapf err msg_mount_lease_create) else
  if negb (isAlreadyMounted : bool) then
    err ← os.Mkdir (MountPointPath vol);
    if not_nil err then
      _ ← os.Remove leaseFile;
      mret (failedResult, errors_Wrapf err msg_mount_mkdir) else
    let mountFlags := default [] (MountOptions !! Fs vol) in
    '(errBytes, err) ← exec_Command
       (mount mountFlags (DataFilePath vol) (MountPointPath vol));
    if not_nil err then
      let errStr := GoString.TrimSpace errBytes in
      _ ← os.Remove leaseFile;
      mret (failedResult, errors_Wrapf err msg_mount_failed) else
    mret (MountPointPath vol, None)
  else
  mret (MountPointPath vol, None).

Definition msg_unmount_name : string :=
  "Error un-mounting volume '%s' - invalid volume name".
Definition msg_unmount_meta : string :=
  "Error un-mounting volume '%s' - cannot get its metadata".
Definition msg_lease_not_found : string :=
  "Error un-mounting volume '%s' - cannot find lease '%s'".
Definition msg_unmount_status : string :=
  "Error un-mounting volume '%s' - cannot figure out if it's used somewhere else".
Definition msg_unmount_statedir : string :=
  "Error un-mounting volume '%s' - cannot remove its state dir".
Definition msg_unmount_failed : string :=
  "Error un-mounting volume '%s' - cannot unmount data file '%s' from mount point '%s': %s".
Definition msg_unmount_rmdir : string :=
  "Error un-mounting volume '%s' - cannot remove mount point dir '%s'".

Definition UnMount (m : Manager) (name lease : string) : IO (option error) :=
  let err := validateName name in
  if not_nil err then mret (errors_Wrapf err msg_unmount_name) else
  '(vol, err) ← getVolume m name;
  if not_nil err then mret (errors_Wrapf err msg_unmount_meta) else
  let leaseFile := filepath_Join (StateDir vol) lease in
  err ← os.Remove leaseFile;
  if not_nil err then mret (errors_Wrapf err msg_lease_not_found) else
  '(isMountedSomewhereElse, err) ← IsMounted vol;
  if not_nil err then mret (errors_Wrapf err msg_unmount_status) else
  if negb (isMountedSomewhereElse : bool) then
    err ← os.RemoveAll (StateDir vol);
    if not_nil err then mret (errors_Wrapf err msg_unmount_statedir) else
    '(errBytes, err) ← exec_Command (umount (MountPointPath vol));
    if not_nil err then
      let errStr := GoString.TrimSpace errBytes in
      mret (errors_Wrapf err msg_unmount_failed) else
    err ← os.RemoveAll (MountPointPath vol);
    if not_nil err then mret (errors_Wrapf err msg_unmount_rmdir) else
    mret None
  else
  mret None.

Definition msg_create_name : string :=
  "Error creating volume '%s' - invalid volume name".
Definition msg_size_too_small : string :=
  "Error creating volume '%s' - requested size '%s' is smaller than minimum allowed 10MB".
Definition msg_unsupported_fs : string :=
  "Error creating volume '%s' - only xfs and ext4 filesystems are supported, '%s' requested".
Definition msg_create_datadir : string :=
  "Error creating volume '%s' - cannot create data dir: '%s'".
Definition msg_create_sparse : string :=
  "Error creating volume '%s' - error creating sparse data file: %s".
Definition msg_no_space : string :=
  "Error creating volume '%s' - not enough disk space: '%s'".
Definition msg_create_dd : string :=
  "Error creating volume '%s' - '%s'".
Definition msg_create_format : string :=
  "Error creating volume '%s' - cannot format datafile as %s filesystem: %s".
Definition msg_create_mount : string :=
  "Error creating volume '%s' - cannot mount volume to adjust its root owner/permissions".
Definition msg_create_chmod : string :=
  "Error creating volume '%s' - cannot adjust volume root permissions: %s".
Definition msg_create_chown : string :=
  "Error creating volume '%s' - cannot adjust volume root owner".
Definition msg_create_unmount : string :=
  "Error creating volume '%s' - cannot unmount volume after adjusting its root owner/permissions".

(** The allocation of the data file, lines 156 to 197: the error [Create]
    returns with, or [nil] when it goes on to format the file. *)
Definition Create_allocate (sizeInBytes : Z) (sparse : bool)
  (dataFilePath : path) : IO (option error) :=
  if sparse then
    '(errBytes, err) ← exec_Command (truncate sizeInBytes dataFilePath);
    if not_nil err then
      let errStr := GoString.TrimSpace errBytes in
      _ ← os.Remove dataFilePath;
      mret (errors_Wrapf err msg_create_sparse) else
    mret None
  else
    '(errBytes, err) ← exec_Command (fallocate sizeInBytes dataFilePath);
    if not_nil err then
      let errStr := GoString.TrimSpace errBytes in
      if GoString.Contains errStr "No space" then
        _ ← os.Remove dataFilePath;
        mret (errors_Wrapf err msg_no_space) else
      let bs := int64 1000000 in
      let count := int64 (sizeInBytes ÷ bs) in
      '(errBytes, err) ← exec_Command (dd dataFilePath bs count);
      if not_nil err then
        let errStr := GoString.TrimSpace errBytes in
        _ ← os.Remove dataFilePath;
        mret (errors_Wrapf err msg_create_dd) else
      mret None
    else
    mret None.

(** The adjustment of owner and mode, lines 211 to 251. *)
Definition Create_adjust (m : Manager) (name : string) (dataFilePath : path)
  (uid gid : Z) (mode : Z) : IO (option error) :=
  if (0 <=? uid) || (0 <=? gid) || (0 <? mode) then
    let lease := "driver" in
    '(mountPath, err) ← Mount m name lease;
    if not_nil err then
      _ ← os.Remove dataFilePath;
      mret (errors_Wrapf err msg_create_mount) else
    err ← (if 0 <? mode then
             '(errBytes, err) ← exec_Command (chmod mode mountPath);
             if not_nil err then
               let errStr := GoString.TrimSpace errBytes in
               _ ← UnMount m name lease;
               _ ← os.Remove dataFilePath;
               mret (errors_Wrapf err msg_create_chmod) else
             mret None
           else mret None);
    if not_nil err then mret err else
    err ← (if (0 <=? uid) || (0 <=? gid) then
             err ← os_Chown mountPath uid gid;
             if not_nil err then
               _ ← UnMount m name lease;
               _ ← os.Remove dataFilePath;
               mret (errors_Wrapf err msg_create_chown) else
             mret None
           else mret None);
    if not_nil err then mret err else
    err ← UnMount m name lease;
    if not_nil err then
      _ ← os.Remove dataFilePath;
      mret (errors_Wrapf err msg_create_unmount) else
    mret None
  else
  mret None.

Definition Create (m : Manager) (name : string) (sizeInBytes : Z)
  (sparse : bool) (fs : string) (uid gid : Z) (mode : Z) : IO (option error) :=
  let err := validateName name in
  if not_nil err then mret (errors_Wrapf err msg_create_name) else
  if sizeInBytes <? 10000000 then mret (errors_Errorf msg_size_too_small) else
  match MkFsOptions !! fs with
  | None => mret (errors_Errorf msg_unsupported_fs)
  | Some mkfsFlags =>
  err ← os.MkdirAll (dataDir m);
  if not_nil err then mret (errors_Wrapf err msg_create_datadir) else
  let dataFilePath := filepath_Join (dataDir m) (name +:+ "." +:+ fs) in
  err ← Create_allocate sizeInBytes sparse dataFilePath;
  if not_nil err then mret err else
  '(errBytes, err) ← exec_Command (mkfs fs mkfsFlags dataFilePath);
  if not_nil err then
    let errStr := GoString.TrimSpace errBytes in
    _ ← os.Remove dataFilePath;
    mret (errors_Wrapf err msg_create_format) else
  Create_adjust m name dataFilePath uid gid mode
  end.

End WithHost.

(** ** Vocabulary of the statements *)

(** The characters of a name, by their codes. *)
Definition between (lo hi c : ascii) : Prop :=
  (nat_of_ascii lo <= nat_of_ascii c <= nat_of_ascii hi)%nat.

Definition alphanumeric (c : ascii) : Prop :=
  between "a" "z" c \/ between "A" "Z" c \/ between "0" "9" c.

Definition name_char (c : ascii) : Prop :=
  alphanumeric c \/ c = "_"%char \/ c = "-"%char.


(** The value of a string of octal digits, most significant first; [None]
    for the empty string and for a string with any other character. *)
Fixpoint octal_from (s : string) (acc : Z) : option Z :=
  match s with
  | EmptyString => Some acc
  | String c s' =>
      let n := Z.of_nat (nat_of_ascii c) in
      if (48 <=? n) && (n <=? 55) then octal_from s' (8 * acc + (n - 48))
      else None
  end.

Definition octal_value (s : string) : option Z :=
  match s with
  | EmptyString => None
  | _ => octal_from s 0
  end.

(** A deployment for the examples: the directories of the plugin's default
    configuration, and a host on which every utility succeeds. *)
Definition plugin : Manager :=
  mkManager ["srv"; "run"; "docker-volume-loopback"]
            ["srv"; "var"; "lib"; "docker-volume-loopback"]
            ["mnt"].

Definition obliging : Host :=
  mkHost (fun _ _ => Exit0) (fun _ _ _ _ => None).

(** Only the mount directory exists. *)
Definition fresh : World :=
  mkWorld (<[["mnt"] := Directory]> ∅) ∅ [].

(** The volume [db] exists and consumer [c1] holds it mounted. *)
Definition db_held_by_c1 : World :=
  snd (Mount obliging plugin "db" "c1"
         (snd (Create obliging plugin "db" 50000000 false "ext4" (-1) (-1) 0
                 fresh))).

(** What [getVolume] answers when the pattern has the single match [p]. *)
Definition resolved (m : Manager) (name : string) (p : path) (w : World)
  : Volume * option error :=
  match files w !! p with
  | Some (Regular size blocks) =>
      (mkVolume name (TrimLeftDots (filepath_Ext p))
         (uint64 (int64 (blocks * 512))) (uint64 size)
         (filepath_Join (stateDir m) name) p
         (filepath_Join (mountDir m) name), None)
  | _ => (noVolume, Some (New msg_not_regular))
  end.


(** A host whose disk is full: allocation fails with "No space left on
    device" and leaves an empty file. *)
Definition disk_full : Host :=
  mkHost (fun c _ => match c with
                     | fallocate _ _ =>
                         Failed "fallocate: fallocate failed: No space left on device" (Some 0)
                     | _ => Exit0
                     end)
         (fun _ _ _ _ => None).

(** [Mount] from the lease file on (lines 289 to 327), for the volume and the
    mount status found before. *)
Definition Mount_lease (host : Host) (vol : Volume) (lease : string)
  (isAlreadyMounted : bool) : IO (path * option error) :=
  let failedResult : path := [] in
  let leaseFile := filepath_Join (StateDir vol) lease in
  '(_, err) ← os.Stat leaseFile;
  if not_nil err && negb (os_IsNotExist err) then
    mret (failedResult, errors_Wrapf err msg_mount_lease_access) else
  err ← os.Create leaseFile;
  if not_nil err then
    mret (failedResult, errors_Wrapf err msg_mount_lease_create) else
  if negb (isAlreadyMounted : bool) then
    err ← os.Mkdir (MountPointPath vol);
    if not_nil err then
      _ ← os.Remove leaseFile;
      mret (failedResult, errors_Wrapf err msg_mount_mkdir) else
    let mountFlags := default [] (MountOptions !! Fs vol) in
    '(errBytes, err) ← exec_Command host
       (mount mountFlags (DataFilePath vol) (MountPointPath vol));
    if not_nil err then
      let errStr := GoString.TrimSpace errBytes in
      _ ← os.Remove leaseFile;
      mret (failedResult, errors_Wrapf err msg_mount_failed) else
    mret (MountPointPath vol, None)
  else
  mret (MountPointPath vol, None).

(** The utility [Mount] runs for a volume, and the one [UnMount] runs. *)
Definition mounting (vol : Volume) : command :=
  mount (default [] (MountOptions !! Fs vol)) (DataFilePath vol)
        (MountPointPath vol).
Definition unmounting (vol : Volume) : command :=
  umount (MountPointPath vol).

(** No configured directory lies inside another, or is another. *)
Definition separate (m : Manager) : Prop :=
  ¬ stateDir m `prefix_of` dataDir m /\ ¬ dataDir m `prefix_of` stateDir m /\
  ¬ mountDir m `prefix_of` dataDir m /\ ¬ dataDir m `prefix_of` mountDir m /\
  ¬ stateDir m `prefix_of` mountDir m /\ ¬ mountDir m `prefix_of` stateDir m.

(** Two worlds with the same directory [d]: it resolves alike and has the
    same entries. *)
Definition same_entries (d : path) (w w' : World) : Prop :=
  resolve d w' = resolve d w /\
  forall b, files w' !! filepath_Join d b = files w !! filepath_Join d b.

(** Every entry of the file tree lies in a directory. *)
Definition well_formed (w : World) : Prop :=
  map_Forall (fun p _ => lookup_node (filepath_Dir p) w = Some Directory)
             (files w).

Global Instance well_formed_dec (w : World) : Decision (well_formed w).
Proof. unfold well_formed. apply _. Defined.

(** No character of [s] is special in a [filepath.Match] pattern of the
    model. *)
Fixpoint literal (s : string) : bool :=
  match s with
  | EmptyString => true
  | String c s' => negb (Ascii.eqb c "*") && negb (Ascii.eqb c "?") && literal s'
  end.

(** ** manager.go: List *)

(** [strings.HasSuffix] and [strings.TrimSuffix] *)
Definition strings_HasSuffix (s suffix : string) : bool :=
  (String.length suffix <=? String.length s)%nat &&
  String.eqb (substring (String.length s - String.length suffix)
                        (String.length suffix) s) suffix.

Definition strings_TrimSuffix (s suffix : string) : string :=
  if strings_HasSuffix s suffix
  then substring 0 (String.length s - String.length suffix) s
  else s.

(** [ioutil.ReadDir] returns the entries "sorted by filename"; a loop over
    them visits them in that order. *)
Definition ioutil_ReadDir (p : path) : IO (list (string * node) * option error) :=
  '(entries, err) ← os.ReadDir p;
  mret (merge_sort (fun a b : string * node => String.leb (fst a) (fst b))
          entries, err).

Definition msg_list : string :=
  "Couldn't list files/directories from data dir '%s'".

(** [file.Mode().IsRegular()] *)
Definition IsRegular (n : node) : bool :=
  match n with Regular _ _ => true | _ => false end.

(** The loop of [List] over the entries that are left, [vols] being the
    volumes found so far.  The names the loop hands to [getVolume] are not
    validated; [getVolume] globs with them, so for names with [[] or a
    backslash the limits of [filepath_Match] apply. *)
Fixpoint List_loop (m : Manager) (files : list (string * node))
  (vols : list Volume) : IO (list Volume * option error) :=
  match files with
  | [] => mret (vols, None)
  | file :: files' =>
      if IsRegular (snd file) then
        let name := strings_TrimSuffix (fst file) (Ext (fst file)) in
        '(vol, err) ← getVolume m name;
        if not_nil err then mret ([], err) else
        List_loop m files' (vols ++ [vol])
      else List_loop m files' vols
  end.

Definition List (m : Manager) : IO (list Volume * option error) :=
  '(files, err) ← ioutil_ReadDir (dataDir m);
  if not_nil err then mret ([], errors_Wrapf err msg_list) else
  List_loop m files [].

(** ** Further vocabulary *)

(** No character of [s] is a dot. *)
Fixpoint dotless (s : string) : bool :=
  match s with
  | EmptyString => true
  | String c s' => negb (Ascii.eqb c ".") && dotless s'
  end.

(** The volume [db] exists and nobody has mounted it. *)
Definition db_created : World :=
  snd (Create obliging plugin "db" 50000000 false "ext4" (-1) (-1) 0 fresh).

(** A host on which [mount] fails and leaves nothing mounted; all else
    succeeds. *)
Definition without_mount : Host :=
  mkHost (fun c _ => match c with
                     | mount _ _ _ =>
                         Failed "mount: wrong fs type, bad option, bad superblock" None
                     | _ => Exit0
                     end)
         (fun _ _ _ _ => None).



(** The file a utility writes, if it writes one. *)
Definition written_file (c : command) : option path :=
  match c with
  | truncate _ q | fallocate _ q | dd q _ _ => Some q
  | _ => None
  end.

(** The data directory is in place and its entry [b] is not a directory. *)
Definition ready_for (m : Manager) (b : string) (w : World) : Prop :=
  resolve (dataDir m) w = Found Directory /\
  files w !! filepath_Join (dataDir m) b <> Some Directory.


(** ** strconv: ParseBool, ParseInt, Atoi *)

(** [strconv.ParseBool] *)
Definition strconv_ParseBool (str : string) : bool * option error :=
  if bool_decide (str ∈ ["1"; "t"; "T"; "true"; "TRUE"; "True"])
  then (true, None)
  else if bool_decide (str ∈ ["0"; "f"; "F"; "false"; "FALSE"; "False"])
  then (false, None)
  else (false, Some NumError).

(** [strconv.ParseInt(s, base, bitSize)] for [0 < bitSize <= 64].  The error
    of the model keeps no kind; [ParseUint] returns the largest value with a
    range error and 0 with a syntax error, which tells the two apart. *)
Definition strconv_ParseInt (s : string) (base bitSize : Z) : Z * option error :=
  match s with
  | EmptyString => (0, Some NumError)
  | String c r =>
      let neg := Ascii.eqb c "-" in
      let s1 := if Ascii.eqb c "+" || Ascii.eqb c "-" then r else s in
      let '(un, err) := strconv.ParseUint s1 base bitSize in
      if not_nil err && negb (un =? 2 ^ bitSize - 1) then (0, err) else
      let cutoff := uint64 (2 ^ (bitSize - 1)) in
      if negb neg && (cutoff <=? un) then (int64 (cutoff - 1), Some NumError)
      else if neg && (cutoff <? un) then (int64 (- int64 cutoff), Some NumError)
      else
        let n := int64 un in
        let n := if neg then int64 (- n) else n in
        (n, None)
  end.

(** The loop of the fast path of [Atoi]: [ch -= '0'] on a byte, then
    [n = n*10 + int(ch)]. *)
Fixpoint Atoi_loop (s : string) (n : Z) : option Z :=
  match s with
  | EmptyString => Some n
  | String c s' =>
      let ch := (Z.of_nat (nat_of_ascii c) - 48) mod 256 in
      if 9 <? ch then None
      else Atoi_loop s' (int64 (n * 10 + ch))
  end.

(** [strconv.Atoi] where [int] has 64 bits: the fast path for strings of
    fewer than 19 bytes, [ParseInt(s, 10, 0)] for the others, the bit size 0
    standing for that of [int]. *)
Definition strconv_Atoi (s : string) : Z * option error :=
  let sLen := String.length s in
  if (0 <? sLen)%nat && (sLen <? 19)%nat then
    match s with
    | EmptyString => (0, Some NumError)
    | String c r =>
        let signed := Ascii.eqb c "-" || Ascii.eqb c "+" in
        let s1 := if signed then r else s in
        if signed && (String.length s1 <? 1)%nat then (0, Some NumError) else
        match Atoi_loop s1 0 with
        | None => (0, Some NumError)
        | Some n =>
            let n := if Ascii.eqb c "-" then int64 (- n) else n in
            (n, None)
        end
    end
  else
    strconv_ParseInt s 10 64.

(** ** driver.go: Create *)

Module v.

(** [volume.CreateRequest] of the plugin helpers. *)
Record CreateRequest : Type := mkCreateRequest {
  Name : string;
  Options : gmap string string
}.

End v.

(** The driver; its logger and its lock have no part in what it computes. *)
Record Driver : Type := mkDriver {
  defaultSize : string;
  manager : Manager
}.

Definition AllowedOptions : list string :=
  ["size"; "sparse"; "fs"; "uid"; "gid"; "mode"].

Definition msg_options : string :=
  "options '%s' are not among supported ones: %s".
Definition msg_size : string :=
  "cannot convert 'size' option value '%s' into bytes".
Definition msg_sparse : string :=
  "cannot parse 'sparse' option value '%s' as bool".
Definition msg_uid_parse : string :=
  "cannot parse 'uid' option value '%s' as an integer".
Definition msg_uid_negative : string :=
  "'uid' option should be >= 0 but received '%d'".
Definition msg_gid_parse : string :=
  "cannot parse 'gid' option value '%s' as an integer".
Definition msg_gid_negative : string :=
  "'gid' option should be >= 0 but received '%d'".

(** All bytes are below [utf8.RuneSelf]. *)
Definition isASCII (s : string) : bool :=
  forallb (fun c => (nat_of_ascii c <? 128)%nat) (GoString.bytes s).

Definition lower (c : ascii) : ascii :=
  let n := nat_of_ascii c in
  if ((65 <=? n) && (n <=? 90))%nat then ascii_of_nat (n + 32) else c.

Fixpoint map_bytes (f : ascii -> ascii) (s : string) : string :=
  match s with
  | EmptyString => EmptyString
  | String c s' => String (f c) (map_bytes f s')
  end.

Section DriverCreate.

(** What is not in the sources or is left open: [FromHumanSize] of the
    driver package, and what [strings.TrimSpace] and [strings.ToLower] make
    of a string with a byte outside ASCII. *)
Variable FromHumanSize : string -> Z * option error.
Variable unicode_TrimSpace : string -> string.
Variable unicode_ToLower : string -> string.

Variable host : Host.

(** [strings.TrimSpace]: on an ASCII string, the string without its leading
    and trailing white space. *)
Definition strings_TrimSpace (s : string) : string :=
  if isASCII s then GoString.TrimSpace s else unicode_TrimSpace s.

(** [strings.ToLower]: on an ASCII string, the letters [A] to [Z] mapped to
    [a] to [z]. *)
Definition strings_ToLower (s : string) : string :=
  if isASCII s then map_bytes lower s else unicode_ToLower s.

(** The fifth and the sixth step of [Driver.Create]: the owner or the group
    of the volume root from the option [key], -1 when there is none. *)
Definition Driver_Create_id (Options : gmap string string) (key : string)
  (msg_parse msg_negative : string) : Z * option error :=
  let id := -1 in
  match Options !! key with
  | Some idStr =>
      if (0 <? String.length idStr)%nat then
        let '(id, err) := strconv_Atoi idStr in
        if not_nil err then (id, errors_Wrapf err msg_parse)
        else if id <? 0 then (id, errors_Errorf msg_negative)
        else (id, None)
      else (id, None)
  | None => (id, None)
  end.

Definition Driver_Create (d : Driver) (req : v.CreateRequest)
  : IO (option error) :=
  (* 1st - let's validate incoming option names *)
  let wrongOptions :=
    filter (fun k => k ∉ AllowedOptions) (map_to_list (v.Options req)).*1 in
  if (0 <? length wrongOptions)%nat then mret (errors_Errorf msg_options) else
  (* 2nd - parse 'size' option if present *)
  let size := default (defaultSize d) (v.Options req !! "size") in
  let '(sizeInBytes, err) := FromHumanSize size in
  if not_nil err then mret (errors_Errorf msg_size) else
  (* 3rd - parse 'sparse' option if present *)
  let '(sparse, err) := match v.Options req !! "sparse" with
                        | Some sparseStr => strconv_ParseBool sparseStr
                        | None => (false, None)
                        end in
  if not_nil err then mret (errors_Wrapf err msg_sparse) else
  (* 4th - parse 'fs' option if present *)
  let fs := match v.Options req !! "fs" with
            | Some fsInput =>
                if (0 <? String.length fsInput)%nat
                then strings_ToLower (strings_TrimSpace fsInput)
                else "xfs"
            | None => "xfs"
            end in
  (* 5th - parse 'uid' option if present *)
  let '(uid, err) :=
    Driver_Create_id (v.Options req) "uid" msg_uid_parse msg_uid_negative in
  if not_nil err then mret err else
  (* 6th - parse 'gid' option if present *)
  let '(gid, err) :=
    Driver_Create_id (v.Options req) "gid" msg_gid_parse msg_gid_negative in
  if not_nil err then mret err else
  (* 7th - parse 'mode' option if present *)
  let '(mode, err) := Driver_Create_mode (v.Options req) in
  if not_nil err then mret err else
  (* Finally - attempt creating a volume *)
  Create host (manager d) (v.Name req) sizeInBytes sparse fs uid gid mode.

End DriverCreate.

(** ** Vocabulary of the driver's options *)

(** The value of a string of decimal digits, most significant first; [None]
    for a string with any other character. *)
Fixpoint decimal_from (s : string) (acc : Z) : option Z :=
  match s with
  | EmptyString => Some acc
  | String c s' =>
      let n := Z.of_nat (nat_of_ascii c) in
      if (48 <=? n) && (n <=? 57) then decimal_from s' (10 * acc + (n - 48))
      else None
  end.

Definition decimal_value (s : string) : option Z :=
  match s with
  | EmptyString => None
  | _ => decimal_from s 0
  end.

(** A decimal number with an optional sign. *)
Definition signed_decimal (s : string) : option Z :=
  match s with
  | EmptyString => None
  | String c r =>
      if Ascii.eqb c "+" then decimal_value r
      else if Ascii.eqb c "-" then Z.opp <$> decimal_value r
      else decimal_value s
  end.

(** What the options of a request stand for, when they stand for something:
    the words [ParseBool] knows, an owner or a group, a mode. *)
Definition sparse_option (O : gmap string string) (sparse : bool) : Prop :=
  match O !! "sparse" with
  | None => sparse = false
  | Some s =>
      s ∈ ["1"; "t"; "T"; "true"; "TRUE"; "True"] /\ sparse = true \/
      s ∈ ["0"; "f"; "F"; "false"; "FALSE"; "False"] /\ sparse = false
  end.

Definition id_option (O : gmap string string) (key : string) (id : Z) : Prop :=
  match O !! key with
  | None | Some EmptyString => id = -1
  | Some s => signed_decimal s = Some id /\ 0 <= id <= 2 ^ 63 - 1
  end.

Definition mode_option (O : gmap string string) (mode : Z) : Prop :=
  match O !! "mode" with
  | None | Some EmptyString => mode = 0
  | Some s => octal_value s = Some mode /\ 1 <= mode <= 4095
  end.

(** The data directory is in place in [w] and has the entries of [w0], but
    for the entry [b]. *)
Definition framed_by (m : Manager) (b : string) (w0 w : World) : Prop :=
  resolve (dataDir m) w = Found Directory /\
  forall b', b' <> b ->
    files w !! filepath_Join (dataDir m) b'
    = files w0 !! filepath_Join (dataDir m) b'.

(** * Properties *)

(** ** The name validator *)

Section NameValidator.

Lemma matches_NoMatch s : matches NoMatch s = false.
Proof. induction s; simpl; auto. Qed.

Lemma matches_Alternate s : forall r1 r2,
  matches (Alternate r1 r2) s = matches r1 s || matches r2 s.
Proof. induction s as [|c s IH]; intros; simpl; auto. Qed.

Lemma matches_Concat_NoMatch s : forall r, matches (Concat NoMatch r) s = false.
Proof.
  induction s as [|c s IH]; intros; simpl; auto.
  now rewrite matches_Alternate, IH, matches_NoMatch.
Qed.

Lemma matches_Concat_EmptyMatch r s :
  matches (Concat EmptyMatch r) s = matches r s.
Proof.
  destruct s as [|c s]; simpl; auto.
  now rewrite matches_Alternate, matches_Concat_NoMatch.
Qed.

(** Bounded repetition of a character class: the length is within the bounds
    and every character is in the class. *)
Lemma matches_Repeat_CharClass cl s : forall lo hi,
  matches (Repeat (CharClass cl) lo hi) s =
  ((lo <=? String.length s)%nat && (String.length s <=? hi)%nat &&
   forallb (in_class cl) (GoString.bytes s)).
Proof.
  induction s as [|c s IH]; intros lo hi; simpl.
  - destruct lo; simpl; auto.
  - destruct hi as [|hi]; simpl.
    + rewrite matches_NoMatch. now rewrite andb_false_r.
    + destruct (in_class cl c); simpl.
      * rewrite matches_Concat_EmptyMatch, IH.
        destruct lo as [|lo]; simpl; auto.
      * rewrite matches_Concat_NoMatch. now rewrite andb_false_r.
Qed.

Lemma MatchString_NameRegex c rest :
  MatchString NameRegex (String c rest) =
  in_class alnum c &&
  ((1 <=? String.length rest)%nat && (String.length rest <=? 250)%nat &&
   forallb (in_class word_or_hyphen) (GoString.bytes rest)).
Proof.
  unfold MatchString, NameRegex. cbn [matches deriv nullable].
  rewrite matches_Alternate, matches_NoMatch, orb_false_r.
  destruct (in_class alnum c); simpl.
  - now rewrite matches_Concat_EmptyMatch, matches_Repeat_CharClass.
  - apply matches_Concat_NoMatch.
Qed.

End NameValidator.

Lemma in_class_alnum c : in_class alnum c = true <-> alphanumeric c.
Proof.
  unfold in_class, alnum, alphanumeric, between, in_range.
  cbn [existsb fst snd].
  rewrite !orb_true_iff, !andb_true_iff, !Nat.leb_le. intuition congruence.
Qed.

Lemma in_class_word_or_hyphen c :
  in_class word_or_hyphen c = true <-> name_char c.
Proof.
  unfold in_class, word_or_hyphen, name_char, alphanumeric, between, in_range.
  cbn [existsb fst snd].
  rewrite !orb_true_iff, !andb_true_iff, !Nat.leb_le.
  assert (Hone : forall x : ascii,
            (nat_of_ascii x <= nat_of_ascii c <= nat_of_ascii x)%nat <-> c = x).
  { intros x. split; [intros H|intros ->; lia].
    rewrite <- (ascii_nat_embedding c), <- (ascii_nat_embedding x).
    f_equal. lia. }
  rewrite !Hone. intuition congruence.
Qed.

(** C10. The name validator accepts exactly the strings of [NamePattern]: a
    first alphanumeric character followed by 1 to 250 characters that are
    alphanumeric, underscore or hyphen (2 to 251 characters in all); a name of
    a single character is always rejected, with the error for a name that
    does not match the pattern. *)
Theorem validateName_accepts_exactly :
  (forall name : string,
     validateName name = None <->
     exists c rest,
       name = String c rest /\
       alphanumeric c /\
       (1 <= String.length rest <= 250)%nat /\
       Forall name_char (GoString.bytes rest)) /\
  (forall c : ascii,
     validateName (String c "") = Some (New msg_name_pattern)).
Proof.
  assert (Hiff : forall name : string,
     validateName name = None <->
     exists c rest,
       name = String c rest /\ alphanumeric c /\
       (1 <= String.length rest <= 250)%nat /\
       Forall name_char (GoString.bytes rest)).
  { intros name. unfold validateName. destruct name as [|c rest].
    - simpl. split; [discriminate|]. intros (c & rest & H & _); discriminate.
    - change (String.eqb (String c rest) "") with false. cbv iota.
      rewrite MatchString_NameRegex.
      set (b := in_class alnum c && _).
      assert (Hb : b = true <->
                alphanumeric c /\ (1 <= String.length rest <= 250)%nat /\
                Forall name_char (GoString.bytes rest)).
      { unfold b. rewrite !andb_true_iff, !Nat.leb_le, in_class_alnum.
        rewrite List.forallb_forall, Forall_forall.
        setoid_rewrite in_class_word_or_hyphen.
        setoid_rewrite list_elem_of_In. tauto. }
      destruct b; simpl; unfold errors_Errorf.
      + split; [intros _|reflexivity]. exists c, rest.
        split; [reflexivity|]. now apply Hb.
      + split; [discriminate|].
        intros (c' & rest' & Heq & H). injection Heq as <- <-.
        apply Hb in H. discriminate. }
  split; [exact Hiff|].
  intros c. unfold validateName.
    change (String.eqb (String c "") "") with false. cbv iota.
    rewrite MatchString_NameRegex. simpl. now rewrite andb_false_r.
Qed.

(** ** The [mode] option *)

Section ModeOption.

Lemma octal_from_ge s : forall acc v,
  0 <= acc -> octal_from s acc = Some v -> acc <= v.
Proof.
  induction s as [|c s IH]; simpl; intros acc v Hacc H.
  - injection H as <-. lia.
  - destruct ((48 <=? Z.of_nat (nat_of_ascii c)) &&
              (Z.of_nat (nat_of_ascii c) <=? 55)) eqn:Hd; [|discriminate].
    apply andb_true_iff in Hd as [H1 H2].
    apply Z.leb_le in H1. apply Z.leb_le in H2.
    apply IH in H; lia.
Qed.

Lemma digit_octal c :
  let n := Z.of_nat (nat_of_ascii c) in
  match strconv.digit c with
  | Some d => if 8 <=? d then (48 <=? n) && (n <=? 55) = false
              else (48 <=? n) && (n <=? 55) = true /\ d = n - 48
  | None => (48 <=? n) && (n <=? 55) = false
  end.
Proof.
  unfold strconv.digit. cbv zeta.
  set (n := Z.of_nat (nat_of_ascii c)).
  destruct (48 <=? n) eqn:H1; destruct (n <=? 57) eqn:H2; simpl;
    repeat match goal with
    | H : (_ <=? _) = true |- _ => apply Z.leb_le in H
    | H : (_ <=? _) = false |- _ => apply Z.leb_gt in H
    end.
  - destruct (8 <=? n - 48) eqn:H3.
    + apply Z.leb_le in H3. apply Z.leb_gt. lia.
    + apply Z.leb_gt in H3. split; [apply Z.leb_le; lia|reflexivity].
  - destruct ((97 <=? n) && (n <=? 122)) eqn:H3.
    + apply andb_true_iff in H3 as [H3 H4].
      apply Z.leb_le in H3. apply Z.leb_le in H4.
      replace (8 <=? n - 97 + 10) with true by (symmetry; apply Z.leb_le; lia).
      apply Z.leb_gt. lia.
    + destruct ((65 <=? n) && (n <=? 90)) eqn:H4.
      * apply andb_true_iff in H4 as [H4 H5].
        apply Z.leb_le in H4. apply Z.leb_le in H5.
        replace (8 <=? n - 65 + 10) with true by (symmetry; apply Z.leb_le; lia).
        apply Z.leb_gt. lia.
      * apply Z.leb_gt. lia.
  - destruct ((97 <=? n) && (n <=? 122)) eqn:H3.
    + apply andb_true_iff in H3 as [H3 H4]. apply Z.leb_le in H3. lia.
    + destruct ((65 <=? n) && (n <=? 90)) eqn:H4; [|reflexivity].
      apply andb_true_iff in H4 as [H4 H5]. apply Z.leb_le in H4. lia.
  - destruct ((97 <=? n) && (n <=? 122)) eqn:H3.
    + apply andb_true_iff in H3 as [H3 H4]. apply Z.leb_le in H3. lia.
    + destruct ((65 <=? n) && (n <=? 90)) eqn:H4; [|reflexivity].
      apply andb_true_iff in H4 as [H4 H5]. apply Z.leb_le in H4. lia.
Qed.

(** The loop of [ParseUint] in base 8 with 32 bits reads the octal value,
    and fails exactly when there is none below [2^32]. *)
Lemma parse_loop_octal s : forall n v,
  0 <= n <= 2 ^ 32 - 1 ->
  strconv.parse_loop 8 (strconv.maxUint64 / 8 + 1) (2 ^ 32 - 1) s n = (v, None)
  <-> octal_from s n = Some v /\ v <= 2 ^ 32 - 1.
Proof.
  induction s as [|c s IH]; intros n v Hn; simpl.
  - split.
    + intros H. injection H as <-. split; [reflexivity|lia].
    + intros [H _]. injection H as <-. reflexivity.
  - pose proof (digit_octal c) as Hd. cbv zeta in Hd.
    destruct (strconv.digit c) as [d|].
    + destruct (8 <=? d) eqn:H8.
      * rewrite Hd. split; [discriminate|intros [? _]; discriminate].
      * destruct Hd as [Hd ->]. rewrite Hd.
        apply andb_true_iff in Hd as [H1 H2].
        apply Z.leb_le in H1. apply Z.leb_le in H2. apply Z.leb_gt in H8.
        set (k := Z.of_nat (nat_of_ascii c)) in *.
        replace (strconv.maxUint64 / 8 + 1 <=? n) with false.
        2:{ symmetry. apply Z.leb_gt. unfold strconv.maxUint64.
            change ((2 ^ 64 - 1) / 8 + 1) with 2305843009213693952. lia. }
        assert (E1 : uint64 (n * 8) = n * 8).
        { unfold uint64. apply Z.mod_small. lia. }
        rewrite E1.
        assert (E2 : uint64 (n * 8 + (k - 48)) = n * 8 + (k - 48)).
        { unfold uint64. apply Z.mod_small. lia. }
        rewrite E2.
        replace (n * 8 + (k - 48) <? n * 8) with false
          by (symmetry; apply Z.ltb_ge; lia).
        rewrite orb_false_l.
        replace (8 * n + (k - 48)) with (n * 8 + (k - 48)) by lia.
        destruct (2 ^ 32 - 1 <? n * 8 + (k - 48)) eqn:Hmax.
        -- apply Z.ltb_lt in Hmax. split; [discriminate|].
           intros [Hv Hle]. apply octal_from_ge in Hv; lia.
        -- apply Z.ltb_ge in Hmax. apply IH. lia.
    + rewrite Hd. split; [discriminate|intros [? _]; discriminate].
Qed.

Lemma ParseUint_octal s v :
  strconv.ParseUint s 8 32 = (v, None)
  <-> octal_value s = Some v /\ v <= 2 ^ 32 - 1.
Proof.
  unfold strconv.ParseUint, octal_value. destruct s as [|c s].
  - simpl. split; [discriminate|intros [? _]; discriminate].
  - cbn [String.length Nat.eqb]. apply parse_loop_octal. lia.
Qed.



End ModeOption.




(** ** The file tree *)

Ltac io := unfold mbind, IO_bind, mret, IO_ret in *.


Lemma filepath_Base_Join d b : filepath_Base (filepath_Join d b) = b.
Proof. unfold filepath_Base, filepath_Join. apply List.last_last. Qed.

Lemma filepath_Dir_Join d b : filepath_Dir (filepath_Join d b) = d.
Proof. unfold filepath_Dir, filepath_Join. apply List.removelast_last. Qed.

Lemma Join_not_root d b : filepath_Join d b <> [].
Proof. unfold filepath_Join. destruct d; discriminate. Qed.

Lemma path_append_Join d b s :
  path_append (filepath_Join d b) s = filepath_Join d (b +:+ s).
Proof.
  unfold path_append, filepath_Join. rewrite reverse_app. simpl.
  now rewrite reverse_involutive.
Qed.

Lemma lookup_node_Join d b w :
  lookup_node (filepath_Join d b) w = files w !! filepath_Join d b.
Proof. unfold filepath_Join. destruct d; reflexivity. Qed.

Lemma child_name_Some d k b : child_name d k = Some b <-> k = d ++ [b].
Proof.
  unfold child_name. case_bool_decide as H.
  - split.
    + intros E. injection E as <-. exact H.
    + intros ->. f_equal. apply (filepath_Base_Join d b).
  - split; [discriminate|]. intros ->. exfalso. apply H.
    f_equal. f_equal. symmetry. apply (filepath_Base_Join d b).
Qed.

(** The entries of a directory are the paths one component below it. *)
Lemma elem_of_children d w b n :
  (b, n) ∈ children d w <-> files w !! (d ++ [b]) = Some n.
Proof.
  unfold children. rewrite list_elem_of_omap. split.
  - intros [[k n'] [Hin Hf]]. simpl in Hf.
    destruct (child_name d k) as [b'|] eqn:Hc; [|discriminate].
    injection Hf as <- <-. apply child_name_Some in Hc as ->.
    now apply elem_of_map_to_list in Hin.
  - intros H. exists (d ++ [b], n). split.
    + now apply elem_of_map_to_list.
    + simpl. now rewrite (proj2 (child_name_Some d (d ++ [b]) b) eq_refl).
Qed.

Lemma resolve_Join d b w :
  resolve (filepath_Join d b) w =
  match lookup_node d w with
  | Some Directory =>
      match files w !! filepath_Join d b with
      | Some n => Found n
      | None => Absent
      end
  | Some _ => NoParent ENOTDIR
  | None => NoParent ENOENT
  end.
Proof.
  unfold resolve. rewrite filepath_Dir_Join.
  unfold filepath_Join. destruct (d ++ [b]) eqn:E; [|reflexivity].
  destruct d; discriminate.
Qed.

Lemma resolve_Found p w n : resolve p w = Found n -> lookup_node p w = Some n.
Proof.
  unfold resolve, lookup_node. destruct p as [|c p]; [now intros [= <-]|].
  destruct (match filepath_Dir (c :: p) with [] => _ | _ => _ end) as [[]|];
    try discriminate.
  destruct (files w !! (c :: p)); [now intros [= <-]|discriminate].
Qed.

Lemma elem_of_Glob pattern w p :
  p ∈ fst (fst (os.Glob pattern w)) <->
  resolve (filepath_Dir pattern) w = Found Directory /\
  exists b n, p = filepath_Join (filepath_Dir pattern) b /\
              files w !! p = Some n /\
              filepath_Match (filepath_Base pattern) b = true.
Proof.
  unfold os.Glob, os.ReadDir. io.
  destruct (resolve (filepath_Dir pattern) w) as [[]| |e] eqn:Hd; cbn [fst];
    try (split; [intros H; now apply elem_of_nil in H|intros [? _]; discriminate]).
  rewrite list_elem_of_omap. split.
  - intros [[b n] [Hin Hf]]. cbn [fst] in Hf.
    destruct (filepath_Match (filepath_Base pattern) b) eqn:Hm; [|discriminate].
    injection Hf as <-. split; [reflexivity|].
    exists b, n. apply elem_of_children in Hin. auto.
  - intros (_ & b & n & -> & Hl & Hm). exists (b, n). split.
    + now apply elem_of_children.
    + cbn [fst]. now rewrite Hm.
Qed.

Lemma Glob_world pattern w : snd (os.Glob pattern w) = w.
Proof.
  unfold os.Glob, os.ReadDir. io.
  destruct (resolve (filepath_Dir pattern) w) as [[]| |]; reflexivity.
Qed.

Lemma Glob_error pattern w : snd (fst (os.Glob pattern w)) = None.
Proof.
  unfold os.Glob, os.ReadDir. io.
  destruct (resolve (filepath_Dir pattern) w) as [[]| |]; reflexivity.
Qed.

(** ** Metadata resolution *)

Lemma getVolume_cases m name w :
  getVolume m name w =
  (match fst (fst (os.Glob (path_append (filepath_Join (dataDir m) name) ".*") w)) with
   | [] => (noVolume, Some (New msg_not_exist))
   | [p] => resolved m name p w
   | _ :: _ :: _ => (noVolume, Some (New msg_ambiguous))
   end, w).
Proof.
  unfold getVolume. io.
  set (pat := path_append (filepath_Join (dataDir m) name) ".*").
  pose proof (elem_of_Glob pat w) as HG.
  pose proof (Glob_world pat w) as HW. pose proof (Glob_error pat w) as HE.
  destruct (os.Glob pat w) as [[ms err] w']. cbn [fst snd] in *. subst w' err.
  cbn [not_nil is_nil negb].
  destruct ms as [|p [|q ms]]; cbn [length Nat.ltb Nat.leb Nat.eqb hd]; try reflexivity.
  destruct (HG p) as [(Hdir & b & n & Hp & Hl & _) _]; [left|].
  assert (Hnode : resolve p w = Found n).
  { rewrite Hp, resolve_Join, (resolve_Found _ _ _ Hdir), <- Hp. now rewrite Hl. }
  unfold os.Stat, resolved. rewrite Hnode, Hl.
  cbn [not_nil is_nil negb]. destruct n; reflexivity.
Qed.

Lemma getVolume_world m name w : snd (getVolume m name w) = w.
Proof. now rewrite getVolume_cases. Qed.

(** *** The pattern of a validated name *)

Lemma append_String c s t : String c s +:+ t = String c (s +:+ t).
Proof. reflexivity. Qed.

Lemma append_assoc s t u : (s +:+ t) +:+ u = s +:+ (t +:+ u).
Proof.
  induction s as [|c s IH]; [reflexivity|]. now rewrite !append_String, IH.
Qed.

Lemma filepath_Match_star s : filepath_Match "*" s = true.
Proof.
  induction s as [|c s IH]; [reflexivity|].
  cbn in *. exact IH.
Qed.

(** A literal prefix followed by [*] matches the names with that prefix. *)
Lemma filepath_Match_literal_star lit : forall s,
  literal lit = true ->
  filepath_Match (lit +:+ "*") s = GoString.HasPrefix s lit.
Proof.
  induction lit as [|c lit IH]; intros s Hlit.
  - destruct s; apply filepath_Match_star.
  - cbn [literal] in Hlit. apply andb_true_iff in Hlit as [Hc Hlit].
    apply andb_true_iff in Hc as [Hc1 Hc2].
    apply negb_true_iff in Hc1, Hc2.
    rewrite append_String. cbn [filepath_Match]. rewrite Hc1, Hc2.
    destruct s as [|c' s]; [reflexivity|].
    cbn [GoString.HasPrefix]. now rewrite IH.
Qed.

Lemma HasPrefix_append s pre :
  GoString.HasPrefix s pre = true <-> exists rest, s = pre +:+ rest.
Proof.
  revert s. induction pre as [|p pre IH]; intros s.
  - cbn. split; [intros _; now exists s|destruct s; reflexivity].
  - setoid_rewrite append_String.
    destruct s as [|c s]; cbn [GoString.HasPrefix].
    + split; [discriminate|intros [rest H]; discriminate].
    + rewrite andb_true_iff, IH. split.
      * intros [Hc [rest ->]]. apply Ascii.eqb_eq in Hc as ->. now exists rest.
      * intros [rest [= -> ->]]. split; [apply Ascii.eqb_refl|now exists rest].
Qed.

Lemma literal_append s t : literal (s +:+ t) = literal s && literal t.
Proof.
  induction s as [|c s IH]; [reflexivity|].
  rewrite append_String. cbn [literal]. rewrite IH. now rewrite andb_assoc.
Qed.

Lemma in_class_word_or_hyphen_literal c :
  in_class word_or_hyphen c = true ->
  negb (Ascii.eqb c "*") && negb (Ascii.eqb c "?") = true.
Proof.
  intros H. apply andb_true_iff.
  split; apply negb_true_iff, Ascii.eqb_neq; intros ->; discriminate H.
Qed.

Lemma forallb_word_literal s :
  forallb (in_class word_or_hyphen) (GoString.bytes s) = true ->
  literal s = true.
Proof.
  induction s as [|c s IH]; [reflexivity|].
  cbn [GoString.bytes forallb literal]. intros H.
  apply andb_true_iff in H as [Hc Hs].
  now rewrite (in_class_word_or_hyphen_literal c Hc), IH.
Qed.

(** A name the validator accepts has no character that is special in a
    pattern. *)
Lemma validateName_literal name : validateName name = None -> literal name = true.
Proof.
  unfold validateName. destruct name as [|c rest]; [discriminate|].
  change (String.eqb (String c rest) "") with false. cbv iota.
  rewrite MatchString_NameRegex.
  destruct (in_class alnum c) eqn:Hc; [|discriminate]. cbn [andb].
  destruct (forallb (in_class word_or_hyphen) (GoString.bytes rest)) eqn:Hr.
  2:{ rewrite andb_false_r. discriminate. }
  intros _. cbn [literal]. rewrite (forallb_word_literal rest Hr), andb_true_r.
  apply in_class_word_or_hyphen_literal.
  unfold in_class, alnum, word_or_hyphen in *. cbn [existsb] in *.
  rewrite !orb_true_iff in *. tauto.
Qed.

(** For a validated name the matches of [dataDir/name.*] are the entries of
    the data directory called [name.] followed by anything. *)
Lemma Glob_of_validated_name m name w p :
  validateName name = None ->
  p ∈ fst (fst (os.Glob (path_append (filepath_Join (dataDir m) name) ".*") w))
  <->
  resolve (dataDir m) w = Found Directory /\
  exists ext n, p = filepath_Join (dataDir m) (name +:+ "." +:+ ext) /\
                files w !! p = Some n.
Proof.
  intros Hn. rewrite elem_of_Glob, path_append_Join.
  rewrite filepath_Dir_Join, filepath_Base_Join.
  assert (Hm : forall b, filepath_Match (name +:+ ".*") b = true <->
                         exists ext, b = name +:+ "." +:+ ext).
  { intros b.
    replace (name +:+ ".*") with ((name +:+ ".") +:+ "*")
      by (now rewrite append_assoc).
    rewrite filepath_Match_literal_star.
    2:{ rewrite literal_append, (validateName_literal name Hn). reflexivity. }
    rewrite HasPrefix_append.
    split; intros [ext ->]; exists ext; now rewrite append_assoc. }
  split.
  - intros (Hd & b & n & -> & Hl & Hb). split; [assumption|].
    apply Hm in Hb as [ext ->]. eauto.
  - intros (Hd & ext & n & -> & Hl). split; [assumption|].
    exists (name +:+ "." +:+ ext), n. repeat split; [assumption|].
    apply Hm. eauto.
Qed.


(** ** Leases *)

(** [IsMounted] by what the state directory is: it tells whether a lease is
    recorded, and fails only when the state directory cannot be read for
    another reason than its absence. *)
Lemma IsMounted_cases vol w :
  IsMounted vol w =
  (match resolve (StateDir vol) w with
   | Found Directory => (negb (bool_decide (listLeases vol w = [])), None)
   | Found _ => (false, Some (PathError ENOTDIR))
   | Absent | NoParent ENOENT => (false, None)
   | NoParent e => (false, Some (PathError e))
   end, w).
Proof.
  unfold IsMounted, listLeases, os.ReadDir. io.
  destruct (resolve (StateDir vol) w) as [[]| |[]]; cbn; try reflexivity.
  destruct (children (StateDir vol) w); reflexivity.
Qed.

Lemma elem_of_listLeases vol w lease :
  lease ∈ listLeases vol w <->
  resolve (StateDir vol) w = Found Directory /\
  is_Some (files w !! filepath_Join (StateDir vol) lease).
Proof.
  unfold listLeases, os.ReadDir.
  destruct (resolve (StateDir vol) w) as [[]| |e] eqn:Hd; cbn [fst];
    try (split; [intros H; now apply elem_of_nil in H|intros [? _]; discriminate]).
  rewrite list_elem_of_fmap. split.
  - intros [[b n] [-> Hin]]. apply elem_of_children in Hin.
    split; [reflexivity|]. now exists n.
  - intros [_ [n Hn]]. exists (lease, n). split; [reflexivity|].
    now apply elem_of_children.
Qed.


(** ** Delete *)

(** With a lease recorded, [Delete] takes the branch for a volume in use,
    where [err] is [nil]: wrapping it gives [nil], so the call reports
    success, and nothing is removed. *)
Lemma Delete_in_use m name w vol :
  validateName name = None ->
  getVolume m name w = ((vol, None), w) ->
  IsMounted vol w = ((true, None), w) ->
  Delete m name w = (None, w).
Proof.
  intros Hn Hv Hm. unfold Delete, Get. io. rewrite Hn.
  cbn [not_nil is_nil negb]. rewrite Hv. cbn [not_nil is_nil negb].
  rewrite Hm. reflexivity.
Qed.

(** Without a lease [Delete] removes the data file. *)
Lemma Delete_not_in_use m name w vol :
  validateName name = None ->
  getVolume m name w = ((vol, None), w) ->
  IsMounted vol w = ((false, None), w) ->
  Delete m name w =
  (errors_Wrapf (fst (os.Remove (DataFilePath vol) w)) msg_delete_remove,
   snd (os.Remove (DataFilePath vol) w)).
Proof.
  intros Hn Hv Hm. unfold Delete, Get. io. rewrite Hn.
  cbn [not_nil is_nil negb]. rewrite Hv. cbn [not_nil is_nil negb].
  rewrite Hm. cbn [not_nil is_nil negb].
  destruct (os.Remove (DataFilePath vol) w) as [[e|] w']; reflexivity.
Qed.

(** C1, on the code. Volume [db] exists and consumer [c1] holds a lease on
    it; [Delete] returns [nil], no error for a volume in use, and the world is
    as before, the data file still there. *)
Theorem Delete_of_volume_in_use_returns_nil :
  let vol := fst (fst (getVolume plugin "db" db_held_by_c1)) in
  listLeases vol db_held_by_c1 = ["c1"] /\
  Delete plugin "db" db_held_by_c1 = (None, db_held_by_c1) /\
  files db_held_by_c1 !! DataFilePath vol = Some (Regular 50000000 97657).
Proof. vm_compute. repeat split; reflexivity. Qed.

(** ** UnMount without the lease *)




(** ** Create *)

Section CreateFacts.

Variable host : Host.

Lemma exec_Command_Exit0 c w :
  run host c w = Exit0 ->
  exec_Command host c w = (("", None), effect c (log c w)).
Proof. intros H. unfold exec_Command. now rewrite H. Qed.

Lemma exec_Command_Failed c w output partial :
  run host c w = Failed output partial ->
  exec_Command host c w =
    ((output, Some ExitError), partial_effect c partial (log c w)).
Proof. intros H. unfold exec_Command. now rewrite H. Qed.

Lemma MkFsOptions_None fs :
  MkFsOptions !! fs = None <-> fs <> "ext4" /\ fs <> "xfs".
Proof.
  unfold MkFsOptions. rewrite !lookup_insert_None, lookup_empty.
  intuition congruence.
Qed.

Lemma MkdirAll_trace p w : trace (snd (os.MkdirAll p w)) = trace w.
Proof. unfold os.MkdirAll. destruct (os.mkdir_all [] p (files w)); reflexivity. Qed.

Lemma write_file_trace p n w : trace (write_file p n w) = trace w.
Proof. unfold write_file. destruct (files w !! p) as [[]|]; reflexivity. Qed.

Lemma partial_effect_trace c partial w :
  trace (partial_effect c partial w) = trace w.
Proof.
  destruct c, partial; cbn [partial_effect]; try reflexivity;
    apply write_file_trace.
Qed.

Lemma Remove_trace p w : trace (snd (os.Remove p w)) = trace w.
Proof.
  unfold os.Remove. destruct p; [reflexivity|].
  destruct (resolve _ w) as [[]| |]; try reflexivity.
  destruct (children _ w); reflexivity.
Qed.

(** After [os.Remove] of a path whose parent is a directory, no file is left
    at the path; a directory stays when it is not empty. *)
Lemma Remove_no_file p w :
  p <> [] -> lookup_node (filepath_Dir p) w = Some Directory ->
  files (snd (os.Remove p w)) !! p = None \/
  files (snd (os.Remove p w)) !! p = Some Directory.
Proof.
  intros Hp Hd. unfold os.Remove, resolve. destruct p as [|c p]; [congruence|].
  rewrite Hd.
  destruct (files w !! (c :: p)) as [[]|] eqn:E; cbn [snd set_files files].
  - left. apply lookup_delete_eq.
  - destruct (children (c :: p) w); cbn [snd set_files files].
    + left. apply lookup_delete_eq.
    + now right.
  - left. apply lookup_delete_eq.
  - now left.
Qed.

Lemma mkdir_all_keeps rest : forall done fs fs' q,
  os.mkdir_all done rest fs = (None, fs') ->
  fs !! q = Some Directory -> fs' !! q = Some Directory.
Proof.
  induction rest as [|c rest IH]; intros done fs fs' q H Hq; cbn in H.
  - now injection H as <-.
  - destruct (fs !! (done ++ [c])) as [[]|] eqn:E; try discriminate.
    + eapply IH; eauto.
    + eapply IH; [exact H|].
      rewrite lookup_insert_ne; [assumption|congruence].
Qed.

Lemma mkdir_all_makes rest : forall done fs fs',
  rest <> [] ->
  os.mkdir_all done rest fs = (None, fs') ->
  fs' !! (done ++ rest) = Some Directory.
Proof.
  induction rest as [|c rest IH]; intros done fs fs' Hne H; [congruence|].
  cbn in H. replace (done ++ c :: rest) with ((done ++ [c]) ++ rest)
    by (now rewrite <- app_assoc).
  destruct (fs !! (done ++ [c])) as [[]|] eqn:E; try discriminate.
  - destruct rest as [|c' rest].
    + cbn in H. injection H as <-. now rewrite app_nil_r.
    + apply (IH _ _ _ ltac:(discriminate) H).
  - destruct rest as [|c' rest].
    + cbn in H. injection H as <-. rewrite app_nil_r. apply lookup_insert_eq.
    + apply (IH _ _ _ ltac:(discriminate) H).
Qed.

(** A successful [os.MkdirAll] leaves a directory at the path. *)
Lemma MkdirAll_makes p w :
  fst (os.MkdirAll p w) = None ->
  lookup_node p (snd (os.MkdirAll p w)) = Some Directory.
Proof.
  unfold os.MkdirAll. destruct (os.mkdir_all [] p (files w)) as [err fs] eqn:E.
  cbn [fst snd]. intros ->. destruct p as [|c p]; [reflexivity|].
  cbn [lookup_node set_files files].
  apply (mkdir_all_makes (c :: p) [] _ _ ltac:(discriminate) E).
Qed.

Lemma write_file_keeps_directory q n w d :
  lookup_node d w = Some Directory ->
  lookup_node d (write_file q n w) = Some Directory.
Proof.
  intros H. destruct d as [|c d]; [reflexivity|]. cbn [lookup_node] in *.
  unfold write_file. destruct (files w !! q) as [[]|] eqn:E; try assumption;
    cbn [set_files files];
    (destruct (decide (q = c :: d)) as [->|Hne];
     [congruence|now rewrite lookup_insert_ne]).
Qed.

Lemma partial_effect_keeps_directory c partial w d :
  lookup_node d w = Some Directory ->
  lookup_node d (partial_effect c partial w) = Some Directory.
Proof.
  intros H. destruct c, partial; cbn [partial_effect]; try assumption;
    now apply write_file_keeps_directory.
Qed.

Lemma lookup_node_log c w d : lookup_node d (log c w) = lookup_node d w.
Proof. destruct d; reflexivity. Qed.

End CreateFacts.

(** C6, as the code has it. A size below 10,000,000 or a file system other
    than ext4 and xfs makes [Create] fail with the world untouched: no
    directory made, no file created, no utility run.  The name is checked
    first, so an invalid name fails with the error for the name; for a valid
    name the error is the one for the size when the size is too small, and
    the one for the file system otherwise. *)
Theorem Create_rejects_size_and_filesystem_without_side_effect
  (host : Host) (m : Manager) (name : string) (sizeInBytes : Z) (sparse : bool)
  (fs : string) (uid gid mode : Z) (w : World) :
  sizeInBytes < 10000000 \/ (fs <> "ext4" /\ fs <> "xfs") ->
  let result := Create host m name sizeInBytes sparse fs uid gid mode w in
  snd result = w /\
  (validateName name = None ->
   fst result = Some (New (if sizeInBytes <? 10000000 then msg_size_too_small
                           else msg_unsupported_fs))) /\
  (forall e, validateName name = Some e ->
   fst result = Some (Wrap e msg_create_name)).
Proof.
  intros H. cbv zeta. unfold Create. io.
  destruct (validateName name) as [e|] eqn:Hn; cbn [not_nil is_nil negb errors_Wrapf].
  - cbn. split; [reflexivity|]. split; [discriminate|].
    intros e' He. now injection He as <-.
  - destruct (sizeInBytes <? 10000000) eqn:Hs.
    + cbn. split; [reflexivity|]. split; [reflexivity|discriminate].
    + destruct H as [H|H]; [apply Z.ltb_ge in Hs; lia|].
      apply MkFsOptions_None in H. rewrite H.
      cbn. split; [reflexivity|]. split; [reflexivity|discriminate].
Qed.

Lemma Create_rejects_size_and_filesystem_without_side_effect_witness :
  Create obliging plugin "db" 9999999 false "ext4" (-1) (-1) 0 fresh =
    (Some (New msg_size_too_small), fresh) /\
  Create obliging plugin "db" 50000000 false "btrfs" (-1) (-1) 0 fresh =
    (Some (New msg_unsupported_fs), fresh).
Proof.
  split.
  - destruct (Create_rejects_size_and_filesystem_without_side_effect
                obliging plugin "db" 9999999 false "ext4" (-1) (-1) 0 fresh)
      as (Hw & He & _); [left; lia|].
    specialize (He eq_refl). apply injective_projections; [exact He|exact Hw].
  - destruct (Create_rejects_size_and_filesystem_without_side_effect
                obliging plugin "db" 50000000 false "btrfs" (-1) (-1) 0 fresh)
      as (Hw & He & _); [right; split; discriminate|].
    specialize (He eq_refl). apply injective_projections; [exact He|exact Hw].
Defined.

(** C6, as the spec states it, fails where two checks overlap: a size below
    the minimum with a name of one character fails with the error for the
    name, and an unsupported file system with a size below the minimum fails
    with the error for the size. *)
Lemma Create_error_follows_the_first_failed_check :
  (9 < 10000000 /\
   fst (Create obliging plugin "a" 9 false "ext4" (-1) (-1) 0 fresh) =
     Some (Wrap (New msg_name_pattern) msg_create_name) /\
   fst (Create obliging plugin "a" 9 false "ext4" (-1) (-1) 0 fresh) <>
     Some (New msg_size_too_small)) /\
  ("btrfs" <> "ext4" /\ "btrfs" <> "xfs" /\
   fst (Create obliging plugin "db" 9 false "btrfs" (-1) (-1) 0 fresh) =
     Some (New msg_size_too_small) /\
   fst (Create obliging plugin "db" 9 false "btrfs" (-1) (-1) 0 fresh) <>
     Some (New msg_unsupported_fs)).
Proof. repeat split; try lia; try discriminate; reflexivity. Qed.

Section Allocation.

Variable host : Host.

(** [Create] up to the allocation: a valid name, a size of at least the
    minimum, a supported file system and a data directory that can be made
    lead to the allocation of the data file. *)
Lemma Create_allocates m name sizeInBytes sparse fs uid gid mode w mkfsFlags :
  validateName name = None ->
  10000000 <= sizeInBytes ->
  MkFsOptions !! fs = Some mkfsFlags ->
  fst (os.MkdirAll (dataDir m) w) = None ->
  let dataFilePath := filepath_Join (dataDir m) (name +:+ "." +:+ fs) in
  Create host m name sizeInBytes sparse fs uid gid mode w =
  (err ← Create_allocate host sizeInBytes sparse dataFilePath;
   if not_nil err then mret err else
   '(errBytes, err) ← exec_Command host (mkfs fs mkfsFlags dataFilePath);
   if not_nil err then
     _ ← os.Remove dataFilePath;
     mret (errors_Wrapf err msg_create_format) else
   Create_adjust host m name dataFilePath uid gid mode)
    (snd (os.MkdirAll (dataDir m) w)).
Proof.
  intros Hn Hs Hfs Hmk. cbv zeta. unfold Create. io. rewrite Hn.
  cbn [not_nil is_nil negb].
  replace (sizeInBytes <? 10000000) with false
    by (symmetry; apply Z.ltb_ge; lia).
  rewrite Hfs. destruct (os.MkdirAll (dataDir m) w) as [err w1].
  cbn [fst snd] in *. subst err. reflexivity.
Qed.

(** Not enough space: [fallocate] is the only utility run, the data file is
    removed, and the allocation ends with the error for the lack of space. *)
Lemma Create_allocate_no_space sizeInBytes dataFilePath w output partial :
  run host (fallocate sizeInBytes dataFilePath) w = Failed output partial ->
  GoString.Contains (GoString.TrimSpace output) "No space" = true ->
  Create_allocate host sizeInBytes false dataFilePath w =
  (Some (Wrap ExitError msg_no_space),
   snd (os.Remove dataFilePath
          (partial_effect (fallocate sizeInBytes dataFilePath) partial
             (log (fallocate sizeInBytes dataFilePath) w)))).
Proof.
  intros Hrun Hout. unfold Create_allocate. io.
  rewrite (exec_Command_Failed host _ _ _ _ Hrun).
  cbn [not_nil is_nil negb]. rewrite Hout.
  destruct (os.Remove _ _). reflexivity.
Qed.


End Allocation.

(** C7. Without the sparse flag, when [fallocate] fails and its output says
    "No space", [Create] fails with the error for the lack of disk space;
    [fallocate] is the only utility it has run, so the zero-fill fallback was
    not tried, and no file is left at the path of the data file. *)
Theorem Create_fails_at_once_when_the_disk_is_full
  (host : Host) (m : Manager) (name : string) (sizeInBytes : Z) (fs : string)
  (uid gid mode : Z) (w : World) (mkfsFlags : list string)
  (output : string) (partial : option Z) :
  let dataFilePath := filepath_Join (dataDir m) (name +:+ "." +:+ fs) in
  validateName name = None ->
  10000000 <= sizeInBytes ->
  MkFsOptions !! fs = Some mkfsFlags ->
  fst (os.MkdirAll (dataDir m) w) = None ->
  run host (fallocate sizeInBytes dataFilePath) (snd (os.MkdirAll (dataDir m) w))
    = Failed output partial ->
  GoString.Contains (GoString.TrimSpace output) "No space" = true ->
  let result := Create host m name sizeInBytes false fs uid gid mode w in
  fst result = Some (Wrap ExitError msg_no_space) /\
  trace (snd result) = trace w ++ [fallocate sizeInBytes dataFilePath] /\
  (files (snd result) !! dataFilePath = None \/
   files (snd result) !! dataFilePath = Some Directory).
Proof.
  cbv zeta. intros Hn Hs Hfs Hmk Hrun Hout.
  rewrite (Create_allocates host m name sizeInBytes false fs uid gid mode w
             mkfsFlags Hn Hs Hfs Hmk).
  io. rewrite (Create_allocate_no_space host _ _ _ _ _ Hrun Hout).
  cbn [not_nil is_nil negb fst snd]. split; [reflexivity|]. split.
  - rewrite Remove_trace, partial_effect_trace. cbn [log trace].
    now rewrite MkdirAll_trace.
  - apply Remove_no_file; [apply Join_not_root|].
    rewrite filepath_Dir_Join.
    apply partial_effect_keeps_directory. rewrite lookup_node_log.
    now apply MkdirAll_makes.
Qed.

Lemma Create_fails_at_once_when_the_disk_is_full_witness :
  let result := Create disk_full plugin "db" 50000000 false "ext4" (-1) (-1) 0 fresh in
  fst result = Some (Wrap ExitError msg_no_space) /\
  trace (snd result) =
    [fallocate 50000000 (filepath_Join (dataDir plugin) "db.ext4")] /\
  (files (snd result) !! filepath_Join (dataDir plugin) "db.ext4" = None \/
   files (snd result) !! filepath_Join (dataDir plugin) "db.ext4" = Some Directory).
Proof.
  exact (Create_fails_at_once_when_the_disk_is_full
           disk_full plugin "db" 50000000 "ext4" (-1) (-1) 0 fresh ["-F"]
           "fallocate: fallocate failed: No space left on device" (Some 0)
           eq_refl ltac:(lia) eq_refl eq_refl eq_refl eq_refl).
Defined.

Lemma write_file_lookup p n w :
  files w !! p <> Some Directory -> files (write_file p n w) !! p = Some n.
Proof.
  intros H. unfold write_file. destruct (files w !! p) as [[]|]; try congruence;
    cbn [set_files files]; apply lookup_insert_eq.
Qed.




(** ** Mount and UnMount *)

Section FileOperations.

Lemma Mkdir_outcome p w :
  (os.Mkdir p w = (None, set_files (insert p Directory) w) /\
   resolve p w = Absent) \/
  (exists e, os.Mkdir p w = (Some (PathError e), w)).
Proof. unfold os.Mkdir. destruct (resolve p w) as [|  |e]; eauto. Qed.

Lemma Remove_outcome p w :
  (os.Remove p w = (None, set_files (delete p) w) /\
   exists n, resolve p w = Found n) \/
  (exists e, os.Remove p w = (Some (PathError e), w)).
Proof.
  unfold os.Remove. destruct p as [|c p]; [eauto|].
  destruct (resolve (c :: p) w) as [[]| |e]; eauto.
  destruct (children (c :: p) w); eauto.
Qed.

Lemma resolve_Absent p w : resolve p w = Absent -> files w !! p = None.
Proof.
  unfold resolve. destruct p as [|c p]; [discriminate|].
  destruct (lookup_node _ w) as [[]|]; try discriminate.
  destruct (files w !! (c :: p)); [discriminate|reflexivity].
Qed.

Lemma resolve_parent p w n :
  p <> [] -> resolve p w = Found n \/ resolve p w = Absent ->
  lookup_node (filepath_Dir p) w = Some Directory.
Proof.
  unfold resolve. destruct p as [|c p]; [congruence|]. intros _.
  destruct (lookup_node _ w) as [[]|]; intros [H|H]; congruence.
Qed.

(** Writing where no directory is leaves every directory a directory. *)
Lemma insert_keeps_directory q n w d :
  files w !! q <> Some Directory ->
  lookup_node d w = Some Directory ->
  lookup_node d (set_files (insert q n) w) = Some Directory.
Proof.
  intros Hq H. destruct d as [|c d]; [reflexivity|].
  cbn [lookup_node set_files files] in *.
  destruct (decide (q = c :: d)) as [->|Hne]; [congruence|].
  now rewrite lookup_insert_ne.
Qed.

Lemma insert_keeps_resolve q n w d :
  files w !! q <> Some Directory ->
  resolve d w = Found Directory ->
  resolve d (set_files (insert q n) w) = Found Directory.
Proof.
  intros Hq H. destruct d as [|c d]; [reflexivity|].
  pose proof (resolve_Found _ _ _ H) as Hd.
  pose proof (resolve_parent (c :: d) w Directory ltac:(discriminate) (or_introl H)) as Hp.
  unfold resolve.
  rewrite (insert_keeps_directory q n w _ Hq Hp).
  pose proof (insert_keeps_directory q n w _ Hq Hd) as Hd'.
  cbn [lookup_node] in Hd'. now rewrite Hd'.
Qed.

Lemma mkdir_all_prefixes rest : forall done fs fs' pre,
  os.mkdir_all done rest fs = (None, fs') ->
  pre `prefix_of` rest -> pre <> [] ->
  fs' !! (done ++ pre) = Some Directory.
Proof.
  induction rest as [|c rest IH]; intros done fs fs' pre H [k Hk] Hne.
  - destruct pre; [congruence|discriminate].
  - destruct pre as [|c' pre]; [congruence|]. injection Hk as <- ->.
    cbn in H.
    replace (done ++ c :: pre) with ((done ++ [c]) ++ pre)
      by (now rewrite <- app_assoc).
    destruct pre as [|c'' pre].
    + rewrite app_nil_r.
      destruct (fs !! (done ++ [c])) as [[]|] eqn:E; try discriminate.
      * eapply mkdir_all_keeps; eauto.
      * eapply mkdir_all_keeps; [exact H|]. apply lookup_insert_eq.
    + destruct (fs !! (done ++ [c])) as [[]|] eqn:E; try discriminate;
        (eapply IH; [exact H|now exists k|discriminate]).
Qed.

(** A successful [os.MkdirAll] leaves the path resolving to a directory. *)
Lemma MkdirAll_resolves p w :
  fst (os.MkdirAll p w) = None ->
  resolve p (snd (os.MkdirAll p w)) = Found Directory.
Proof.
  intros H. pose proof (MkdirAll_makes p w H) as Hp.
  unfold os.MkdirAll in *.
  destruct (os.mkdir_all [] p (files w)) as [err fs] eqn:E.
  cbn [fst snd] in *. subst err. destruct p as [|c p] using rev_ind; [reflexivity|].
  clear IHp. change (resolve (filepath_Join p c) (set_files (fun _ => fs) w)
                     = Found Directory).
  rewrite resolve_Join.
  assert (Hd : lookup_node p (set_files (fun _ => fs) w) = Some Directory).
  { destruct p as [|c' p]; [reflexivity|]. cbn [lookup_node set_files files].
    apply (mkdir_all_prefixes _ [] _ _ (c' :: p) E); [|discriminate].
    now exists [c]. }
  rewrite Hd. rewrite <- lookup_node_Join. unfold filepath_Join. now rewrite Hp.
Qed.

Lemma MkdirAll_tools p w :
  trace (snd (os.MkdirAll p w)) = trace w /\
  mounts (snd (os.MkdirAll p w)) = mounts w.
Proof. unfold os.MkdirAll. destruct (os.mkdir_all [] p (files w)); auto. Qed.

End FileOperations.

Section MountFacts.

Variable host : Host.

Lemma getVolume_fields m name w vol :
  getVolume m name w = ((vol, None), w) ->
  Name vol = name /\
  StateDir vol = filepath_Join (stateDir m) name /\
  MountPointPath vol = filepath_Join (mountDir m) name /\
  resolve (dataDir m) w = Found Directory /\
  exists b size blocks,
    DataFilePath vol = filepath_Join (dataDir m) b /\
    files w !! DataFilePath vol = Some (Regular size blocks).
Proof.
  rewrite getVolume_cases.
  set (pat := path_append (filepath_Join (dataDir m) name) ".*").
  pose proof (elem_of_Glob pat w) as HG.
  destruct (fst (fst (os.Glob pat w))) as [|p [|q ms]]; try discriminate.
  destruct (HG p) as [(Hdir & b & n & Hp & Hl & _) _]; [left|].
  unfold pat in Hdir, Hp. rewrite path_append_Join, filepath_Dir_Join in Hdir, Hp.
  unfold resolved. rewrite Hl. destruct n as [size blocks| |]; try discriminate.
  intros [= <-]. cbn. repeat split; try assumption.
  exists b, size, blocks. now rewrite <- Hp.
Qed.

Lemma Mount_unfold m name lease w vol :
  validateName name = None ->
  getVolume m name w = ((vol, None), w) ->
  Mount host m name lease w =
  ('(isAlreadyMounted, err) ← IsMounted vol;
   if not_nil err then mret ([], errors_Wrapf err msg_mount_status) else
   '(_, err) ← os.Stat (StateDir vol);
   err ← (if not_nil err && os_IsNotExist err
          then os.MkdirAll (StateDir vol) else mret None);
   if not_nil err then mret ([], errors_Wrapf err msg_mount_statedir) else
   Mount_lease host vol lease isAlreadyMounted) w.
Proof.
  intros Hn Hv. unfold Mount, Mount_lease. io. rewrite Hn.
  cbn [not_nil is_nil negb]. rewrite Hv. reflexivity.
Qed.



End MountFacts.

Section LeaseTransitions.

Variable host : Host.

Lemma resolve_files p w w' : files w' = files w -> resolve p w' = resolve p w.
Proof.
  intros H. unfold resolve, lookup_node. destruct p as [|c p]; [reflexivity|].
  now rewrite H.
Qed.





Lemma filter_prefix_gone (p : path) (fs : gmap path node) :
  filter (fun kn => ¬ p `prefix_of` fst kn) fs !! p = None.
Proof.
  apply map_lookup_filter_None. right. intros n _ Hn. now apply Hn.
Qed.

Lemma filter_keeps_gone (P : path * node -> Prop) `{!forall x, Decision (P x)}
  (fs : gmap path node) q :
  fs !! q = None -> filter P fs !! q = None.
Proof. intros Hq. apply map_lookup_filter_None. now left. Qed.

End LeaseTransitions.

(** *** What reads of a directory depend on *)

Section Frames.

Lemma NoDup_omap_inj {A B} (f : A -> option B) (l : list A) :
  (forall x y z, f x = Some z -> f y = Some z -> x = y) ->
  NoDup l -> NoDup (omap f l).
Proof.
  intros Hinj. induction 1 as [|x l Hx Hl IH]; cbn; [constructor|].
  destruct (f x) as [z|] eqn:Hz; [|assumption].
  constructor; [|assumption].
  intros Hin. apply list_elem_of_omap in Hin as (y & Hy & Hfy).
  rewrite (Hinj x y z Hz Hfy) in Hx. contradiction.
Qed.

Lemma NoDup_children d w : NoDup (children d w).
Proof.
  unfold children. apply NoDup_omap_inj; [|apply NoDup_map_to_list].
  intros [k1 n1] [k2 n2] [b n]. cbn [fst snd].
  destruct (child_name d k1) as [b1|] eqn:H1; [|discriminate].
  destruct (child_name d k2) as [b2|] eqn:H2; [|discriminate].
  intros [= -> ->] [= -> ->].
  apply child_name_Some in H1, H2. congruence.
Qed.

(** A lease identifier is recorded once at most. *)
Lemma NoDup_listLeases vol w : NoDup (listLeases vol w).
Proof.
  unfold listLeases, os.ReadDir.
  destruct (resolve (StateDir vol) w) as [[]| |e]; cbn [fst];
    try (rewrite fmap_nil; constructor).
  apply NoDup_fmap_2_strong; [|apply NoDup_children].
  intros [b1 n1] [b2 n2] H1 H2. cbn [fst]. intros ->.
  apply elem_of_children in H1, H2. congruence.
Qed.

Lemma same_entries_refl d w : same_entries d w w.
Proof. split; auto. Qed.


Lemma children_same_entries d w w' :
  same_entries d w w' -> children d w' ≡ₚ children d w.
Proof.
  intros [_ H]. apply NoDup_Permutation; try apply NoDup_children.
  intros [b n]. rewrite !elem_of_children. unfold filepath_Join in H.
  now rewrite H.
Qed.

Lemma Glob_same_entries pattern w w' :
  same_entries (filepath_Dir pattern) w w' ->
  fst (fst (os.Glob pattern w')) ≡ₚ fst (fst (os.Glob pattern w)).
Proof.
  intros H. pose proof (children_same_entries _ _ _ H) as HP.
  destruct H as [Hr _]. unfold os.Glob, os.ReadDir. io. rewrite Hr.
  destruct (resolve (filepath_Dir pattern) w) as [[]| |e]; cbn [fst];
    try reflexivity.
  now rewrite HP.
Qed.

(** [getVolume] reads the data directory only. *)
Lemma getVolume_same_entries m name w w' :
  same_entries (dataDir m) w w' ->
  fst (getVolume m name w') = fst (getVolume m name w).
Proof.
  intros H. rewrite !getVolume_cases. cbn [fst].
  set (pat := path_append (filepath_Join (dataDir m) name) ".*").
  assert (Hd : filepath_Dir pat = dataDir m).
  { unfold pat. now rewrite path_append_Join, filepath_Dir_Join. }
  pose proof (Glob_same_entries pat w w') as HP. rewrite Hd in HP.
  specialize (HP H).
  pose proof (elem_of_Glob pat w) as HG.
  destruct (fst (fst (os.Glob pat w))) as [|p [|q ms]].
  - apply Permutation_nil_r in HP. now rewrite HP.
  - apply Permutation_singleton_r in HP. rewrite HP.
    destruct (HG p) as [(_ & b & n & Hp & _) _]; [left|].
    rewrite Hd in Hp. unfold resolved. destruct H as [_ H].
    now rewrite Hp, H.
  - apply Permutation_length in HP.
    destruct (fst (fst (os.Glob pat w'))) as [|p' [|q' ms']];
      try discriminate. reflexivity.
Qed.


Lemma prefix_of_Join q d b :
  q `prefix_of` filepath_Join d b -> q = filepath_Join d b \/ q `prefix_of` d.
Proof.
  unfold filepath_Join. intros [k Hk].
  destruct k as [|x k _] using rev_ind.
  - left. now rewrite app_nil_r in Hk.
  - right. rewrite app_assoc in Hk. apply app_inj_tail in Hk as [-> _].
    now exists k.
Qed.

Lemma Join_inj d1 b1 d2 b2 :
  filepath_Join d1 b1 = filepath_Join d2 b2 -> d1 = d2 /\ b1 = b2.
Proof. apply app_inj_tail. Qed.

Lemma Join_prefix_of d b l :
  filepath_Join d b `prefix_of` l -> d `prefix_of` l.
Proof.
  unfold filepath_Join. intros [k ->]. exists ([b] ++ k). now rewrite app_assoc.
Qed.

End Frames.

(** *** One call *)

Section Transitions.

Variable host : Host.




Lemma singleton_of_NoDup {A} (l : list A) a :
  NoDup l -> (forall x, x ∈ l <-> x = a) -> l = [a].
Proof.
  intros Hnd H. apply Permutation_singleton_r.
  apply NoDup_Permutation; [assumption|apply NoDup_singleton|].
  intros x. rewrite H. symmetry. apply list_elem_of_singleton.
Qed.

(** In a well-formed world a volume without a lease has nothing below its
    state directory. *)
Lemma no_lease_no_entry vol w x :
  well_formed w -> StateDir vol <> [] ->
  listLeases vol w = [] ->
  files w !! filepath_Join (StateDir vol) x = None.
Proof.
  intros Hwf Hne Hl.
  destruct (files w !! filepath_Join (StateDir vol) x) as [n|] eqn:E;
    [exfalso|reflexivity].
  pose proof (Hwf _ _ E) as Hd. cbn beta in Hd.
  rewrite filepath_Dir_Join in Hd.
  assert (Hs : files w !! StateDir vol = Some Directory).
  { destruct (StateDir vol); [congruence|exact Hd]. }
  pose proof (Hwf _ _ Hs) as Hp. cbn beta in Hp.
  assert (Hin : x ∈ listLeases vol w).
  { apply elem_of_listLeases. split; [|eauto].
    unfold resolve. destruct (StateDir vol) as [|c p] eqn:Es; [congruence|].
    now rewrite Hp, Hs. }
  rewrite Hl in Hin. now apply elem_of_nil in Hin.
Qed.

End Transitions.


Lemma Join_not_prefix d b : ¬ filepath_Join d b `prefix_of` d.
Proof.
  unfold filepath_Join. intros [k Hk]. apply (f_equal length) in Hk.
  rewrite !length_app in Hk. cbn in Hk. lia.
Qed.


Lemma plugin_separate : separate plugin.
Proof.
  unfold separate, plugin. cbn [stateDir dataDir mountDir].
  repeat split; intros [k Hk]; discriminate Hk.
Qed.



(** ** Mounting twice with one lease *)


Section MountTwice.

Variable host : Host.





Lemma separate_state m name b :
  separate m ->
  ¬ filepath_Join (dataDir m) b `prefix_of` filepath_Join (stateDir m) name.
Proof.
  intros (_ & Hds & _) H. apply Hds.
  apply prefix_of_Join in H as [H|H].
  - apply Join_inj in H as [-> _]. reflexivity.
  - now apply Join_prefix_of in H.
Qed.

Lemma separate_lease m name lease b :
  separate m ->
  filepath_Join (filepath_Join (stateDir m) name) lease
    <> filepath_Join (dataDir m) b.
Proof.
  intros (Hsd & _) H. apply Hsd. apply Join_inj in H as [<- _].
  now exists [name].
Qed.

Lemma separate_mount m name b :
  separate m ->
  filepath_Join (mountDir m) name <> filepath_Join (dataDir m) b.
Proof.
  intros (_ & _ & Hmd & _) H. apply Hmd. apply Join_inj in H as [<- _].
  reflexivity.
Qed.


End MountTwice.



(** ** The scenario of the specification

    Create [db] without the sparse flag as ext4, mount it for [c1] and for
    [c2], unmount it for [c1] and for [c2]: every call succeeds, [mount] is
    run once, during the first [Mount], and [umount] once, during the last
    [UnMount].  A [Delete] then succeeds and removes the data file. *)
Example two_consumers_one_physical_mount :
  let vol := filepath_Join (dataDir plugin) "db.ext4" in
  let mnt := filepath_Join (mountDir plugin) "db" in
  let '(e0, w0) := Create obliging plugin "db" 50000000 false "ext4" (-1) (-1) 0 fresh in
  let '(r1, w1) := Mount obliging plugin "db" "c1" w0 in
  let '(r2, w2) := Mount obliging plugin "db" "c2" w1 in
  let '(e3, w3) := UnMount obliging plugin "db" "c1" w2 in
  let '(e4, w4) := UnMount obliging plugin "db" "c2" w3 in
  let '(e5, w5) := Delete plugin "db" w4 in
  (e0, r1, r2, e3, e4, e5) = (None, (mnt, None), (mnt, None), None, None, None) /\
  trace w0 = [fallocate 50000000 vol; mkfs "ext4" ["-F"] vol] /\
  trace w1 = trace w0 ++ [mount [] vol mnt] /\
  trace w2 = trace w1 /\
  trace w3 = trace w1 /\
  trace w4 = trace w1 ++ [umount mnt] /\
  files w4 !! vol = Some (Regular 50000000 97657) /\
  files w5 !! vol = None.
Proof. vm_compute. repeat split; reflexivity. Qed.

(** * Further properties of the manager *)

(** ** What a call writes *)

Section Footprints.

Variable host : Host.

Lemma mkdir_all_keeps_entry rest : forall done fs fs' err q n,
  os.mkdir_all done rest fs = (err, fs') ->
  fs !! q = Some n -> fs' !! q = Some n.
Proof.
  induction rest as [|c rest IH]; intros done fs fs' err q n H Hq; cbn in H.
  - now injection H as _ <-.
  - destruct (fs !! (done ++ [c])) as [[]|] eqn:E;
      try (now injection H as _ <-).
    + eapply IH; eauto.
    + eapply IH; [exact H|].
      rewrite lookup_insert_ne; [assumption|congruence].
Qed.

Lemma mkdir_all_writes rest : forall done fs fs' err q,
  os.mkdir_all done rest fs = (err, fs') ->
  fs' !! q = fs !! q \/ q `prefix_of` done ++ rest.
Proof.
  induction rest as [|c rest IH]; intros done fs fs' err q H; cbn in H.
  - injection H as _ <-. now left.
  - destruct (fs !! (done ++ [c])) as [[]|] eqn:E;
      try (injection H as _ <-; now left).
    + destruct (IH _ _ _ _ q H) as [Hq|Hq]; [now left|right].
      now rewrite <- app_assoc in Hq.
    + destruct (IH _ _ _ _ q H) as [Hq|Hq].
      * destruct (decide (q = done ++ [c])) as [->|Hne].
        -- right. exists rest. now rewrite <- app_assoc.
        -- left. rewrite Hq. now apply lookup_insert_ne.
      * right. now rewrite <- app_assoc in Hq.
Qed.

(** [os.MkdirAll], successful or not, writes at the path and above it, and
    never over an entry. *)
Lemma MkdirAll_writes p w q :
  files (snd (os.MkdirAll p w)) !! q = files w !! q \/
  q `prefix_of` p /\ files w !! q = None.
Proof.
  unfold os.MkdirAll.
  destruct (os.mkdir_all [] p (files w)) as [err fs] eqn:E.
  cbn [snd set_files files].
  destruct (files w !! q) as [n|] eqn:Hq.
  - left. eapply mkdir_all_keeps_entry; eauto.
  - destruct (mkdir_all_writes _ _ _ _ _ q E) as [H|H]; [left; congruence|].
    right. auto.
Qed.

Lemma Remove_writes p w q :
  q <> p -> files (snd (os.Remove p w)) !! q = files w !! q.
Proof.
  intros Hq. destruct (Remove_outcome p w) as [[E _]|[e E]]; rewrite E;
    cbn [snd set_files files]; [|reflexivity].
  now apply lookup_delete_ne.
Qed.

(** The rest of [Mount] writes at the lease file and at the mount point. *)
Lemma Mount_lease_writes vol lease b w q :
  q <> filepath_Join (StateDir vol) lease ->
  q <> MountPointPath vol ->
  files (snd (Mount_lease host vol lease b w)) !! q = files w !! q.
Proof.
  intros Hl Hm. unfold Mount_lease, os.Stat, os.Create. io.
  destruct (resolve (filepath_Join (StateDir vol) lease) w)
    as [[s k| |]| |[]] eqn:HR;
    cbn [not_nil is_nil negb andb os_IsNotExist]; rewrite ?HR;
    cbn [not_nil is_nil negb andb errors_Wrapf fst snd]; try reflexivity;
    destruct b; cbn [negb fst snd set_files files];
    rewrite ?lookup_insert_ne by congruence; try reflexivity.
  all: match goal with
       | |- context [os.Mkdir ?mp ?w2] =>
           destruct (Mkdir_outcome mp w2) as [[EM _]|[e EM]];
             rewrite EM; cbn [not_nil is_nil negb];
             [|pose proof (Remove_writes (filepath_Join (StateDir vol) lease) w2 q Hl)
                 as HT;
               destruct (os.Remove _ w2); cbn [fst snd set_files files] in *;
               rewrite HT, ?lookup_insert_ne by congruence; reflexivity];
           unfold exec_Command;
           destruct (run host _ _) as [|output partial];
             cbn [not_nil is_nil negb fst snd effect partial_effect
                  set_files set_mounts log files];
             [rewrite ?lookup_insert_ne by congruence; reflexivity|];
           match goal with
           | |- context [os.Remove ?l ?w3] =>
               pose proof (Remove_writes l w3 q Hl) as HT;
               destruct (os.Remove l w3);
               cbn [fst snd set_files set_mounts log files] in *;
               rewrite HT, ?lookup_insert_ne by congruence; reflexivity
           end
       end.
Qed.

Lemma filter_prefix_other (p : path) (fs : gmap path node) q :
  ¬ p `prefix_of` q ->
  filter (fun kn => ¬ p `prefix_of` fst kn) fs !! q = fs !! q.
Proof.
  intros Hq. destruct (fs !! q) as [n|] eqn:E.
  - apply map_lookup_filter_Some. auto.
  - apply map_lookup_filter_None. now left.
Qed.

(** [getVolume] either resolves the volume or fails; it never writes. *)
Lemma getVolume_outcome m name w :
  (exists vol, getVolume m name w = ((vol, None), w)) \/
  (exists vol e, getVolume m name w = ((vol, Some e), w)).
Proof.
  pose proof (getVolume_world m name w) as HW.
  destruct (getVolume m name w) as [[vol [e|]] w0]; cbn [snd] in HW; subst w0;
    eauto.
Qed.

(** [Mount], successful or not, writes at the state directory of the volume
    and above it where nothing is yet, at the lease file and at the mount
    point, nowhere else. *)
Lemma Mount_writes m name lease w q :
  (q `prefix_of` filepath_Join (stateDir m) name -> is_Some (files w !! q)) ->
  q <> filepath_Join (filepath_Join (stateDir m) name) lease ->
  q <> filepath_Join (mountDir m) name ->
  files (snd (Mount host m name lease w)) !! q = files w !! q.
Proof.
  intros Hs Hl Hm.
  destruct (validateName name) as [e|] eqn:Hn.
  { unfold Mount. io. now rewrite Hn. }
  destruct (getVolume_outcome m name w) as [[vol Hv]|(vol & e & Hv)].
  2:{ unfold Mount. io. rewrite Hn. cbn [not_nil is_nil negb].
      now rewrite Hv. }
  destruct (getVolume_fields m name w vol Hv) as (_ & HSD & HMP & _).
  rewrite (Mount_unfold host m name lease w vol Hn Hv). io.
  rewrite IsMounted_cases.
  assert (Hrest : forall b w1,
            files w1 !! q = files w !! q ->
            files (snd (Mount_lease host vol lease b w1)) !! q = files w !! q).
  { intros b w1 <-. apply Mount_lease_writes; now rewrite ?HSD, ?HMP. }
  assert (Hmk : files (snd (os.MkdirAll (StateDir vol) w)) !! q = files w !! q).
  { destruct (MkdirAll_writes (StateDir vol) w q) as [H|[H Hq]]; [assumption|].
    rewrite HSD in H. apply Hs in H as [n Hn']. congruence. }
  unfold os.Stat.
  destruct (resolve (StateDir vol) w) as [[]| |[]] eqn:HR;
    cbn [negb not_nil is_nil andb os_IsNotExist errors_Wrapf fst snd];
    try reflexivity; rewrite ?HR;
    cbn [negb not_nil is_nil andb os_IsNotExist errors_Wrapf fst snd];
    try (now apply Hrest);
    destruct (os.MkdirAll (StateDir vol) w) as [[e|] w1];
    cbn [negb not_nil is_nil fst snd] in *; try assumption;
    now apply Hrest.
Qed.

(** [UnMount], successful or not, writes in the state directory of the
    volume and at the mount point, nowhere else. *)
Lemma UnMount_writes m name lease w q :
  ¬ filepath_Join (stateDir m) name `prefix_of` q ->
  ¬ filepath_Join (mountDir m) name `prefix_of` q ->
  files (snd (UnMount host m name lease w)) !! q = files w !! q.
Proof.
  intros Hs Hm. unfold UnMount. io.
  destruct (validateName name) as [e|] eqn:Hn; [reflexivity|].
  cbn [not_nil is_nil negb].
  destruct (getVolume_outcome m name w) as [[vol Hv]|(vol & e & Hv)];
    rewrite Hv; cbn [not_nil is_nil negb]; [|reflexivity].
  destruct (getVolume_fields m name w vol Hv) as (_ & HSD & HMP & _).
  assert (Hq : q <> filepath_Join (StateDir vol) lease).
  { intros ->. apply Hs. rewrite HSD. now exists [lease]. }
  destruct (Remove_outcome (filepath_Join (StateDir vol) lease) w)
    as [[ER _]|[e ER]]; rewrite ER; cbn [not_nil is_nil negb fst snd];
    [|reflexivity].
  rewrite IsMounted_cases.
  set (w1 := set_files (delete (filepath_Join (StateDir vol) lease)) w).
  assert (H1 : files w1 !! q = files w !! q).
  { unfold w1. cbn [set_files files]. now apply lookup_delete_ne. }
  assert (Hdown : forall b err,
    files (snd ((if negb b then
        (err ← os.RemoveAll (StateDir vol);
         if not_nil err then mret (errors_Wrapf err msg_unmount_statedir) else
         '(errBytes, err) ← exec_Command host (umount (MountPointPath vol));
         if not_nil err then
           mret (errors_Wrapf err msg_unmount_failed) else
         err ← os.RemoveAll (MountPointPath vol);
         if not_nil err then mret (errors_Wrapf err msg_unmount_rmdir) else
         mret None)
      else mret err) w1)) !! q = files w !! q).
  { intros b err. io. destruct b; cbn [negb]; [exact H1|].
    unfold os.RemoveAll, exec_Command. cbn [not_nil is_nil negb].
    destruct (run host _ _) as [|output partial];
      cbn [not_nil is_nil negb fst snd partial_effect effect
           set_files set_mounts log files];
      rewrite ?filter_prefix_other by (now rewrite ?HSD, ?HMP); exact H1. }
  io.
  destruct (resolve (StateDir vol) w1) as [[]| |[]] eqn:Hs1;
    cbn [not_nil is_nil negb errors_Wrapf fst snd]; try exact H1;
    try apply (Hdown false None).
  destruct (bool_decide (listLeases vol w1 = [])); cbn [negb];
    [apply (Hdown false None)|exact H1].
Qed.

End Footprints.

(** ** The data directory under Mount and UnMount *)

Section DataDirectory.

Variable host : Host.

(** A world that agrees with [w] at a directory, at its parent and at its
    entries has that directory as [w] has it. *)
Lemma same_entries_of_lookups d w w' :
  resolve d w = Found Directory ->
  (forall q, q = d \/ q = filepath_Dir d \/ (exists b, q = filepath_Join d b) ->
             q <> [] -> files w' !! q = files w !! q) ->
  same_entries d w w'.
Proof.
  intros Hd H. split.
  - unfold resolve, lookup_node. destruct d as [|c d]; [reflexivity|].
    rewrite (H (c :: d)) by (auto; discriminate).
    destruct (filepath_Dir (c :: d)) as [|c' d'] eqn:E; [reflexivity|].
    rewrite (H (c' :: d')); [reflexivity| |discriminate]. rewrite <- E. auto.
  - intros b. apply H; [eauto|apply Join_not_root].
Qed.

Lemma prefix_of_Dir (p d : path) : p `prefix_of` filepath_Dir d -> p `prefix_of` d.
Proof.
  unfold filepath_Dir. destruct d as [|c d _] using rev_ind.
  - auto.
  - rewrite List.removelast_last. intros [k ->]. exists (k ++ [c]).
    now rewrite app_assoc.
Qed.

Lemma Dir_prefix_of (d : path) : filepath_Dir d `prefix_of` d.
Proof. apply prefix_of_Dir. reflexivity. Qed.

(** With separate directories, whatever lies at the data directory, above it
    or directly in it is neither the state directory of a volume, nor in it,
    nor a mount point, nor in one. *)
Lemma separate_from_data m name q :
  separate m ->
  q `prefix_of` dataDir m \/ (exists b, q = filepath_Join (dataDir m) b) ->
  ¬ filepath_Join (stateDir m) name `prefix_of` q /\
  ¬ filepath_Join (mountDir m) name `prefix_of` q.
Proof.
  intros (Hsd & Hds & Hmd & _) [H|[b ->]]; split; intros E.
  - apply Hsd. apply Join_prefix_of in E. now transitivity q.
  - apply Hmd. apply Join_prefix_of in E. now transitivity q.
  - apply prefix_of_Join in E as [E|E].
    + apply Join_inj in E as [E _]. apply Hsd. now rewrite E.
    + apply Hsd. now apply Join_prefix_of in E.
  - apply prefix_of_Join in E as [E|E].
    + apply Join_inj in E as [E _]. apply Hmd. now rewrite E.
    + apply Hmd. now apply Join_prefix_of in E.
Qed.

Lemma Mount_keeps_data_directory m name lease w :
  separate m ->
  same_entries (dataDir m) w (snd (Mount host m name lease w)).
Proof.
  intros Hsep.
  destruct (validateName name) as [e|] eqn:Hn.
  { unfold Mount. io. rewrite Hn. apply same_entries_refl. }
  destruct (getVolume_outcome m name w) as [[vol Hv]|(vol & e & Hv)].
  2:{ unfold Mount. io. rewrite Hn. cbn [not_nil is_nil negb].
      rewrite Hv. apply same_entries_refl. }
  destruct (getVolume_fields m name w vol Hv) as (_ & _ & _ & Hdata & _).
  apply same_entries_of_lookups; [assumption|].
  intros q Hq Hne.
  assert (Hq' : q `prefix_of` dataDir m \/ exists b, q = filepath_Join (dataDir m) b).
  { destruct Hq as [->|[->|Hq]]; [left; reflexivity|left; apply Dir_prefix_of|now right]. }
  destruct (separate_from_data m name q Hsep Hq') as [Hs Hm].
  apply Mount_writes.
  - intros Hpre. destruct Hq as [->|[->|[b ->]]].
    + apply resolve_Found in Hdata. destruct (dataDir m); [congruence|]. eauto.
    + pose proof (resolve_parent (dataDir m) w Directory) as Hp.
      destruct (dataDir m) as [|c d] eqn:Ed; [now cbn in Hne|].
      specialize (Hp ltac:(discriminate) (or_introl Hdata)).
      destruct (filepath_Dir (c :: d)); [congruence|]. eauto.
    + exfalso. destruct Hsep as (_ & Hds & _). apply Hds.
      apply prefix_of_Join in Hpre as [E|E].
      * apply Join_inj in E as [-> _]. reflexivity.
      * now apply Join_prefix_of in E.
  - intros ->. apply Hs. now exists [lease].
  - intros ->. now apply Hm.
Qed.

Lemma UnMount_keeps_data_directory m name lease w :
  separate m ->
  same_entries (dataDir m) w (snd (UnMount host m name lease w)).
Proof.
  intros Hsep.
  destruct (validateName name) as [e|] eqn:Hn.
  { unfold UnMount. io. rewrite Hn. apply same_entries_refl. }
  destruct (getVolume_outcome m name w) as [[vol Hv]|(vol & e & Hv)].
  2:{ unfold UnMount. io. rewrite Hn. cbn [not_nil is_nil negb].
      rewrite Hv. apply same_entries_refl. }
  destruct (getVolume_fields m name w vol Hv) as (_ & _ & _ & Hdata & _).
  apply same_entries_of_lookups; [assumption|].
  intros q Hq Hne.
  assert (Hq' : q `prefix_of` dataDir m \/ exists b, q = filepath_Join (dataDir m) b).
  { destruct Hq as [->|[->|Hq]]; [left; reflexivity|left; apply Dir_prefix_of|now right]. }
  destruct (separate_from_data m name q Hsep Hq') as [Hs Hm].
  now apply UnMount_writes.
Qed.

End DataDirectory.



(** ** Names that are refused, volumes that are not there *)

(** A name the validator rejects is refused by every operation with the
    validator's error, wrapped in the message of the operation, and the world
    is left as it is. *)
Theorem invalid_name_is_refused_untouched
  (host : Host) (m : Manager) (name lease : string) (sizeInBytes : Z)
  (sparse : bool) (fs : string) (uid gid mode : Z) (w : World) (e : error) :
  validateName name = Some e ->
  Get m name w = ((noVolume, Some (Wrap e msg_get_name)), w) /\
  Create host m name sizeInBytes sparse fs uid gid mode w
    = (Some (Wrap e msg_create_name), w) /\
  Mount host m name lease w = (([], Some (Wrap e msg_mount_name)), w) /\
  UnMount host m name lease w = (Some (Wrap e msg_unmount_name), w) /\
  Delete m name w = (Some (Wrap e msg_delete_name), w).
Proof.
  intros Hn. unfold Get, Create, Mount, UnMount, Delete. io. rewrite Hn.
  repeat split; reflexivity.
Qed.

Lemma invalid_name_is_refused_untouched_witness :
  Mount obliging plugin "../etc" "c1" db_held_by_c1
    = (([], Some (Wrap (New msg_name_pattern) msg_mount_name)), db_held_by_c1).
Proof.
  exact (proj1 (proj2 (proj2 (invalid_name_is_refused_untouched
           obliging plugin "../etc" "c1" 0 false "" 0 0 0 db_held_by_c1
           (New msg_name_pattern) eq_refl)))).
Defined.

(** When the data directory has no entry called [name.] followed by
    anything, [Get], [Mount], [UnMount] and [Delete] of a valid [name] fail
    with the error for a volume that does not exist, and the world is left as
    it is: no state directory, no lease file, no mount point is made. *)
Theorem missing_volume_is_refused_untouched
  (host : Host) (m : Manager) (name lease : string) (w : World) :
  validateName name = None ->
  (forall ext, files w !! filepath_Join (dataDir m) (name +:+ "." +:+ ext) = None) ->
  Get m name w = ((noVolume, Some (New msg_not_exist)), w) /\
  Mount host m name lease w
    = (([], Some (Wrap (New msg_not_exist) msg_mount_meta)), w) /\
  UnMount host m name lease w
    = (Some (Wrap (New msg_not_exist) msg_unmount_meta), w) /\
  Delete m name w = (Some (Wrap (New msg_not_exist) msg_delete_meta), w).
Proof.
  intros Hn Hno.
  assert (Hv : getVolume m name w = ((noVolume, Some (New msg_not_exist)), w)).
  { rewrite getVolume_cases.
    destruct (fst (fst (os.Glob _ w))) as [|p ms] eqn:E; [reflexivity|exfalso].
    assert (Hp : p ∈ fst (fst (os.Glob
               (path_append (filepath_Join (dataDir m) name) ".*") w)))
      by (rewrite E; left).
    apply (Glob_of_validated_name m name w p Hn) in Hp
      as (_ & ext & n & -> & Hl).
    rewrite Hno in Hl. discriminate. }
  unfold Get, Mount, UnMount, Delete, Get. io. rewrite Hn.
  cbn [not_nil is_nil negb]. rewrite Hv. repeat split; reflexivity.
Qed.

Lemma missing_volume_is_refused_untouched_witness :
  Mount obliging plugin "logs" "c1" db_held_by_c1
    = (([], Some (Wrap (New msg_not_exist) msg_mount_meta)), db_held_by_c1).
Proof.
  refine (proj1 (proj2 (missing_volume_is_refused_untouched
            obliging plugin "logs" "c1" db_held_by_c1 eq_refl _))).
  intros ext.
  destruct (files db_held_by_c1 !! filepath_Join (dataDir plugin)
              ("logs" +:+ "." +:+ ext)) as [n|] eqn:E; [|reflexivity].
  exfalso. apply elem_of_map_to_list in E. revert E. vm_compute.
  intros E. repeat (apply elem_of_cons in E as [E|E]; [discriminate E|]).
  now apply elem_of_nil in E.
Defined.

(** ** Names and data files *)

Section DataFiles.

Lemma in_class_word_or_hyphen_dotless c :
  in_class word_or_hyphen c = true -> Ascii.eqb c "." = false.
Proof.
  destruct (Ascii.eqb_spec c ".") as [->|]; [|reflexivity].
  vm_compute. discriminate.
Qed.

Lemma forallb_word_dotless s :
  forallb (in_class word_or_hyphen) (GoString.bytes s) = true ->
  dotless s = true.
Proof.
  induction s as [|c s IH]; [reflexivity|].
  cbn [GoString.bytes forallb dotless].
  intros [Hc Hs]%andb_prop.
  now rewrite (in_class_word_or_hyphen_dotless c Hc), IH.
Qed.

Lemma in_class_alnum_word c :
  in_class alnum c = true -> in_class word_or_hyphen c = true.
Proof.
  rewrite in_class_alnum, in_class_word_or_hyphen. now left.
Qed.

(** A valid name has no dot. *)
Lemma validateName_dotless name : validateName name = None -> dotless name = true.
Proof.
  unfold validateName. destruct name as [|c rest]; [discriminate|].
  change (String.eqb (String c rest) "") with false. cbv iota.
  rewrite MatchString_NameRegex.
  destruct (in_class alnum c) eqn:Hc; [|discriminate].
  destruct (forallb _ _) eqn:Hr; [|rewrite andb_false_r; discriminate].
  intros _. cbn [dotless].
  rewrite (in_class_word_or_hyphen_dotless c (in_class_alnum_word c Hc)).
  now apply forallb_word_dotless.
Qed.

(** The name of a data file is read back from its first dot. *)
Lemma dotless_split n1 : forall n2 e1 e2,
  dotless n1 = true -> dotless n2 = true ->
  n1 +:+ "." +:+ e1 = n2 +:+ "." +:+ e2 -> n1 = n2 /\ e1 = e2.
Proof.
  induction n1 as [|c n1 IH]; intros [|d n2] e1 e2 H1 H2 H.
  - cbv [String.append] in H. injection H as ->. auto.
  - cbv [String.append] in H. injection H as <- _. cbn in H2. discriminate.
  - cbv [String.append] in H. injection H as -> _. cbn in H1. discriminate.
  - rewrite !append_String in H. injection H as -> H.
    cbn [dotless] in H1, H2.
    apply andb_prop in H1 as [_ H1]. apply andb_prop in H2 as [_ H2].
    destruct (IH n2 e1 e2 H1 H2 H) as [-> ->]. auto.
Qed.

Lemma Ext_dotless s : dotless s = true -> Ext s = "".
Proof.
  induction s as [|c s IH]; [reflexivity|]. cbn [dotless Ext].
  intros [Hc Hs]%andb_prop. rewrite (IH Hs).
  now destruct (Ascii.eqb c ".").
Qed.

Lemma Ext_dot s : Ext ("." +:+ s) <> "".
Proof.
  change ("." +:+ s) with (String "." s). cbn [Ext].
  destruct (Ext s); discriminate.
Qed.

Lemma Ext_cons c s : Ext s <> "" -> Ext (String c s) = Ext s.
Proof. cbn [Ext]. destruct (Ext s); congruence. Qed.

(** The extension of [name.fs] is [.fs] when [fs] has no dot. *)
Lemma Ext_data_file name fs :
  dotless fs = true -> Ext (name +:+ "." +:+ fs) = "." +:+ fs.
Proof.
  intros Hfs. induction name as [|c name IH].
  - change ("" +:+ "." +:+ fs) with (String "." fs). cbn [Ext].
    now rewrite (Ext_dotless fs Hfs).
  - rewrite append_String, Ext_cons; [exact IH|].
    rewrite IH. discriminate.
Qed.

Lemma TrimLeftDots_dotless s : dotless s = true -> TrimLeftDots s = s.
Proof.
  destruct s as [|c s]; [reflexivity|]. cbn [dotless TrimLeftDots].
  intros [Hc _]%andb_prop. now destruct (Ascii.eqb c ".").
Qed.

Lemma fs_of_data_file d name fs :
  dotless fs = true ->
  TrimLeftDots (filepath_Ext (filepath_Join d (name +:+ "." +:+ fs))) = fs.
Proof.
  intros Hfs. unfold filepath_Ext. rewrite filepath_Base_Join, Ext_data_file by done.
  change ("." +:+ fs) with (String "." fs). cbn [TrimLeftDots Ascii.eqb].
  change (Ascii.eqb "." ".") with true. cbv iota.
  now apply TrimLeftDots_dotless.
Qed.

Lemma NoDup_omap_inj_on {A B} (f : A -> option B) (l : list A) :
  (forall x y z, x ∈ l -> y ∈ l -> f x = Some z -> f y = Some z -> x = y) ->
  NoDup l -> NoDup (omap f l).
Proof.
  intros Hinj Hl. induction Hl as [|x l Hx Hl IH]; cbn; [constructor|].
  assert (IH' : NoDup (omap f l)).
  { apply IH. intros a b z Ha Hb. apply Hinj; now right. }
  destruct (f x) as [z|] eqn:Hz; [|assumption].
  constructor; [|assumption].
  intros Hin. apply list_elem_of_omap in Hin as (y & Hy & Hfy).
  rewrite (Hinj x y z) in Hx; auto; [left|now right].
Qed.

(** A glob lists a path once. *)
Lemma NoDup_Glob pattern w : NoDup (fst (fst (os.Glob pattern w))).
Proof.
  unfold os.Glob, os.ReadDir. io.
  destruct (resolve (filepath_Dir pattern) w) as [[]| |e]; cbn [fst];
    try constructor.
  apply NoDup_omap_inj_on; [|apply NoDup_children].
  intros [b1 n1] [b2 n2] z H1 H2. cbn [fst].
  destruct (filepath_Match _ b1); [|discriminate].
  destruct (filepath_Match _ b2); [|discriminate].
  intros [= <-] [= Hb]. apply Join_inj in Hb as [_ ->].
  apply elem_of_children in H1, H2. congruence.
Qed.

(** [getVolume] of a valid name reads the entries called [name.] and
    something, and whether the data directory is one. *)
Lemma getVolume_agree m name w w' :
  validateName name = None ->
  resolve (dataDir m) w' = resolve (dataDir m) w ->
  (forall ext, files w' !! filepath_Join (dataDir m) (name +:+ "." +:+ ext)
               = files w !! filepath_Join (dataDir m) (name +:+ "." +:+ ext)) ->
  fst (getVolume m name w') = fst (getVolume m name w).
Proof.
  intros Hn Hr Hf. rewrite !getVolume_cases. cbn [fst].
  set (pat := path_append (filepath_Join (dataDir m) name) ".*").
  assert (HP : fst (fst (os.Glob pat w')) ≡ₚ fst (fst (os.Glob pat w))).
  { apply NoDup_Permutation; try apply NoDup_Glob.
    intros p. unfold pat. rewrite !Glob_of_validated_name by done.
    rewrite Hr. split; intros (Hd & ext & n & -> & Hl); (split; [done|]);
      exists ext, n; (split; [done|]); [rewrite <- Hf|rewrite Hf]; done. }
  pose proof (Glob_of_validated_name m name w) as HG. fold pat in HG.
  destruct (fst (fst (os.Glob pat w))) as [|p [|q ms]].
  - apply Permutation_nil_r in HP. now rewrite HP.
  - apply Permutation_singleton_r in HP. rewrite HP.
    destruct (HG p Hn) as [(_ & ext & n & Hp & _) _]; [left|].
    unfold resolved. now rewrite Hp, Hf.
  - apply Permutation_length in HP.
    destruct (fst (fst (os.Glob pat w'))) as [|p' [|q' ms']];
      try discriminate. reflexivity.
Qed.

End DataFiles.

(** ** Delete *)

Section DeleteFacts.

(** A volume that resolves has exactly one match, its data file. *)
Lemma getVolume_ok_matches m name w vol :
  getVolume m name w = ((vol, None), w) ->
  fst (fst (os.Glob (path_append (filepath_Join (dataDir m) name) ".*") w))
    = [DataFilePath vol].
Proof.
  rewrite getVolume_cases.
  destruct (fst (fst (os.Glob _ w))) as [|p [|q ms]]; try discriminate.
  unfold resolved. destruct (files w !! p) as [[]|]; try discriminate.
  now intros [= <-].
Qed.

Lemma Remove_data_file m name w vol :
  getVolume m name w = ((vol, None), w) ->
  os.Remove (DataFilePath vol) w
    = (None, set_files (delete (DataFilePath vol)) w).
Proof.
  intros Hv.
  destruct (getVolume_fields m name w vol Hv)
    as (_ & _ & _ & Hd & b & size & blocks & Hp & Hf).
  rewrite Hp in Hf. rewrite Hp. unfold os.Remove.
  pose proof (resolve_Join (dataDir m) b w) as HR.
  rewrite (resolve_Found _ _ _ Hd), Hf in HR.
  destruct (filepath_Join (dataDir m) b) eqn:E;
    [now apply Join_not_root in E|].
  now rewrite HR.
Qed.

Lemma resolve_of_lookups d w w' :
  (d <> [] -> files w' !! d = files w !! d) ->
  (filepath_Dir d <> [] ->
   files w' !! filepath_Dir d = files w !! filepath_Dir d) ->
  resolve d w' = resolve d w.
Proof.
  intros H1 H2. unfold resolve, lookup_node.
  destruct d as [|c d]; [reflexivity|]. rewrite H1 by discriminate.
  destruct (filepath_Dir (c :: d)) as [|c' d']; [reflexivity|].
  now rewrite H2.
Qed.

End DeleteFacts.

(** [Delete] of a volume that is not mounted removes its data file and
    nothing else: the call succeeds, the name no longer resolves, and every
    other valid name resolves as before. *)
Theorem Delete_removes_exactly_the_volume
  (m : Manager) (name other : string) (w : World) (vol : Volume) :
  validateName name = None ->
  getVolume m name w = ((vol, None), w) ->
  IsMounted vol w = ((false, None), w) ->
  let w' := snd (Delete m name w) in
  fst (Delete m name w) = None /\
  w' = set_files (delete (DataFilePath vol)) w /\
  Get m name w' = ((noVolume, Some (New msg_not_exist)), w') /\
  (validateName other = None -> other <> name ->
   fst (getVolume m other w') = fst (getVolume m other w)).
Proof.
  intros Hn Hv Hm. cbv zeta.
  rewrite (Delete_not_in_use m name w vol Hn Hv Hm).
  rewrite (Remove_data_file m name w vol Hv). cbn [fst snd errors_Wrapf].
  destruct (getVolume_fields m name w vol Hv)
    as (_ & _ & _ & Hd & b & size & blocks & Hp & Hf).
  pose proof (getVolume_ok_matches m name w vol Hv) as HG.
  set (w' := set_files (delete (DataFilePath vol)) w).
  assert (Hr : resolve (dataDir m) w' = resolve (dataDir m) w).
  { apply resolve_of_lookups; intros _; unfold w'; cbn [files set_files];
      apply lookup_delete_ne; rewrite Hp; intros E;
      apply (Join_not_prefix (dataDir m) b); rewrite E;
      [reflexivity|apply Dir_prefix_of]. }
  split; [reflexivity|]. split; [reflexivity|]. split.
  - unfold Get. rewrite Hn. cbn [not_nil is_nil negb]. rewrite getVolume_cases.
    destruct (fst (fst (os.Glob _ w'))) as [|p ms] eqn:E; [reflexivity|exfalso].
    assert (Hin : p ∈ fst (fst (os.Glob
               (path_append (filepath_Join (dataDir m) name) ".*") w')))
      by (rewrite E; left).
    apply (Glob_of_validated_name m name w' p Hn) in Hin
      as (_ & ext & n & Hpe & Hl).
    unfold w' in Hl. cbn [files set_files] in Hl.
    apply lookup_delete_Some in Hl as [Hne Hl].
    assert (Hin : p ∈ fst (fst (os.Glob
               (path_append (filepath_Join (dataDir m) name) ".*") w))).
    { apply (Glob_of_validated_name m name w p Hn). split; [done|].
      now exists ext, n. }
    rewrite HG in Hin. apply list_elem_of_singleton in Hin. congruence.
  - intros Ho Hne. apply getVolume_agree; [done|done|].
    intros ext. unfold w'. cbn [files set_files]. apply lookup_delete_ne.
    assert (Hin : DataFilePath vol ∈ fst (fst (os.Glob
               (path_append (filepath_Join (dataDir m) name) ".*") w)))
      by (rewrite HG; left).
    apply (Glob_of_validated_name m name w _ Hn) in Hin
      as (_ & ext' & n & Hpe & _).
    rewrite Hpe. intros E. apply Join_inj in E as [_ E].
    apply dotless_split in E as [E _]; auto using validateName_dotless.
Qed.

Lemma Delete_removes_exactly_the_volume_witness :
  fst (Delete plugin "db" db_created) = None /\
  Get plugin "db" (snd (Delete plugin "db" db_created))
    = ((noVolume, Some (New msg_not_exist)), snd (Delete plugin "db" db_created)).
Proof.
  destruct (Delete_removes_exactly_the_volume plugin "db" "db" db_created
              (fst (fst (getVolume plugin "db" db_created))))
    as (H1 & _ & H3 & _); [vm_compute; reflexivity..|].
  split; assumption.
Defined.

(** ** Well-formed file trees *)

Section WellFormed.

Variable host : Host.

Lemma well_formed_files w w' :
  files w' = files w -> well_formed w -> well_formed w'.
Proof.
  unfold well_formed, lookup_node. intros ->. auto.
Qed.

Lemma well_formed_log c w : well_formed w -> well_formed (log c w).
Proof. now apply well_formed_files. Qed.


Lemma well_formed_insert p n w :
  well_formed w ->
  lookup_node (filepath_Dir p) w = Some Directory ->
  n = Directory \/ files w !! p <> Some Directory ->
  well_formed (set_files (insert p n) w).
Proof.
  intros Hwf Hd Hn.
  assert (Hk : forall d, lookup_node d w = Some Directory ->
                 lookup_node d (set_files (insert p n) w) = Some Directory).
  { intros d. unfold lookup_node. destruct d as [|c d]; [auto|].
    cbn [set_files files]. intros H.
    destruct (decide (p = c :: d)) as [->|Hne].
    - rewrite lookup_insert_eq. destruct Hn as [->|Hn]; congruence.
    - now rewrite lookup_insert_ne. }
  intros q x. cbn [set_files files]. intros Hq.
  destruct (decide (p = q)) as [->|Hne]; [now apply Hk|].
  rewrite lookup_insert_ne in Hq by done. apply Hk. exact (Hwf q x Hq).
Qed.





Lemma well_formed_mkdir_all rest : forall done fs fs' err ms tr,
  os.mkdir_all done rest fs = (err, fs') ->
  lookup_node done (mkWorld fs ms tr) = Some Directory ->
  well_formed (mkWorld fs ms tr) -> well_formed (mkWorld fs' ms tr).
Proof.
  induction rest as [|c rest IH]; intros done fs fs' err ms tr H Hd Hwf;
    cbn in H.
  - now injection H as _ <-.
  - destruct (fs !! (done ++ [c])) as [[]|] eqn:E;
      try (now injection H as _ <-).
    + eapply IH; [exact H| |assumption].
      unfold lookup_node. cbn [files]. rewrite E. now destruct (done ++ [c]).
    + eapply IH; [exact H| |].
      * unfold lookup_node. cbn [files]. rewrite lookup_insert_eq.
        now destruct (done ++ [c]).
      * apply (well_formed_insert (done ++ [c]) Directory (mkWorld fs ms tr));
          [assumption| |now left].
        change (done ++ [c]) with (filepath_Join done c).
        now rewrite filepath_Dir_Join.
Qed.

Lemma well_formed_MkdirAll p w :
  well_formed w -> well_formed (snd (os.MkdirAll p w)).
Proof.
  intros Hwf. unfold os.MkdirAll.
  destruct (os.mkdir_all [] p (files w)) as [err fs] eqn:E. cbn [snd].
  destruct w as [fs0 ms tr]. cbn [files set_files mounts trace] in *.
  eapply well_formed_mkdir_all; eauto.
Qed.







End WellFormed.

(** ** A mount point without a lease *)

Section StaleMountPoint.

Variable host : Host.

Lemma well_formed_prefix w d : forall pre,
  well_formed w -> lookup_node d w = Some Directory ->
  pre `prefix_of` d -> lookup_node pre w = Some Directory.
Proof.
  intros pre Hwf Hd [k ->]. revert Hd.
  induction k as [|x k IH] using rev_ind; intros Hd.
  - now rewrite app_nil_r in Hd.
  - apply IH. rewrite app_assoc in Hd.
    assert (Hf : files w !! ((pre ++ k) ++ [x]) = Some Directory).
    { unfold lookup_node in Hd. now destruct ((pre ++ k) ++ [x]) eqn:E;
        [apply app_eq_nil in E as [_ E]; discriminate|]. }
    pose proof (Hwf _ _ Hf) as Hp. cbn beta in Hp.
    change ((pre ++ k) ++ [x]) with (filepath_Join (pre ++ k) x) in Hp.
    now rewrite filepath_Dir_Join in Hp.
Qed.

Lemma mkdir_all_ok rest : forall done fs,
  (forall pre, pre `prefix_of` rest -> pre <> [] ->
     fs !! (done ++ pre) = Some Directory \/ fs !! (done ++ pre) = None) ->
  fst (os.mkdir_all done rest fs) = None.
Proof.
  induction rest as [|c rest IH]; intros done fs H; [reflexivity|].
  cbn [os.mkdir_all].
  destruct (H [c]) as [E|E]; [now exists rest|discriminate|..]; rewrite E.
  - apply IH. intros pre Hpre Hne. rewrite <- app_assoc.
    apply H; [|discriminate]. now apply prefix_cons.
  - apply IH. intros pre Hpre Hne.
    rewrite lookup_insert_ne.
    + rewrite <- app_assoc. apply H; [|discriminate]. now apply prefix_cons.
    + rewrite <- (app_nil_r (done ++ [c])) at 1. intros E'.
      apply app_inv_head in E'. congruence.
Qed.


Lemma MkdirAll_keeps_resolve p q w n :
  resolve q w = Found n -> resolve q (snd (os.MkdirAll p w)) = Found n.
Proof.
  intros HR. rewrite <- HR. apply resolve_of_lookups; intros Hne.
  - destruct (MkdirAll_writes p w q) as [H|[_ H]]; [assumption|].
    apply resolve_Found in HR. unfold lookup_node in HR.
    destruct q; congruence.
  - destruct (MkdirAll_writes p w (filepath_Dir q)) as [H|[_ H]]; [assumption|].
    assert (Hq : q <> []) by (intros ->; now apply Hne).
    pose proof (resolve_parent q w n Hq (or_introl HR)) as Hd.
    unfold lookup_node in Hd. destruct (filepath_Dir q); congruence.
Qed.

Lemma Remove_file p w size blocks :
  p <> [] -> resolve p w = Found (Regular size blocks) ->
  os.Remove p w = (None, set_files (delete p) w).
Proof.
  intros Hp HR. unfold os.Remove. destruct p; [done|]. now rewrite HR.
Qed.


Lemma mkdir_all_None rest : forall done fs fs' pre,
  os.mkdir_all done rest fs = (None, fs') ->
  pre `prefix_of` rest -> pre <> [] ->
  fs !! (done ++ pre) = Some Directory \/ fs !! (done ++ pre) = None.
Proof.
  induction rest as [|c rest IH]; intros done fs fs' pre H Hpre Hne.
  - apply prefix_nil_inv in Hpre. congruence.
  - destruct pre as [|x pre]; [done|].
    pose proof (prefix_cons_inv_1 _ _ _ _ Hpre) as ->.
    apply prefix_cons_inv_2 in Hpre. cbn [os.mkdir_all] in H.
    destruct (fs !! (done ++ [c])) as [[]|] eqn:E; try discriminate.
    + destruct pre as [|y pre]; [now left|].
      rewrite cons_middle, app_assoc.
      apply (IH _ _ _ _ H Hpre). discriminate.
    + destruct pre as [|y pre]; [now right|].
      rewrite cons_middle, app_assoc.
      destruct (IH _ _ _ (y :: pre) H Hpre) as [H1|H1]; [discriminate|..];
        rewrite lookup_insert_ne in H1; auto;
        rewrite <- (app_nil_r (done ++ [c])) at 1; intros E';
        apply app_inv_head in E'; discriminate.
Qed.

(** Where [os.MkdirAll] succeeds the directory is there, or it is missing
    from a directory, or its parent is missing too. *)
Lemma MkdirAll_ok_cases p w :
  fst (os.MkdirAll p w) = None ->
  resolve p w = Found Directory \/ resolve p w = Absent \/
  resolve p w = NoParent ENOENT.
Proof.
  unfold os.MkdirAll.
  destruct (os.mkdir_all [] p (files w)) as [err fs] eqn:E. cbn [fst].
  intros ->. unfold resolve. destruct p as [|c p]; [now left|].
  assert (Hp : files w !! (c :: p) = Some Directory \/ files w !! (c :: p) = None)
    by (apply (mkdir_all_None _ _ _ _ (c :: p) E); [reflexivity|discriminate]).
  unfold lookup_node. destruct (filepath_Dir (c :: p)) as [|c' d'] eqn:Ed.
  - destruct Hp as [-> | ->]; auto.
  - assert (Hd : files w !! (c' :: d') = Some Directory \/
                 files w !! (c' :: d') = None).
    { apply (mkdir_all_None _ _ _ _ (c' :: d') E); [|discriminate].
      rewrite <- Ed. apply Dir_prefix_of. }
    destruct Hd as [-> | ->]; [|auto].
    destruct Hp as [-> | ->]; auto.
Qed.

Lemma mkdir_all_existing rest : forall done fs,
  (forall pre, pre `prefix_of` rest -> pre <> [] ->
     fs !! (done ++ pre) = Some Directory) ->
  os.mkdir_all done rest fs = (None, fs).
Proof.
  induction rest as [|c rest IH]; intros done fs H; [reflexivity|].
  cbn [os.mkdir_all]. rewrite (H [c]); [|now exists rest|discriminate].
  apply IH. intros pre Hpre Hne. rewrite <- app_assoc.
  apply H; [|discriminate]. now apply prefix_cons.
Qed.

(** In a well-formed tree [os.MkdirAll] of a directory that is there
    changes nothing. *)
Lemma MkdirAll_existing p w :
  well_formed w -> resolve p w = Found Directory ->
  os.MkdirAll p w = (None, w).
Proof.
  intros Hwf HR. unfold os.MkdirAll.
  rewrite (mkdir_all_existing p [] (files w)).
  - now destruct w.
  - intros pre Hpre Hne. cbn [app].
    pose proof (well_formed_prefix w p pre Hwf (resolve_Found _ _ _ HR) Hpre)
      as HL.
    unfold lookup_node in HL. now destruct pre.
Qed.


End StaleMountPoint.

(** ** The first lease and the last *)

Section FirstAndLast.

Variable host : Host.

Lemma insert_keeps_resolve_other q n p w :
  q <> p -> q <> filepath_Dir p \/ n = Directory ->
  (q = filepath_Dir p -> lookup_node q w = Some Directory) ->
  resolve p (set_files (insert q n) w) = resolve p w.
Proof.
  intros Hp Hd Hk. unfold resolve, lookup_node. cbn [set_files files].
  destruct p as [|c p]; [reflexivity|].
  rewrite (lookup_insert_ne (files w) q (c :: p)) by done.
  destruct (filepath_Dir (c :: p)) as [|c' d'] eqn:E; [reflexivity|].
  destruct (decide (q = c' :: d')) as [->|Hne].
  - destruct Hd as [Hd| ->]; [done|]. rewrite lookup_insert_eq.
    specialize (Hk eq_refl). cbn in Hk. now rewrite Hk.
  - now rewrite lookup_insert_ne.
Qed.

(** The rest of [Mount] for the first lease, when the state directory is in
    place and neither the lease file nor the mount point is there. *)
Lemma Mount_lease_fresh vol lease w :
  let lf := filepath_Join (StateDir vol) lease in
  let mp := MountPointPath vol in
  resolve (StateDir vol) w = Found Directory ->
  files w !! lf = None ->
  resolve mp w = Absent ->
  lf <> mp ->
  let w1 := set_files (insert mp Directory) w in
  let w2 := set_files (insert lf (Regular 0 0)) w1 in
  Mount_lease host vol lease false w =
  match run host (mounting vol) w2 with
  | Exit0 =>
      ((mp, None),
       set_mounts (fun ms => {[mp]} ∪ ms) (log (mounting vol) w2))
  | Failed _ _ =>
      (([], Some (Wrap ExitError msg_mount_failed)), log (mounting vol) w1)
  end.
Proof.
  intros lf mp Hs Hl Hmp Hne w1 w2.
  assert (Hmpn : files w !! mp = None) by now apply resolve_Absent.
  assert (Hmp0 : mp <> []) by (intros E; rewrite E in Hmp; discriminate).
  assert (Hmpd : lookup_node (filepath_Dir mp) w = Some Directory)
    by (apply (resolve_parent mp w Directory); auto).
  assert (HRl : resolve lf w = Absent).
  { unfold lf. rewrite resolve_Join, (resolve_Found _ _ _ Hs). fold lf.
    now rewrite Hl. }
  set (wl := set_files (insert lf (Regular 0 0)) w).
  assert (Hmpl : resolve mp wl = Absent).
  { rewrite <- Hmp. apply insert_keeps_resolve_other; [done| |].
    - left. intros E. rewrite <- E in Hmpd. unfold lookup_node in Hmpd.
      unfold lf in *. destruct (filepath_Join (StateDir vol) lease) eqn:E';
        [now apply Join_not_root in E'|congruence].
    - intros E. rewrite <- E in Hmpd. unfold lookup_node in Hmpd.
      unfold lf in *. destruct (filepath_Join (StateDir vol) lease) eqn:E';
        [now apply Join_not_root in E'|congruence]. }
  assert (Hw2 : set_files (insert mp Directory) wl = w2).
  { unfold wl, w2, w1, set_files. cbn [files mounts trace]. f_equal.
    now apply insert_insert_ne. }
  assert (HRl2 : forall c, resolve lf (log c w2) = Found (Regular 0 0)).
  { intros c. unfold lf. rewrite resolve_Join, lookup_node_log.
    assert (Hd : lookup_node (StateDir vol) w2 = Some Directory).
    { unfold w2. apply insert_keeps_directory.
      - unfold w1. cbn [set_files files]. rewrite lookup_insert_ne by done.
        fold lf. rewrite Hl. discriminate.
      - apply resolve_Found in Hs. unfold lookup_node in *.
        destruct (StateDir vol) as [|c' d'] eqn:E; [reflexivity|].
        unfold w1. cbn [set_files files].
        destruct (decide (mp = c' :: d')) as [->|Hx].
        + now rewrite lookup_insert_eq.
        + now rewrite lookup_insert_ne. }
    rewrite Hd. cbn [log files]. unfold w2. cbn [set_files files]. fold lf.
    now rewrite lookup_insert_eq. }
  unfold Mount_lease. io. fold lf mp. unfold os.Stat, os.Create. rewrite HRl.
  cbn [not_nil is_nil negb andb os_IsNotExist fst snd]. rewrite HRl.
  cbn [not_nil is_nil negb andb]. fold wl.
  unfold os.Mkdir. rewrite Hmpl. cbn [not_nil is_nil negb errors_Wrapf].
  rewrite Hw2. unfold exec_Command, mounting. fold mp.
  destruct (run host _ w2) as [|output partial];
    cbn [not_nil is_nil negb errors_Wrapf fst snd effect partial_effect];
    [reflexivity|].
  rewrite (Remove_file lf _ 0 0 (Join_not_root _ _) (HRl2 _)). cbn [fst snd].
  f_equal. unfold w2, w1, log, set_files. cbn [files mounts trace]. f_equal.
  rewrite delete_insert_id; [reflexivity|].
  now rewrite lookup_insert_ne.
Qed.

(** With separate directories, a state directory and a mount point are not
    inside one another, and no lease file is a mount point. *)
Lemma separate_state_mount m name name' :
  separate m ->
  ¬ filepath_Join (mountDir m) name' `prefix_of` filepath_Join (stateDir m) name /\
  ¬ filepath_Join (stateDir m) name `prefix_of` filepath_Join (mountDir m) name' /\
  ¬ filepath_Join (stateDir m) name `prefix_of` mountDir m /\
  forall lease, filepath_Join (filepath_Join (stateDir m) name) lease
                <> filepath_Join (mountDir m) name'.
Proof.
  intros (_ & _ & _ & _ & Hsm & Hms). repeat split.
  - intros E. apply Hms. apply prefix_of_Join in E as [E|E].
    + apply Join_inj in E as [-> _]. reflexivity.
    + now apply Join_prefix_of in E.
  - intros E. apply Hsm. apply prefix_of_Join in E as [E|E].
    + apply Join_inj in E as [-> _]. reflexivity.
    + now apply Join_prefix_of in E.
  - intros E. apply Hsm. now apply Join_prefix_of in E.
  - intros lease E. apply Join_inj in E as [E _]. apply Hsm. rewrite <- E.
    now exists [name].
Qed.

(** [Mount] for the first lease of a volume whose mount point is not there:
    the state directory is made if it is missing, the lease file and the
    mount point are made, and [mount] decides. *)
Lemma Mount_first m name lease w vol :
  separate m -> well_formed w ->
  validateName name = None ->
  getVolume m name w = ((vol, None), w) ->
  listLeases vol w = [] ->
  fst (os.MkdirAll (StateDir vol) w) = None ->
  resolve (MountPointPath vol) w = Absent ->
  let w0 := snd (os.MkdirAll (StateDir vol) w) in
  let w1 := set_files (insert (MountPointPath vol) Directory) w0 in
  let w2 := set_files (insert (filepath_Join (StateDir vol) lease) (Regular 0 0))
              w1 in
  resolve (StateDir vol) w0 = Found Directory /\
  (forall x, files w0 !! filepath_Join (StateDir vol) x = None) /\
  resolve (MountPointPath vol) w0 = Absent /\
  Mount host m name lease w =
  match run host (mounting vol) w2 with
  | Exit0 =>
      ((MountPointPath vol, None),
       set_mounts (fun ms => {[MountPointPath vol]} ∪ ms)
         (log (mounting vol) w2))
  | Failed _ _ =>
      (([], Some (Wrap ExitError msg_mount_failed)), log (mounting vol) w1)
  end.
Proof.
  intros Hsep Hwf Hn Hv Hl Hok Hmp w0 w1 w2. subst w1 w2.
  destruct (getVolume_fields m name w vol Hv) as (_ & HSD & HMP & _).
  assert (Hne : StateDir vol <> []) by (rewrite HSD; apply Join_not_root).
  destruct (separate_state_mount m name name Hsep) as (Hms & Hsm & Hsd & Hlm).
  assert (Hs0 : resolve (StateDir vol) w0 = Found Directory)
    by now apply MkdirAll_resolves.
  assert (Hl0 : forall x, files w0 !! filepath_Join (StateDir vol) x = None).
  { intros x.
    destruct (MkdirAll_writes (StateDir vol) w
                (filepath_Join (StateDir vol) x)) as [H|[H _]].
    - unfold w0. rewrite H. now apply no_lease_no_entry.
    - now apply Join_not_prefix in H. }
  assert (Hmp0 : resolve (MountPointPath vol) w0 = Absent).
  { rewrite <- Hmp. apply resolve_of_lookups; intros Hx.
    - destruct (MkdirAll_writes (StateDir vol) w (MountPointPath vol))
        as [H|[H _]]; [assumption|].
      rewrite HSD, HMP in H. contradiction.
    - destruct (MkdirAll_writes (StateDir vol) w
                  (filepath_Dir (MountPointPath vol))) as [H|[_ H]];
        [assumption|].
      assert (Hq : MountPointPath vol <> [])
        by (rewrite HMP; apply Join_not_root).
      pose proof (resolve_parent _ w Directory Hq (or_intror Hmp)) as Hd.
      unfold lookup_node in Hd.
      destruct (filepath_Dir (MountPointPath vol)); congruence. }
  repeat (split; [assumption|]).
  rewrite (Mount_unfold host m name lease w vol Hn Hv). io.
  rewrite IsMounted_cases. unfold os.Stat.
  pose proof (Mount_lease_fresh vol lease w0 Hs0 (Hl0 lease) Hmp0) as Hrest.
  cbv zeta in Hrest. rewrite <- Hrest by (rewrite HSD, HMP; apply Hlm).
  clear Hrest Hs0 Hl0 Hmp0. subst w0.
  destruct (MkdirAll_ok_cases _ w Hok) as [Hs|Hs].
  - rewrite (MkdirAll_existing _ w Hwf Hs). rewrite Hs, Hl.
    rewrite bool_decide_eq_true_2 by reflexivity.
    cbn [negb not_nil is_nil andb os_IsNotExist fst snd]. rewrite Hs.
    cbn [negb not_nil is_nil andb os_IsNotExist fst snd]. reflexivity.
  - destruct Hs as [Hs|Hs]; rewrite Hs;
      cbn [negb not_nil is_nil andb os_IsNotExist fst snd]; rewrite Hs;
      cbn [negb not_nil is_nil andb os_IsNotExist fst snd];
      destruct (os.MkdirAll (StateDir vol) w) as [err w1];
      cbn [fst snd] in *; subst err; reflexivity.
Qed.

Lemma Remove_not_directory p w n :
  p <> [] -> resolve p w = Found n -> n <> Directory ->
  os.Remove p w = (None, set_files (delete p) w).
Proof.
  intros Hp HR Hn. unfold os.Remove. destruct p; [done|]. rewrite HR.
  now destruct n.
Qed.

Lemma delete_keeps_resolve d b w :
  resolve d (set_files (delete (filepath_Join d b)) w) = resolve d w.
Proof.
  apply resolve_of_lookups; intros _; cbn [set_files files];
    apply lookup_delete_ne; intros E; apply (Join_not_prefix d b); rewrite E;
    [reflexivity|apply Dir_prefix_of].
Qed.

(** [UnMount] of the only lease: the lease file and the state directory go,
    and [umount] decides whether the mount point goes too. *)
Lemma UnMount_last m name lease w vol :
  validateName name = None ->
  getVolume m name w = ((vol, None), w) ->
  listLeases vol w = [lease] ->
  files w !! filepath_Join (StateDir vol) lease <> Some Directory ->
  let w1 := set_files (filter (fun kn => ¬ StateDir vol `prefix_of` fst kn))
              (set_files (delete (filepath_Join (StateDir vol) lease)) w) in
  UnMount host m name lease w =
  match run host (unmounting vol) w1 with
  | Exit0 =>
      (None,
       set_files (filter (fun kn => ¬ MountPointPath vol `prefix_of` fst kn))
         (set_mounts (fun ms => ms ∖ {[MountPointPath vol]})
            (log (unmounting vol) w1)))
  | Failed _ _ =>
      (Some (Wrap ExitError msg_unmount_failed), log (unmounting vol) w1)
  end.
Proof.
  intros Hn Hv Hl Hnd w1.
  set (lf := filepath_Join (StateDir vol) lease) in *.
  assert (Hin : lease ∈ listLeases vol w) by (rewrite Hl; left).
  apply elem_of_listLeases in Hin as [Hs [n Hf]]. fold lf in Hf.
  assert (HRl : resolve lf w = Found n).
  { unfold lf. rewrite resolve_Join, (resolve_Found _ _ _ Hs). fold lf.
    now rewrite Hf. }
  set (wd := set_files (delete lf) w) in *.
  assert (Hsd : resolve (StateDir vol) wd = Found Directory).
  { unfold wd, lf. now rewrite delete_keeps_resolve. }
  assert (Hld : listLeases vol wd = []).
  { destruct (listLeases vol wd) as [|l ls] eqn:E; [reflexivity|exfalso].
    assert (Hx : l ∈ listLeases vol wd) by (rewrite E; left).
    apply elem_of_listLeases in Hx as [_ [x Hx]].
    unfold wd in Hx. cbn [set_files files] in Hx.
    apply lookup_delete_Some in Hx as [Hne Hx].
    assert (Hy : l ∈ listLeases vol w) by (apply elem_of_listLeases; eauto).
    rewrite Hl in Hy. apply list_elem_of_singleton in Hy. subst l.
    now apply Hne. }
  unfold UnMount. io. rewrite Hn. cbn [not_nil is_nil negb]. rewrite Hv.
  cbn [not_nil is_nil negb]. fold lf.
  rewrite (Remove_not_directory lf w n (Join_not_root _ _) HRl)
    by congruence.
  cbn [not_nil is_nil negb]. fold wd. rewrite IsMounted_cases, Hsd, Hld.
  rewrite bool_decide_eq_true_2 by reflexivity.
  cbn [not_nil is_nil negb os.RemoveAll]. fold w1.
  unfold exec_Command, unmounting.
  destruct (run host _ w1) as [|output partial];
    cbn [not_nil is_nil negb errors_Wrapf fst snd effect partial_effect];
    reflexivity.
Qed.

End FirstAndLast.

(** ** When mount or umount fails *)

Section Blocked.

Lemma getVolume_after m name w w' vol :
  same_entries (dataDir m) w w' ->
  getVolume m name w = ((vol, None), w) ->
  getVolume m name w' = ((vol, None), w').
Proof.
  intros H Hv. apply injective_projections; [|apply getVolume_world].
  rewrite (getVolume_same_entries m name w w' H). now rewrite Hv.
Qed.

Lemma no_entries_no_leases vol w :
  (forall x, files w !! filepath_Join (StateDir vol) x = None) ->
  listLeases vol w = [].
Proof.
  intros H. destruct (listLeases vol w) as [|l ls] eqn:E; [reflexivity|].
  assert (Hx : l ∈ listLeases vol w) by (rewrite E; left).
  apply elem_of_listLeases in Hx as [_ [x Hx]]. rewrite H in Hx. discriminate.
Qed.


Lemma resolve_log c p w : resolve p (log c w) = resolve p w.
Proof. now apply resolve_files. Qed.

Lemma listLeases_files vol w w' :
  files w' = files w -> listLeases vol w' = listLeases vol w.
Proof.
  intros H. unfold listLeases, os.ReadDir, children.
  rewrite (resolve_files _ w w' H), H.
  now destruct (resolve (StateDir vol) w) as [[]| |].
Qed.


End Blocked.



Section FailedUtilities.

Variable host : Host.



End FailedUtilities.





(** ** Mount, then UnMount *)

Section RoundTrip.

Variable host : Host.





End RoundTrip.



(** ** Create, then Get *)

Section CreateThenGet.

Variable host : Host.

Lemma append_inv_head s : forall t u, s +:+ t = s +:+ u -> t = u.
Proof.
  induction s as [|c s IH]; intros t u H; [exact H|].
  rewrite !append_String in H. injection H as H. now apply IH.
Qed.

Lemma MkFsOptions_dotless fs flags :
  MkFsOptions !! fs = Some flags -> dotless fs = true.
Proof.
  unfold MkFsOptions. intros H.
  apply lookup_insert_Some in H as [[<- _]|[_ H]]; [reflexivity|].
  apply lookup_insert_Some in H as [[<- _]|[_ H]]; [reflexivity|].
  now rewrite lookup_empty in H.
Qed.

Lemma two_members {A} (l : list A) x y :
  x ∈ l -> y ∈ l -> x <> y -> exists a b k, l = a :: b :: k.
Proof.
  destruct l as [|a [|b k]]; intros Hx Hy Hne.
  - now apply elem_of_nil in Hx.
  - apply list_elem_of_singleton in Hx, Hy. congruence.
  - eauto.
Qed.

(** What [getVolume] answers for a valid name from the entries called
    [name.] and something. *)
Lemma getVolume_of_entries m name w fs n :
  validateName name = None ->
  resolve (dataDir m) w = Found Directory ->
  files w !! filepath_Join (dataDir m) (name +:+ "." +:+ fs) = Some n ->
  ((forall ext, ext <> fs ->
      files w !! filepath_Join (dataDir m) (name +:+ "." +:+ ext) = None) ->
   getVolume m name w
     = (resolved m name (filepath_Join (dataDir m) (name +:+ "." +:+ fs)) w, w))
  /\
  (forall ext, ext <> fs ->
     files w !! filepath_Join (dataDir m) (name +:+ "." +:+ ext) <> None ->
     getVolume m name w = ((noVolume, Some (New msg_ambiguous)), w)).
Proof.
  intros Hn Hd Hp. rewrite getVolume_cases.
  set (pat := path_append (filepath_Join (dataDir m) name) ".*").
  set (p := filepath_Join (dataDir m) (name +:+ "." +:+ fs)) in *.
  pose proof (Glob_of_validated_name m name w) as HG. fold pat in HG.
  assert (Hin : p ∈ fst (fst (os.Glob pat w))).
  { apply HG; [assumption|]. split; [assumption|]. now exists fs, n. }
  split.
  - intros Hnone.
    rewrite (singleton_of_NoDup (fst (fst (os.Glob pat w))) p);
      [reflexivity|apply NoDup_Glob|].
    intros q. split; [|now intros ->].
    intros Hq. apply HG in Hq as (_ & ext & x & -> & Hx); [|assumption].
    destruct (decide (ext = fs)) as [->|Hne]; [reflexivity|].
    rewrite Hnone in Hx by assumption. discriminate.
  - intros ext Hne Hsome.
    destruct (files w !! filepath_Join (dataDir m) (name +:+ "." +:+ ext))
      as [x|] eqn:Hx; [|congruence].
    assert (Hin' : filepath_Join (dataDir m) (name +:+ "." +:+ ext)
                     ∈ fst (fst (os.Glob pat w))).
    { apply HG; [assumption|]. split; [assumption|]. now exists ext, x. }
    destruct (two_members _ _ _ Hin Hin') as (a & b & k & ->); [|reflexivity].
    unfold p. intros E. apply Join_inj in E as [_ E].
    apply append_inv_head, append_inv_head in E. congruence.
Qed.

Lemma write_file_other p n w q :
  q <> p -> files (write_file p n w) !! q = files w !! q.
Proof.
  intros Hq. unfold write_file.
  destruct (files w !! p) as [[]|]; cbn [set_files files];
    rewrite ?lookup_insert_ne by done; reflexivity.
Qed.

Lemma write_file_keeps_resolve p n w d :
  resolve d w = Found Directory ->
  resolve d (write_file p n w) = Found Directory.
Proof.
  intros Hd. unfold write_file.
  destruct (files w !! p) as [[]|] eqn:E; try assumption;
    apply insert_keeps_resolve; congruence.
Qed.

Lemma write_file_tools p n w :
  trace (write_file p n w) = trace w /\ mounts (write_file p n w) = mounts w.
Proof. unfold write_file. now destruct (files w !! p) as [[]|]. Qed.

Lemma allocated_bytes size :
  0 <= size <= 2 ^ 63 - 512 ->
  uint64 (int64 (blocks_for size * 512)) = 512 * blocks_for size /\
  uint64 size = size /\
  size <= 512 * blocks_for size < size + 512.
Proof.
  intros Hs. unfold uint64, int64, blocks_for.
  pose proof (Z.mul_div_le (size + 511) 512 ltac:(lia)) as H1.
  pose proof (Z.mul_succ_div_gt (size + 511) 512 ltac:(lia)) as H2.
  assert (H3 : 0 <= (size + 511) / 512) by (apply Z.div_pos; lia).
  rewrite (Z.mod_small ((size + 511) / 512 * 512 + 2 ^ 63)) by lia.
  rewrite !Z.mod_small by lia. lia.
Qed.


End CreateThenGet.



(** ** When Create fails *)

Section CreateFails.

Variable host : Host.
Variable m : Manager.
Variable name b : string.

Local Abbreviation p := (filepath_Join (dataDir m) b).
Local Abbreviation ready := (ready_for m b).
Local Abbreviation target := written_file.

Lemma ready_write_file n w :
  n <> Directory -> ready w -> ready (write_file p n w).
Proof.
  intros Hn [Hd Hp]. split; [now apply write_file_keeps_resolve|].
  rewrite write_file_lookup by assumption. congruence.
Qed.

Lemma ready_files w w' : files w' = files w -> ready w -> ready w'.
Proof.
  intros H [Hd Hp]. split; [now rewrite (resolve_files _ w w' H)|].
  now rewrite H.
Qed.

Lemma ready_exec c w :
  (forall q, target c = Some q -> q = p) ->
  ready w -> ready (snd (exec_Command host c w)).
Proof.
  intros Hc Hr. unfold exec_Command.
  assert (Hl : ready (log c w)) by now apply (ready_files w).
  destruct (run host c w) as [|output partial]; cbn [snd].
  - destruct c; cbn [effect written_file] in *;
      try rewrite (Hc _ eq_refl);
      try (apply ready_write_file; [discriminate|assumption]);
      try assumption; now apply (ready_files (log _ w)).
  - destruct c, partial as [k|]; cbn [partial_effect written_file] in *;
      try rewrite (Hc _ eq_refl);
      try (apply ready_write_file; [discriminate|assumption]);
      assumption.
Qed.

Lemma ready_same_entries w w' :
  same_entries (dataDir m) w w' -> ready w -> ready w'.
Proof.
  intros [H1 H2] [Hd Hp]. split; [congruence|]. now rewrite H2.
Qed.

(** Removing the data file of a world that is ready leaves none. *)
Lemma ready_Remove w : ready w -> files (snd (os.Remove p w)) !! p = None.
Proof.
  intros [Hd Hp]. unfold os.Remove.
  pose proof (resolve_Join (dataDir m) b w) as HR.
  rewrite (resolve_Found _ _ _ Hd) in HR.
  assert (Hp0 : p <> []) by apply Join_not_root.
  destruct p as [|c l] eqn:E; [done|]. rewrite HR.
  destruct (files w !! (c :: l)) as [[]|] eqn:Ef; cbn [snd set_files files];
    rewrite ?lookup_delete_eq; congruence.
Qed.

Lemma Create_allocate_fails sizeInBytes sparse w :
  ready w ->
  let r := Create_allocate host sizeInBytes sparse p w in
  (fst r <> None -> files (snd r) !! p = None) /\
  (fst r = None -> ready (snd r)).
Proof.
  intros Hr. unfold Create_allocate. io. destruct sparse.
  - pose proof (ready_exec (truncate sizeInBytes p) w
                  ltac:(now intros q [= <-]) Hr) as H1.
    destruct (exec_Command host (truncate sizeInBytes p) w)
      as [[out [e|]] w1]; cbn [not_nil is_nil negb fst snd] in *.
    + pose proof (ready_Remove w1 H1) as H2.
      destruct (os.Remove p w1) as [e' w2]. cbn [fst snd] in *.
      split; [auto|discriminate].
    + split; [congruence|auto].
  - pose proof (ready_exec (fallocate sizeInBytes p) w
                  ltac:(now intros q [= <-]) Hr) as H1.
    destruct (exec_Command host (fallocate sizeInBytes p) w)
      as [[out [e|]] w1]; cbn [not_nil is_nil negb fst snd] in *.
    + destruct (GoString.Contains _ _).
      * pose proof (ready_Remove w1 H1) as H2.
        destruct (os.Remove p w1) as [e' w2]. cbn [fst snd] in *.
        split; [auto|discriminate].
      * set (fill := dd p _ _).
        pose proof (ready_exec fill w1 ltac:(now intros q [= <-]) H1) as H3.
        destruct (exec_Command host fill w1) as [[out' [e'|]] w2];
          cbn [not_nil is_nil negb fst snd] in *.
        -- pose proof (ready_Remove w2 H3) as H4.
           destruct (os.Remove p w2) as [e'' w3]. cbn [fst snd] in *.
           split; [auto|discriminate].
        -- split; [congruence|auto].
    + split; [congruence|auto].
Qed.

Lemma Create_adjust_fails uid gid mode w :
  separate m -> ready w ->
  let r := Create_adjust host m name p uid gid mode w in
  fst r <> None -> files (snd r) !! p = None.
Proof.
  intros Hsep Hr. unfold Create_adjust. io.
  destruct ((0 <=? uid) || (0 <=? gid) || (0 <? mode)); [|now cbn].
  pose proof (ready_same_entries w _
                (Mount_keeps_data_directory host m name "driver" w Hsep) Hr)
    as H1.
  destruct (Mount host m name "driver" w) as [[mountPath [e|]] w1];
    cbn [not_nil is_nil negb fst snd] in *.
  { pose proof (ready_Remove w1 H1) as H2.
    destruct (os.Remove p w1) as [e' w2]. cbn [fst snd] in *. auto. }
  assert (Hun : forall w2, ready w2 ->
            files (snd (os.Remove p (snd (UnMount host m name "driver" w2))))
              !! p = None).
  { intros w2 H2. apply ready_Remove.
    apply (ready_same_entries w2); [|assumption].
    now apply UnMount_keeps_data_directory. }
  assert (Hend : forall w2, ready w2 ->
            let r := (err ← UnMount host m name "driver";
                      if not_nil err then
                        _ ← os.Remove p;
                        mret (errors_Wrapf err msg_create_unmount) else
                      mret None) w2 in
            fst r <> None -> files (snd r) !! p = None).
  { intros w2 H2. io.
    pose proof (ready_same_entries w2 _
                  (UnMount_keeps_data_directory host m name "driver" w2 Hsep)
                  H2) as H3.
    destruct (UnMount host m name "driver" w2) as [[e|] w3];
      cbn [not_nil is_nil negb fst snd] in *; [|congruence].
    pose proof (ready_Remove w3 H3) as H4.
    destruct (os.Remove p w3) as [e' w4]. cbn [fst snd] in *. auto. }
  assert (Hown : forall w2, ready w2 ->
            let r := (err ← (if (0 <=? uid) || (0 <=? gid) then
                               err ← os_Chown host mountPath uid gid;
                               if not_nil err then
                                 _ ← UnMount host m name "driver";
                                 _ ← os.Remove p;
                                 mret (errors_Wrapf err msg_create_chown) else
                               mret None
                             else mret None);
                      if not_nil err then mret err else
                      err ← UnMount host m name "driver";
                      if not_nil err then
                        _ ← os.Remove p;
                        mret (errors_Wrapf err msg_create_unmount) else
                      mret None) w2 in
            fst r <> None -> files (snd r) !! p = None).
  { intros w2 H2. io.
    destruct ((0 <=? uid) || (0 <=? gid)); cbn [not_nil is_nil negb];
      [|apply (Hend w2 H2)].
    unfold os_Chown.
    destruct (chown_err host mountPath uid gid w2) as [e|];
      cbn [not_nil is_nil negb]; [|apply (Hend w2 H2)].
    specialize (Hun w2 H2).
    destruct (UnMount host m name "driver" w2) as [e1 w3]. cbn [snd] in *.
    destruct (os.Remove p w3) as [e2 w4]. cbn [fst snd] in *. auto. }
  destruct (0 <? mode); cbn [not_nil is_nil negb]; [|apply (Hown w1 H1)].
  pose proof (ready_exec (chmod mode mountPath) w1
                ltac:(intros q; discriminate) H1) as H2.
  destruct (exec_Command host (chmod mode mountPath) w1)
    as [[out [e|]] w2]; cbn [not_nil is_nil negb fst snd] in *;
    [|apply (Hown w2 H2)].
  specialize (Hun w2 H2).
  destruct (UnMount host m name "driver" w2) as [e1 w3]. cbn [snd] in *.
  destruct (os.Remove p w3) as [e2 w4]. cbn [fst snd] in *. auto.
Qed.

End CreateFails.

(** Once the data directory is in place, a [Create] that fails leaves no
    data file behind, whichever step failed: the allocation, [mkfs], or the
    mount, [chmod], [chown] or unmount that adjust owner and mode.  This
    holds also when the data file was there before the call: a failed
    [Create] of a volume that exists removes its data. *)
Theorem failed_Create_leaves_no_data_file
  (host : Host) (m : Manager) (name : string) (sizeInBytes : Z) (sparse : bool)
  (fs : string) (uid gid mode : Z) (w : World) (mkfsFlags : list string) :
  let p := filepath_Join (dataDir m) (name +:+ "." +:+ fs) in
  separate m ->
  validateName name = None ->
  10000000 <= sizeInBytes ->
  MkFsOptions !! fs = Some mkfsFlags ->
  fst (os.MkdirAll (dataDir m) w) = None ->
  files w !! p <> Some Directory ->
  let r := Create host m name sizeInBytes sparse fs uid gid mode w in
  fst r <> None -> files (snd r) !! p = None.
Proof.
  intros p Hsep Hn Hsize Hfs Hok Hp r. subst r.
  rewrite (Create_allocates host m name sizeInBytes sparse fs uid gid mode w
             mkfsFlags Hn Hsize Hfs Hok).
  fold p. io.
  set (w1 := snd (os.MkdirAll (dataDir m) w)).
  assert (H1 : ready_for m (name +:+ "." +:+ fs) w1).
  { split; [now apply MkdirAll_resolves|]. fold p.
    destruct (MkdirAll_writes (dataDir m) w p) as [H|[H _]].
    - fold w1 in H. now rewrite H.
    - now apply Join_not_prefix in H. }
  destruct (Create_allocate_fails host m (name +:+ "." +:+ fs) sizeInBytes
              sparse w1 H1) as [Hfail Hgo].
  fold p in Hfail, Hgo.
  destruct (Create_allocate host sizeInBytes sparse p w1) as [[e|] w2];
    cbn [not_nil is_nil negb fst snd] in *.
  { intros _. now apply Hfail. }
  specialize (Hgo eq_refl).
  pose proof (ready_exec host m (name +:+ "." +:+ fs) (mkfs fs mkfsFlags p) w2
                ltac:(intros q; discriminate) Hgo) as H3.
  destruct (exec_Command host (mkfs fs mkfsFlags p) w2) as [[out [e|]] w3];
    cbn [not_nil is_nil negb fst snd] in *.
  - pose proof (ready_Remove m (name +:+ "." +:+ fs) w3 H3) as H4.
    fold p in H4. destruct (os.Remove p w3) as [e' w4]. cbn [fst snd] in *.
    auto.
  - apply (Create_adjust_fails host m name (name +:+ "." +:+ fs) uid gid mode
             w3 Hsep H3).
Qed.

Lemma failed_Create_leaves_no_data_file_witness :
  let r := Create without_mount plugin "db" 50000000 false "ext4" 1000 1000 0
             fresh in
  fst r = Some (Wrap (Wrap ExitError msg_mount_failed) msg_create_mount) /\
  files (snd r) !! filepath_Join (dataDir plugin) "db.ext4" = None.
Proof.
  cbv zeta. split; [vm_compute; reflexivity|].
  apply (failed_Create_leaves_no_data_file without_mount plugin "db" 50000000
           false "ext4" 1000 1000 0 fresh ["-F"] plugin_separate).
  - reflexivity.
  - lia.
  - reflexivity.
  - vm_compute; reflexivity.
  - vm_compute. discriminate.
  - vm_compute. discriminate.
Defined.

(** ** List *)

Section ListFacts.

Lemma length_append s t :
  String.length (s +:+ t) = (String.length s + String.length t)%nat.
Proof.
  induction s as [|c s IH]; [reflexivity|].
  rewrite append_String. cbn [String.length]. now rewrite IH.
Qed.

Lemma substring_all s : substring 0 (String.length s) s = s.
Proof. induction s as [|c s IH]; [reflexivity|]. cbn. now rewrite IH. Qed.

Lemma substring_head s t : substring 0 (String.length s) (s +:+ t) = s.
Proof.
  induction s as [|c s IH]; [now destruct t|].
  rewrite append_String. cbn [String.length substring]. now rewrite IH.
Qed.

Lemma substring_tail s t :
  substring (String.length s) (String.length t) (s +:+ t) = t.
Proof.
  induction s as [|c s IH]; [apply substring_all|].
  rewrite append_String. cbn [String.length substring]. exact IH.
Qed.

Lemma TrimSuffix_append s suffix :
  strings_TrimSuffix (s +:+ suffix) suffix = s.
Proof.
  unfold strings_TrimSuffix, strings_HasSuffix. rewrite length_append.
  replace (String.length s + String.length suffix - String.length suffix)%nat
    with (String.length s) by lia.
  rewrite substring_tail, String.eqb_refl, substring_head.
  now rewrite (proj2 (Nat.leb_le _ _)) by lia.
Qed.

(** The name [List] reads off a data file [name.fs]. *)
Lemma stem_of_data_file name fs :
  dotless fs = true ->
  strings_TrimSuffix (name +:+ "." +:+ fs) (Ext (name +:+ "." +:+ fs)) = name.
Proof.
  intros Hfs. rewrite (Ext_data_file name fs Hfs). apply TrimSuffix_append.
Qed.


(** The volume [List] reports for an entry, if it reports one. *)
Lemma List_loop_ok m w files : forall vols,
  (forall b n, (b, n) ∈ files -> IsRegular n = true ->
     snd (fst (getVolume m (strings_TrimSuffix b (Ext b)) w)) = None) ->
  List_loop m files vols w =
  ((vols ++ omap (fun file : string * node =>
                    if IsRegular (snd file)
                    then Some (fst (fst (getVolume m
                           (strings_TrimSuffix (fst file) (Ext (fst file))) w)))
                    else None) files, None), w).
Proof.
  induction files as [|[b n] files IH]; intros vols H.
  - cbn. now rewrite app_nil_r.
  - cbn [List_loop fst snd omap list_omap]. destruct (IsRegular n) eqn:Hr.
    + io. pose proof (H b n ltac:(left) Hr) as He.
      pose proof (getVolume_world m (strings_TrimSuffix b (Ext b)) w) as Hw.
      destruct (getVolume m (strings_TrimSuffix b (Ext b)) w)
        as [[vol err] w0]. cbn [fst snd] in *. subst err w0.
      cbn [not_nil is_nil negb]. rewrite IH.
      * rewrite <- app_assoc. reflexivity.
      * intros b' n' Hin. apply H. now right.
    + apply IH. intros b' n' Hin. apply H. now right.
Qed.


Lemma elem_of_ioutil_ReadDir d w b n :
  resolve d w = Found Directory ->
  (b, n) ∈ fst (fst (ioutil_ReadDir d w)) <->
  files w !! filepath_Join d b = Some n.
Proof.
  intros Hd. unfold ioutil_ReadDir, os.ReadDir. io. rewrite Hd.
  cbn [fst snd]. rewrite merge_sort_Permutation. apply elem_of_children.
Qed.

Lemma ioutil_ReadDir_ok d w :
  resolve d w = Found Directory ->
  snd (fst (ioutil_ReadDir d w)) = None /\ snd (ioutil_ReadDir d w) = w.
Proof.
  intros Hd. unfold ioutil_ReadDir, os.ReadDir. io. now rewrite Hd.
Qed.

Lemma NoDup_ioutil_ReadDir d w : NoDup (fst (fst (ioutil_ReadDir d w))).
Proof.
  unfold ioutil_ReadDir, os.ReadDir. io.
  destruct (resolve d w) as [[]| |e]; cbn [fst snd];
    rewrite merge_sort_Permutation; try constructor.
  apply NoDup_children.
Qed.

End ListFacts.

Section ListOfCleanDirectory.

Variable m : Manager.
Variable w : World.

Hypothesis Hd : resolve (dataDir m) w = Found Directory.
Hypothesis Hclean :
  forall b size blocks,
    files w !! filepath_Join (dataDir m) b = Some (Regular size blocks) ->
    exists name fs,
      b = name +:+ "." +:+ fs /\ validateName name = None /\
      dotless fs = true /\
      forall ext, ext <> fs ->
        files w !! filepath_Join (dataDir m) (name +:+ "." +:+ ext) = None.

Lemma clean_entry b size blocks :
  files w !! filepath_Join (dataDir m) b = Some (Regular size blocks) ->
  exists name vol,
    strings_TrimSuffix b (Ext b) = name /\ validateName name = None /\
    getVolume m name w = ((vol, None), w) /\
    DataFilePath vol = filepath_Join (dataDir m) b.
Proof.
  intros Hb. destruct (Hclean b size blocks Hb) as (name & fs & -> & Hn & Hfs & Hone).
  destruct (getVolume_of_entries m name w fs _ Hn Hd Hb) as [Hv _].
  specialize (Hv Hone). unfold resolved in Hv. rewrite Hb in Hv.
  eexists name, _. split; [now apply stem_of_data_file|].
  split; [assumption|]. split; [exact Hv|reflexivity].
Qed.

Lemma clean_List :
  let reported := fun file : string * node =>
    if IsRegular (snd file)
    then Some (fst (fst (getVolume m
                 (strings_TrimSuffix (fst file) (Ext (fst file))) w)))
    else None in
  List m w = ((omap reported (fst (fst (ioutil_ReadDir (dataDir m) w))), None), w).
Proof.
  intros reported. unfold List. io.
  destruct (ioutil_ReadDir_ok (dataDir m) w Hd) as [He Hw].
  pose proof (fun b n => elem_of_ioutil_ReadDir (dataDir m) w b n Hd) as Hin.
  destruct (ioutil_ReadDir (dataDir m) w) as [[files err] w0].
  cbn [fst snd] in *. subst err w0. cbn [not_nil is_nil negb].
  rewrite List_loop_ok; [reflexivity|].
  intros b n Hb Hr. apply Hin in Hb. destruct n; try discriminate.
  destruct (clean_entry b size blocks Hb) as (name & vol & -> & _ & -> & _).
  reflexivity.
Qed.

End ListOfCleanDirectory.

(** In a data directory where every regular file is the only data file of a
    valid name, [List] succeeds and reports exactly the volumes [Get]
    resolves, each once. *)
Theorem List_reports_what_Get_resolves (m : Manager) (w : World) :
  resolve (dataDir m) w = Found Directory ->
  (forall b size blocks,
     files w !! filepath_Join (dataDir m) b = Some (Regular size blocks) ->
     exists name fs,
       b = name +:+ "." +:+ fs /\ validateName name = None /\
       dotless fs = true /\
       forall ext, ext <> fs ->
         files w !! filepath_Join (dataDir m) (name +:+ "." +:+ ext) = None) ->
  snd (fst (List m w)) = None /\ snd (List m w) = w /\
  NoDup (fst (fst (List m w))) /\
  forall vol, vol ∈ fst (fst (List m w)) <->
              exists name, Get m name w = ((vol, None), w).
Proof.
  intros Hd Hclean. rewrite (clean_List m w Hd Hclean). cbv zeta. cbn [fst snd].
  pose proof (fun b n => elem_of_ioutil_ReadDir (dataDir m) w b n Hd) as Hin.
  pose proof (NoDup_ioutil_ReadDir (dataDir m) w) as Hnd.
  set (files := fst (fst (ioutil_ReadDir (dataDir m) w))) in *.
  split; [reflexivity|]. split; [reflexivity|]. split.
  - apply NoDup_omap_inj_on; [|assumption].
    intros [b1 n1] [b2 n2] vol H1 H2. cbn [fst snd].
    apply Hin in H1, H2.
    destruct n1 as [s1 k1| |]; try discriminate.
    destruct n2 as [s2 k2| |]; try discriminate.
    destruct (clean_entry m w Hd Hclean b1 s1 k1 H1)
      as (name1 & vol1 & -> & _ & -> & Hp1).
    destruct (clean_entry m w Hd Hclean b2 s2 k2 H2)
      as (name2 & vol2 & -> & _ & -> & Hp2).
    cbn [IsRegular fst]. intros [= <-] [= <-].
    rewrite Hp1 in Hp2. apply Join_inj in Hp2 as [_ <-]. congruence.
  - intros vol. rewrite list_elem_of_omap. split.
    + intros ([b n] & Hb & Hf). cbn [fst snd] in Hf. apply Hin in Hb.
      destruct n as [s k| |]; try discriminate.
      destruct (clean_entry m w Hd Hclean b s k Hb)
        as (name & vol' & Hstem & Hn & Hv & _).
      rewrite Hstem, Hv in Hf. cbn in Hf. injection Hf as <-.
      exists name. unfold Get. now rewrite Hn.
    + intros [name HG]. unfold Get in HG.
      destruct (validateName name) as [e|] eqn:Hn; [discriminate|].
      cbn [not_nil is_nil negb] in HG.
      destruct (getVolume_fields m name w vol HG)
        as (_ & _ & _ & _ & b & s & k & Hp & Hf).
      rewrite Hp in Hf. exists (b, Regular s k). split; [now apply Hin|].
      cbn [fst snd IsRegular].
      destruct (clean_entry m w Hd Hclean b s k Hf)
        as (name' & vol' & Hstem & Hn' & Hv' & Hp').
      assert (name' = name) as ->.
      { pose proof (getVolume_ok_matches m name w vol HG) as HM.
        assert (Hx : DataFilePath vol ∈ fst (fst (os.Glob
                  (path_append (filepath_Join (dataDir m) name) ".*") w)))
          by (rewrite HM; left).
        apply (Glob_of_validated_name m name w _ Hn) in Hx
          as (_ & ext & x & Hpe & _).
        rewrite Hp in Hpe. apply Join_inj in Hpe as [_ ->].
        destruct (Hclean _ s k Hf) as (name'' & fs & Hb & Hn'' & Hfs & _).
        pose proof (stem_of_data_file name'' fs Hfs) as Hs.
        rewrite <- Hb, Hstem in Hs. subst name''.
        apply dotless_split in Hb as [-> _]; auto using validateName_dotless. }
      rewrite Hstem, HG. reflexivity.
Qed.

Lemma List_reports_what_Get_resolves_witness :
  snd (fst (List plugin db_created)) = None /\
  forall vol, vol ∈ fst (fst (List plugin db_created)) <->
              exists name, Get plugin name db_created = ((vol, None), db_created).
Proof.
  destruct (List_reports_what_Get_resolves plugin db_created)
    as (H1 & _ & _ & H2).
  - vm_compute; reflexivity.
  - intros b size blocks E. exists "db", "ext4".
    assert (b = "db.ext4") as ->.
    { apply elem_of_map_to_list in E. revert E. vm_compute. intros E.
      repeat (apply elem_of_cons in E as [E|E];
              [try discriminate E; now injection E|]).
      now apply elem_of_nil in E. }
    repeat split. intros ext Hne.
    destruct (files db_created !! filepath_Join (dataDir plugin)
                ("db" +:+ "." +:+ ext)) as [n|] eqn:E2; [exfalso|reflexivity].
    apply elem_of_map_to_list in E2. revert E2. vm_compute. intros E2.
    repeat (apply elem_of_cons in E2 as [E2|E2];
            [try discriminate E2; injection E2 as E2 _; now apply Hne|]).
    now apply elem_of_nil in E2.
  - split; assumption.
Defined.

Section ListBreaks.



End ListBreaks.



(** * Properties of the driver *)

(** ** Decimal numbers *)

Section Decimal.

Lemma decimal_from_bound s : forall acc v,
  0 <= acc -> decimal_from s acc = Some v ->
  acc * 10 ^ Z.of_nat (String.length s) <= v
    < (acc + 1) * 10 ^ Z.of_nat (String.length s).
Proof.
  induction s as [|c s IH]; intros acc v Hacc H.
  - cbn in H. injection H as <-. cbn. lia.
  - cbn [decimal_from] in H. cbv zeta in H.
    destruct ((48 <=? Z.of_nat (nat_of_ascii c)) &&
              (Z.of_nat (nat_of_ascii c) <=? 57)) eqn:Hd; [|discriminate].
    apply andb_true_iff in Hd as [H1 H2].
    apply Z.leb_le in H1. apply Z.leb_le in H2.
    apply IH in H; [|lia].
    cbn [String.length]. rewrite Nat2Z.inj_succ, Z.pow_succ_r by lia.
    set (k := 10 ^ Z.of_nat (String.length s)) in *.
    assert (0 < k) by (apply Z.pow_pos_nonneg; lia).
    nia.
Qed.

Lemma byte_minus_0 c :
  let n := Z.of_nat (nat_of_ascii c) in
  (9 <? (n - 48) mod 256) = negb ((48 <=? n) && (n <=? 57)) /\
  ((48 <=? n) && (n <=? 57) = true -> (n - 48) mod 256 = n - 48).
Proof.
  cbv zeta. set (n := Z.of_nat (nat_of_ascii c)).
  assert (Hn : 0 <= n < 256).
  { unfold n. pose proof (nat_ascii_bounded c). lia. }
  destruct (Z_lt_ge_dec n 48) as [Hlt|Hge].
  - replace ((n - 48) mod 256) with (n + 208)
      by (apply (Z.mod_unique _ _ (-1)); lia).
    replace (48 <=? n) with false by (symmetry; apply Z.leb_gt; lia).
    split; [apply Z.ltb_lt; lia|discriminate].
  - rewrite Z.mod_small by lia.
    replace (48 <=? n) with true by (symmetry; apply Z.leb_le; lia).
    cbn [andb]. split; [|reflexivity].
    destruct (n <=? 57) eqn:E; cbn [negb].
    + apply Z.leb_le in E. apply Z.ltb_ge. lia.
    + apply Z.leb_gt in E. apply Z.ltb_lt. lia.
Qed.

(** The fast path of [Atoi] reads the decimal value as long as nothing can
    overflow. *)
Lemma Atoi_loop_decimal s : forall n,
  0 <= n -> (n + 1) * 10 ^ Z.of_nat (String.length s) <= 2 ^ 63 ->
  Atoi_loop s n = decimal_from s n.
Proof.
  induction s as [|c s IH]; intros n Hn Hb; [reflexivity|].
  cbn [Atoi_loop decimal_from]. cbv zeta.
  destruct (byte_minus_0 c) as [H1 H2]. cbv zeta in H1, H2. rewrite H1.
  destruct ((48 <=? Z.of_nat (nat_of_ascii c)) &&
            (Z.of_nat (nat_of_ascii c) <=? 57)) eqn:Hd; cbn [negb];
    [|reflexivity].
  rewrite (H2 eq_refl).
  apply andb_true_iff in Hd as [H3 H4].
  apply Z.leb_le in H3. apply Z.leb_le in H4.
  set (d := Z.of_nat (nat_of_ascii c) - 48) in *.
  cbn [String.length] in Hb. rewrite Nat2Z.inj_succ, Z.pow_succ_r in Hb by lia.
  set (k := 10 ^ Z.of_nat (String.length s)) in *.
  assert (0 < k) by (apply Z.pow_pos_nonneg; lia).
  assert (E : int64 (n * 10 + d) = 10 * n + d).
  { unfold int64. rewrite Z.mod_small; [lia|]. nia. }
  rewrite E. apply IH; [lia|]. fold k. nia.
Qed.

Lemma digit_decimal c :
  let n := Z.of_nat (nat_of_ascii c) in
  match strconv.digit c with
  | Some d => if 10 <=? d then (48 <=? n) && (n <=? 57) = false
              else (48 <=? n) && (n <=? 57) = true /\ d = n - 48
  | None => (48 <=? n) && (n <=? 57) = false
  end.
Proof.
  unfold strconv.digit. cbv zeta.
  set (n := Z.of_nat (nat_of_ascii c)).
  destruct (48 <=? n) eqn:H1; destruct (n <=? 57) eqn:H2; cbn [andb];
    repeat match goal with
    | H : (_ <=? _) = true |- _ => apply Z.leb_le in H
    | H : (_ <=? _) = false |- _ => apply Z.leb_gt in H
    end.
  - replace (10 <=? n - 48) with false by (symmetry; apply Z.leb_gt; lia).
    split; reflexivity.
  - destruct ((97 <=? n) && (n <=? 122)) eqn:H3.
    + apply andb_true_iff in H3 as [H3 H4].
      apply Z.leb_le in H3. apply Z.leb_le in H4.
      now replace (10 <=? n - 97 + 10) with true
        by (symmetry; apply Z.leb_le; lia).
    + destruct ((65 <=? n) && (n <=? 90)) eqn:H4; [|reflexivity].
      apply andb_true_iff in H4 as [H4 H5].
      apply Z.leb_le in H4. apply Z.leb_le in H5.
      now replace (10 <=? n - 65 + 10) with true
        by (symmetry; apply Z.leb_le; lia).
  - destruct ((97 <=? n) && (n <=? 122)) eqn:H3.
    + apply andb_true_iff in H3 as [H3 H4]. apply Z.leb_le in H3. lia.
    + destruct ((65 <=? n) && (n <=? 90)) eqn:H4; [|reflexivity].
      apply andb_true_iff in H4 as [H4 H5]. apply Z.leb_le in H4. lia.
  - destruct ((97 <=? n) && (n <=? 122)) eqn:H3.
    + apply andb_true_iff in H3 as [H3 H4]. apply Z.leb_le in H3. lia.
    + destruct ((65 <=? n) && (n <=? 90)) eqn:H4; [|reflexivity].
      apply andb_true_iff in H4 as [H4 H5]. apply Z.leb_le in H4. lia.
Qed.

(** The loop of [ParseUint] in base 10 with 64 bits reads the decimal value,
    and fails exactly when there is none below [2^64]. *)
Lemma parse_loop_decimal s : forall n v,
  0 <= n <= 2 ^ 64 - 1 ->
  strconv.parse_loop 10 (strconv.maxUint64 / 10 + 1) (2 ^ 64 - 1) s n = (v, None)
  <-> decimal_from s n = Some v /\ v <= 2 ^ 64 - 1.
Proof.
  induction s as [|c s IH]; intros n v Hn.
  - cbn. split.
    + intros H. injection H as <-. split; [reflexivity|lia].
    + intros [H _]. injection H as <-. reflexivity.
  - cbn [strconv.parse_loop decimal_from]. cbv zeta.
    pose proof (digit_decimal c) as Hd. cbv zeta in Hd.
    destruct (strconv.digit c) as [d|].
    + destruct (10 <=? d) eqn:H10.
      * rewrite Hd. split; [discriminate|intros [? _]; discriminate].
      * destruct Hd as [Hd ->]. rewrite Hd.
        apply andb_true_iff in Hd as [H1 H2].
        apply Z.leb_le in H1. apply Z.leb_le in H2. apply Z.leb_gt in H10.
        set (k := Z.of_nat (nat_of_ascii c)) in *.
        unfold strconv.maxUint64.
        change ((2 ^ 64 - 1) / 10 + 1) with 1844674407370955162.
        change (2 ^ 64 - 1) with 18446744073709551615 in *.
        assert (Hlen : 0 < 10 ^ Z.of_nat (String.length s))
          by (apply Z.pow_pos_nonneg; lia).
        destruct (1844674407370955162 <=? n) eqn:Hcut.
        -- apply Z.leb_le in Hcut. split; [discriminate|].
           intros [Hv Hle]. apply decimal_from_bound in Hv; [|lia]. nia.
        -- apply Z.leb_gt in Hcut.
           assert (E1 : uint64 (n * 10) = n * 10).
           { unfold uint64. apply Z.mod_small. lia. }
           rewrite E1.
           destruct (Z_le_gt_dec (n * 10 + (k - 48)) 18446744073709551615)
             as [Hfit|Hover].
           ++ assert (E2 : uint64 (n * 10 + (k - 48)) = n * 10 + (k - 48)).
              { unfold uint64. apply Z.mod_small. lia. }
              rewrite E2.
              replace (n * 10 + (k - 48) <? n * 10) with false
                by (symmetry; apply Z.ltb_ge; lia).
              replace (18446744073709551615 <? n * 10 + (k - 48)) with false
                by (symmetry; apply Z.ltb_ge; lia).
              cbn [orb].
              replace (10 * n + (k - 48)) with (n * 10 + (k - 48)) by lia.
              apply IH. lia.
           ++ assert (E2 : uint64 (n * 10 + (k - 48))
                           = n * 10 + (k - 48) - 2 ^ 64).
              { unfold uint64. symmetry.
                apply (Z.mod_unique _ _ 1); lia. }
              rewrite E2.
              replace (n * 10 + (k - 48) - 2 ^ 64 <? n * 10) with true
                by (symmetry; apply Z.ltb_lt; lia).
              cbn [orb]. split; [discriminate|].
              intros [Hv Hle]. apply decimal_from_bound in Hv; [|lia]. nia.
    + rewrite Hd. split; [discriminate|intros [? _]; discriminate].
Qed.

Lemma ParseUint_decimal s v :
  strconv.ParseUint s 10 64 = (v, None)
  <-> decimal_value s = Some v /\ v <= 2 ^ 64 - 1.
Proof.
  unfold strconv.ParseUint, decimal_value. destruct s as [|c s].
  - cbn. split; [discriminate|intros [? _]; discriminate].
  - cbn [String.length Nat.eqb]. apply parse_loop_decimal. lia.
Qed.

Lemma decimal_value_nonneg s v : decimal_value s = Some v -> 0 <= v.
Proof.
  unfold decimal_value. destruct s as [|c s]; [discriminate|].
  intros H. apply decimal_from_bound in H; lia.
Qed.

End Decimal.

(** ** Atoi *)

Section Integers.

Lemma int64_small z : - 2 ^ 63 <= z < 2 ^ 63 -> int64 z = z.
Proof. intros H. unfold int64. rewrite Z.mod_small; lia. Qed.

Lemma ParseInt_core (neg : bool) s1 v :
  (let '(un, err) := strconv.ParseUint s1 10 64 in
   if not_nil err && negb (un =? 2 ^ 64 - 1) then (0, err) else
   let cutoff := uint64 (2 ^ (64 - 1)) in
   if negb neg && (cutoff <=? un) then (int64 (cutoff - 1), Some NumError)
   else if neg && (cutoff <? un) then (int64 (- int64 cutoff), Some NumError)
   else
     let n := int64 un in
     let n := if neg then int64 (- n) else n in
     (n, None)) = (v, None)
  <-> (if neg then Z.opp <$> decimal_value s1 else decimal_value s1) = Some v /\
      - 2 ^ 63 <= v <= 2 ^ 63 - 1.
Proof.
  assert (Hout : forall e un, strconv.ParseUint s1 10 64 = (un, Some e) ->
            forall u, decimal_value s1 = Some u -> 2 ^ 64 - 1 < u).
  { intros e un E u Hu. destruct (Z_le_gt_dec u (2 ^ 64 - 1)) as [Hle|Hgt]; [|lia].
    pose proof (proj2 (ParseUint_decimal s1 u) (conj Hu Hle)) as E'.
    congruence. }
  change (uint64 (2 ^ (64 - 1))) with 9223372036854775808.
  change (2 ^ 64 - 1) with 18446744073709551615 in *.
  change (2 ^ 63) with 9223372036854775808.
  destruct (strconv.ParseUint s1 10 64) as [un [e|]] eqn:E.
  - cbn [not_nil is_nil negb andb].
    assert (Hno : ~ ((if neg then Z.opp <$> decimal_value s1
                      else decimal_value s1) = Some v /\
                     - 9223372036854775808 <= v <= 9223372036854775808 - 1)).
    { intros [Hv Hr]. destruct (decimal_value s1) as [u|] eqn:Hu;
        [|destruct neg; discriminate].
      specialize (Hout e un eq_refl u eq_refl).
      destruct neg; cbn in Hv; injection Hv as <-; lia. }
    destruct (un =? 18446744073709551615) eqn:Hmax; cbn [negb].
    + apply Z.eqb_eq in Hmax. subst un.
      destruct neg; cbn [negb andb];
        (split; [discriminate|intros H; now apply Hno in H]).
    + split; [discriminate|intros H; now apply Hno in H].
  - apply ParseUint_decimal in E as [Hu Hle].
    pose proof (decimal_value_nonneg s1 un Hu) as H0.
    rewrite Hu. cbn [not_nil is_nil negb andb].
    destruct neg; cbn [negb andb fmap option_fmap option_map].
    + destruct (9223372036854775808 <? un) eqn:Hc.
      * apply Z.ltb_lt in Hc. split; [discriminate|].
        intros [[= <-] Hr]. lia.
      * apply Z.ltb_ge in Hc.
        assert (En : int64 (- int64 un) = - un).
        { destruct (Z.eq_dec un 9223372036854775808) as [->|Hne];
            [reflexivity|].
          rewrite (int64_small un), int64_small; lia. }
        rewrite En. split.
        -- intros [= <-]. split; [reflexivity|lia].
        -- intros [[= <-] _]. reflexivity.
    + destruct (9223372036854775808 <=? un) eqn:Hc.
      * apply Z.leb_le in Hc. split; [discriminate|].
        intros [[= <-] Hr]. lia.
      * apply Z.leb_gt in Hc. rewrite int64_small by lia. split.
        -- intros [= <-]. split; [reflexivity|lia].
        -- intros [[= <-] _]. reflexivity.
Qed.

(** [ParseInt] in base 10 with 64 bits reads an optional sign and the
    decimal digits, and fails exactly when there is no such number in the
    range of [int64]. *)
Lemma ParseInt_decimal s v :
  strconv_ParseInt s 10 64 = (v, None)
  <-> signed_decimal s = Some v /\ - 2 ^ 63 <= v <= 2 ^ 63 - 1.
Proof.
  unfold strconv_ParseInt, signed_decimal. destruct s as [|c r].
  - split; [discriminate|intros [? _]; discriminate].
  - cbv zeta.
    destruct (Ascii.eqb_spec c "+") as [->|Hp].
    + change (Ascii.eqb "+" "-") with false. cbn [orb].
      apply (ParseInt_core false).
    + destruct (Ascii.eqb_spec c "-") as [->|Hm]; cbn [orb].
      * apply (ParseInt_core true).
      * apply (ParseInt_core false).
Qed.

Lemma length_pow s :
  (String.length s <? 19)%nat = true ->
  10 ^ Z.of_nat (String.length s) <= 10 ^ 18.
Proof.
  intros H. apply Nat.ltb_lt in H. apply Z.pow_le_mono_r; lia.
Qed.

Lemma decimal_value_from s : s <> "" -> decimal_value s = decimal_from s 0.
Proof. now destruct s. Qed.

(** [Atoi] reads an optional sign and the decimal digits, and fails exactly
    when there is no such number in the range of [int]. *)
Lemma Atoi_decimal s v :
  strconv_Atoi s = (v, None)
  <-> signed_decimal s = Some v /\ - 2 ^ 63 <= v <= 2 ^ 63 - 1.
Proof.
  unfold strconv_Atoi. cbv zeta.
  destruct ((0 <? String.length s)%nat && (String.length s <? 19)%nat)
    eqn:Hlen; [|apply ParseInt_decimal].
  apply andb_true_iff in Hlen as [_ Hlen].
  destruct s as [|c r]; [split; [discriminate|intros [? _]; discriminate]|].
  assert (Hr : (String.length r <? 19)%nat = true).
  { apply Nat.ltb_lt. apply Nat.ltb_lt in Hlen. cbn [String.length] in Hlen. lia. }
  assert (Hfast : forall t, (String.length t <? 19)%nat = true ->
            Atoi_loop t 0 = decimal_from t 0).
  { intros t Ht. apply Atoi_loop_decimal; [lia|].
    pose proof (length_pow t Ht). lia. }
  assert (Hrange : forall t n, (String.length t <? 19)%nat = true ->
            decimal_from t 0 = Some n -> 0 <= n < 10 ^ 18).
  { intros t n Ht Hn. apply decimal_from_bound in Hn; [|lia].
    pose proof (length_pow t Ht). lia. }
  unfold signed_decimal.
  destruct (Ascii.eqb_spec c "-") as [->|Hm].
  - change (Ascii.eqb "-" "+") with false. cbn [orb andb].
    destruct r as [|c' r']; [cbn; split; [discriminate|intros [? _]; discriminate]|].
    change (String.length (String c' r') <? 1)%nat with false. cbv iota.
    rewrite (Hfast _ Hr), decimal_value_from by discriminate.
    destruct (decimal_from (String c' r') 0) as [n|] eqn:E;
      [|split; [discriminate|intros [? _]; discriminate]].
    pose proof (Hrange _ n Hr E).
    rewrite int64_small by lia. cbn [fmap option_fmap option_map]. split.
    + intros [= <-]. split; [reflexivity|lia].
    + intros [[= <-] _]. reflexivity.
  - destruct (Ascii.eqb_spec c "+") as [->|Hp]; cbn [orb andb].
    + destruct r as [|c' r']; [cbn; split; [discriminate|intros [? _]; discriminate]|].
      change (String.length (String c' r') <? 1)%nat with false. cbv iota.
      rewrite (Hfast _ Hr), decimal_value_from by discriminate.
      destruct (decimal_from (String c' r') 0) as [n|] eqn:E;
        [|split; [discriminate|intros [? _]; discriminate]].
      pose proof (Hrange _ n Hr E). split.
      * intros [= <-]. split; [reflexivity|lia].
      * intros [[= <-] _]. reflexivity.
    + rewrite (Hfast _ Hlen), decimal_value_from by discriminate.
      destruct (decimal_from (String c r) 0) as [n|] eqn:E;
        [|split; [discriminate|intros [? _]; discriminate]].
      pose proof (Hrange _ n Hlen E). split.
      * intros [= <-]. split; [reflexivity|lia].
      * intros [[= <-] _]. reflexivity.
Qed.

End Integers.

(** ** The options of Create *)

Section Options.

Lemma wrongOptions_nil (O : gmap string string) :
  filter (fun k => k ∉ AllowedOptions) (map_to_list O).*1 = [] <->
  forall k, is_Some (O !! k) -> k ∈ AllowedOptions.
Proof.
  split.
  - intros H k [x Hk].
    destruct (decide (k ∈ AllowedOptions)) as [|Hno]; [assumption|exfalso].
    assert (Hin : k ∈ filter (fun k => k ∉ AllowedOptions) (map_to_list O).*1).
    { apply list_elem_of_filter. split; [assumption|].
      apply list_elem_of_fmap. exists (k, x). split; [reflexivity|].
      now apply elem_of_map_to_list. }
    rewrite H in Hin. now apply elem_of_nil in Hin.
  - intros H.
    destruct (filter _ _) as [|k l] eqn:E; [reflexivity|exfalso].
    assert (Hin : k ∈ filter (fun k => k ∉ AllowedOptions) (map_to_list O).*1)
      by (rewrite E; left).
    apply list_elem_of_filter in Hin as [Hno Hin].
    apply list_elem_of_fmap in Hin as ([k' x] & -> & Hin).
    apply elem_of_map_to_list in Hin. apply Hno, H. cbn. eauto.
Qed.

Lemma ParseBool_cases str sparse :
  strconv_ParseBool str = (sparse, None) <->
  str ∈ ["1"; "t"; "T"; "true"; "TRUE"; "True"] /\ sparse = true \/
  str ∈ ["0"; "f"; "F"; "false"; "FALSE"; "False"] /\ sparse = false.
Proof.
  unfold strconv_ParseBool.
  destruct (decide (str ∈ ["1"; "t"; "T"; "true"; "TRUE"; "True"])) as [Ht|Ht].
  - rewrite (bool_decide_eq_true_2 _ Ht). split.
    + intros [= <-]. auto.
    + intros [[_ ->]|[Hf ->]]; [reflexivity|exfalso].
      rewrite !elem_of_cons, elem_of_nil in Ht, Hf.
      intuition congruence.
  - rewrite (bool_decide_eq_false_2 _ Ht).
    destruct (decide (str ∈ ["0"; "f"; "F"; "false"; "FALSE"; "False"]))
      as [Hf|Hf].
    + rewrite (bool_decide_eq_true_2 _ Hf). split.
      * intros [= <-]. auto.
      * intros [[Ht' _]|[_ ->]]; [contradiction|reflexivity].
    + rewrite (bool_decide_eq_false_2 _ Hf). split; [discriminate|].
      intros [[Ht' _]|[Hf' _]]; contradiction.
Qed.

Lemma Driver_Create_id_cases O key msg_parse msg_negative id :
  Driver_Create_id O key msg_parse msg_negative = (id, None) <->
  id_option O key id.
Proof.
  unfold Driver_Create_id, id_option.
  destruct (O !! key) as [[|c r]|].
  - cbn. split; [now intros [= <-]|now intros ->].
  - change (0 <? String.length (String c r))%nat with true. cbv iota.
    destruct (strconv_Atoi (String c r)) as [id' [e|]] eqn:E.
    + cbn [not_nil is_nil negb errors_Wrapf]. split; [discriminate|].
      intros [Hv Hr]. assert (H : strconv_Atoi (String c r) = (id, None))
        by (apply Atoi_decimal; split; [assumption|lia]).
      congruence.
    + apply Atoi_decimal in E as [Hv Hr]. cbn [not_nil is_nil negb].
      destruct (id' <? 0) eqn:Hneg.
      * apply Z.ltb_lt in Hneg. split; [discriminate|].
        intros [Hv' Hr']. rewrite Hv in Hv'. injection Hv' as <-. lia.
      * apply Z.ltb_ge in Hneg. split.
        -- intros [= <-]. split; [assumption|lia].
        -- intros [Hv' _]. congruence.
  - split; [now intros [= <-]|now intros ->].
Qed.

Lemma Driver_Create_mode_cases O mode :
  Driver_Create_mode O = (mode, None) <-> mode_option O mode.
Proof.
  unfold Driver_Create_mode, mode_option. cbv zeta.
  destruct (O !! "mode") as [[|c r]|].
  - cbn. split; [now intros [= <-]|now intros ->].
  - rewrite bool_decide_eq_true_2 by eauto. cbn [default from_option id andb].
    change (0 <? String.length (String c r))%nat with true. cbv iota.
    destruct (strconv.ParseUint (String c r) 8 32) as [v [e|]] eqn:E.
    + cbn [not_nil is_nil negb errors_Wrapf]. split; [discriminate|].
      intros [Hv Hr].
      assert (H : strconv.ParseUint (String c r) 8 32 = (mode, None))
        by (apply ParseUint_octal; split; [assumption|lia]).
      congruence.
    + apply ParseUint_octal in E as [Hv Hr]. cbn [not_nil is_nil negb].
      destruct ((v <=? 0) || (4095 <? v)) eqn:Hout.
      * split; [discriminate|]. intros [Hv' Hr'].
        rewrite Hv in Hv'. injection Hv' as <-.
        apply orb_true_iff in Hout as [H|H];
          [apply Z.leb_le in H|apply Z.ltb_lt in H]; lia.
      * apply orb_false_iff in Hout as [H1 H2].
        apply Z.leb_gt in H1. apply Z.ltb_ge in H2.
        assert (Eu : uint32 v = v) by (unfold uint32; apply Z.mod_small; lia).
        rewrite Eu. split.
        -- intros [= <-]. split; [assumption|lia].
        -- intros [Hv' _]. congruence.
  - cbn. split; [now intros [= <-]|now intros ->].
Qed.

End Options.

(** [Driver.Create] parses the options, then calls the manager.  When the
    option names are among the supported ones, the size converts, [sparse] is
    a word [ParseBool] knows, [uid] and [gid] are absent, empty or decimal
    numbers from 0 to [2^63 - 1] with an optional sign, and [mode] is absent,
    empty or octal from 1 to 07777, the call is [Manager.Create] with the
    values the options stand for, [xfs] where [fs] is absent or empty.  In
    every other case it fails and leaves the host untouched. *)
Theorem Driver_Create_option_contract
  (FromHumanSize : string -> Z * option error)
  (unicode_TrimSpace unicode_ToLower : string -> string)
  (host : Host) (d : Driver) (req : v.CreateRequest) (w : World) :
  let O := v.Options req in
  let fs := match O !! "fs" with
            | None | Some EmptyString => "xfs"
            | Some fsInput =>
                strings_ToLower unicode_ToLower
                  (strings_TrimSpace unicode_TrimSpace fsInput)
            end in
  let accepted (size : Z) (sparse : bool) (uid gid mode : Z) : Prop :=
    (forall k, is_Some (O !! k) -> k ∈ AllowedOptions) /\
    FromHumanSize (default (defaultSize d) (O !! "size")) = (size, None) /\
    sparse_option O sparse /\
    id_option O "uid" uid /\ id_option O "gid" gid /\ mode_option O mode in
  (forall size sparse uid gid mode,
     accepted size sparse uid gid mode ->
     Driver_Create FromHumanSize unicode_TrimSpace unicode_ToLower host d req w
       = Create host (manager d) (v.Name req) size sparse fs uid gid mode w) /\
  ((forall size sparse uid gid mode, ~ accepted size sparse uid gid mode) ->
   exists e,
     Driver_Create FromHumanSize unicode_TrimSpace unicode_ToLower host d req w
       = (Some e, w)).
Proof.
  intros O fs accepted. split.
  - intros size sparse uid gid mode (Hk & Hsize & Hsp & Hu & Hg & Hm).
    unfold Driver_Create. fold O.
    rewrite (proj2 (wrongOptions_nil O) Hk). cbn [length Nat.ltb Nat.leb].
    rewrite Hsize. cbn [not_nil is_nil negb].
    assert (Eb : match O !! "sparse" with
                 | Some sparseStr => strconv_ParseBool sparseStr
                 | None => (false, None)
                 end = (sparse, None)).
    { unfold sparse_option in Hsp. destruct (O !! "sparse") as [s|].
      - now apply ParseBool_cases.
      - now subst sparse. }
    rewrite Eb. cbn [not_nil is_nil negb].
    rewrite (proj2 (Driver_Create_id_cases O "uid" _ _ uid) Hu).
    cbn [not_nil is_nil negb].
    rewrite (proj2 (Driver_Create_id_cases O "gid" _ _ gid) Hg).
    cbn [not_nil is_nil negb].
    rewrite (proj2 (Driver_Create_mode_cases O mode) Hm).
    cbn [not_nil is_nil negb].
    subst fs. destruct (O !! "fs") as [[|c r]|]; reflexivity.
  - intros Hno. unfold Driver_Create. fold O.
    destruct (filter (fun k => k ∉ AllowedOptions) (map_to_list O).*1)
      as [|k l] eqn:Ek; [|cbn; eauto].
    pose proof (proj1 (wrongOptions_nil O) Ek) as Hk.
    cbn [length Nat.ltb Nat.leb].
    destruct (FromHumanSize (default (defaultSize d) (O !! "size")))
      as [size [e|]] eqn:Hsize; cbn [not_nil is_nil negb]; [cbn; eauto|].
    destruct (match O !! "sparse" with
              | Some sparseStr => strconv_ParseBool sparseStr
              | None => (false, None)
              end) as [sparse [e|]] eqn:Eb;
      cbn [not_nil is_nil negb]; [cbn; eauto|].
    assert (Hsp : sparse_option O sparse).
    { unfold sparse_option. destruct (O !! "sparse") as [s|].
      - now apply ParseBool_cases.
      - now injection Eb as <-. }
    destruct (Driver_Create_id O "uid" msg_uid_parse msg_uid_negative)
      as [uid [e|]] eqn:Hu; cbn [not_nil is_nil negb]; [cbn; eauto|].
    destruct (Driver_Create_id O "gid" msg_gid_parse msg_gid_negative)
      as [gid [e|]] eqn:Hg; cbn [not_nil is_nil negb]; [cbn; eauto|].
    destruct (Driver_Create_mode O) as [mode [e|]] eqn:Hm;
      cbn [not_nil is_nil negb]; [cbn; eauto|].
    exfalso. apply (Hno size sparse uid gid mode).
    repeat split; try assumption.
    + now apply Driver_Create_id_cases in Hu.
    + now apply Driver_Create_id_cases in Hg.
    + now apply Driver_Create_mode_cases in Hm.
Qed.

Lemma Driver_Create_option_contract_witness :
  Driver_Create (fun _ => (50000000, None)) id id obliging
    (mkDriver "50MB" plugin)
    (v.mkCreateRequest "db" (<["uid" := "+1000"]> (<["mode" := "0755"]> ∅)))
    fresh
  = Create obliging plugin "db" 50000000 false "xfs" 1000 (-1) 493 fresh.
Proof.
  refine (proj1 (Driver_Create_option_contract (fun _ => (50000000, None)) id id
                   obliging (mkDriver "50MB" plugin)
                   (v.mkCreateRequest "db"
                      (<["uid" := "+1000"]> (<["mode" := "0755"]> ∅)))
                   fresh) 50000000 false 1000 (-1) 493 _).
  split; [|split; [reflexivity|]].
  - intros k [x Hk]. cbn [v.Options] in Hk.
    apply lookup_insert_Some in Hk as [[<- _]|[_ Hk]];
      [vm_compute; repeat constructor|].
    apply lookup_insert_Some in Hk as [[<- _]|[_ Hk]];
      [vm_compute; repeat constructor|].
    now rewrite lookup_empty in Hk.
  - repeat split; vm_compute; try reflexivity; discriminate.
Defined.

(** ** What Create leaves alone *)

Section CreateFrame.

Variable host : Host.
Variable m : Manager.
Variable name b : string.
Variable w0 : World.

Local Abbreviation p := (filepath_Join (dataDir m) b).
Local Abbreviation framed := (framed_by m b w0).

Lemma framed_files w w' : files w' = files w -> framed w -> framed w'.
Proof.
  intros H [Hd Hk]. split; [now rewrite (resolve_files _ w w' H)|].
  intros b' Hb. rewrite H. now apply Hk.
Qed.

Lemma framed_write_file n w : framed w -> framed (write_file p n w).
Proof.
  intros [Hd Hk]. split; [now apply write_file_keeps_resolve|].
  intros b' Hb. rewrite write_file_other; [now apply Hk|].
  intros E. apply Join_inj in E as [_ E]. contradiction.
Qed.

Lemma framed_exec c w :
  (forall q, written_file c = Some q -> q = p) ->
  framed w -> framed (snd (exec_Command host c w)).
Proof.
  intros Hc Hr. unfold exec_Command.
  assert (Hl : framed (log c w)) by now apply (framed_files w).
  destruct (run host c w) as [|output partial]; cbn [snd].
  - destruct c; cbn [effect written_file] in *;
      try rewrite (Hc _ eq_refl);
      try (now apply framed_write_file);
      try assumption; now apply (framed_files (log _ w)).
  - destruct c, partial as [k|]; cbn [partial_effect written_file] in *;
      try rewrite (Hc _ eq_refl);
      try (now apply framed_write_file);
      assumption.
Qed.

Lemma framed_same_entries w w' :
  same_entries (dataDir m) w w' -> framed w -> framed w'.
Proof.
  intros [H1 H2] [Hd Hk]. split; [congruence|].
  intros b' Hb. rewrite H2. now apply Hk.
Qed.

Lemma framed_Remove w : framed w -> framed (snd (os.Remove p w)).
Proof.
  intros [Hd Hk].
  destruct (Remove_outcome p w) as [[E _]|[e E]]; rewrite E; cbn [snd];
    [|now split].
  split; [now rewrite delete_keeps_resolve|].
  intros b' Hb. cbn [set_files files]. rewrite lookup_delete_ne; [now apply Hk|].
  intros E'. apply Join_inj in E' as [_ E']. congruence.
Qed.

Lemma framed_MkdirAll w :
  framed w -> framed (snd (os.MkdirAll (dataDir m) w)).
Proof.
  intros [Hd Hk]. split; [now apply MkdirAll_keeps_resolve|].
  intros b' Hb.
  destruct (MkdirAll_writes (dataDir m) w (filepath_Join (dataDir m) b'))
    as [H|[H _]].
  - rewrite H. now apply Hk.
  - now apply Join_not_prefix in H.
Qed.

Lemma framed_Create_allocate sizeInBytes sparse w :
  framed w -> framed (snd (Create_allocate host sizeInBytes sparse p w)).
Proof.
  intros Hr. unfold Create_allocate. io. destruct sparse.
  - pose proof (framed_exec (truncate sizeInBytes p) w
                  ltac:(now intros q [= <-]) Hr) as H1.
    destruct (exec_Command host (truncate sizeInBytes p) w)
      as [[out [e|]] w1]; cbn [not_nil is_nil negb fst snd] in *;
      [|assumption].
    pose proof (framed_Remove w1 H1) as H2.
    destruct (os.Remove p w1) as [e' w2]. now cbn [fst snd] in *.
  - pose proof (framed_exec (fallocate sizeInBytes p) w
                  ltac:(now intros q [= <-]) Hr) as H1.
    destruct (exec_Command host (fallocate sizeInBytes p) w)
      as [[out [e|]] w1]; cbn [not_nil is_nil negb fst snd] in *;
      [|assumption].
    destruct (GoString.Contains _ _).
    + pose proof (framed_Remove w1 H1) as H2.
      destruct (os.Remove p w1) as [e' w2]. now cbn [fst snd] in *.
    + set (fill := dd p _ _).
      pose proof (framed_exec fill w1 ltac:(now intros q [= <-]) H1) as H3.
      destruct (exec_Command host fill w1) as [[out' [e'|]] w2];
        cbn [not_nil is_nil negb fst snd] in *; [|assumption].
      pose proof (framed_Remove w2 H3) as H4.
      destruct (os.Remove p w2) as [e'' w3]. now cbn [fst snd] in *.
Qed.

Lemma framed_Create_adjust uid gid mode w :
  separate m -> framed w ->
  framed (snd (Create_adjust host m name p uid gid mode w)).
Proof.
  intros Hsep Hr. unfold Create_adjust. io.
  destruct ((0 <=? uid) || (0 <=? gid) || (0 <? mode)); [|now cbn].
  pose proof (framed_same_entries w _
                (Mount_keeps_data_directory host m name "driver" w Hsep) Hr)
    as H1.
  destruct (Mount host m name "driver" w) as [[mountPath [e|]] w1];
    cbn [not_nil is_nil negb fst snd] in *.
  { pose proof (framed_Remove w1 H1) as H2.
    destruct (os.Remove p w1) as [e' w2]. now cbn [fst snd] in *. }
  assert (HU : forall w2, framed w2 ->
            framed (snd (UnMount host m name "driver" w2))).
  { intros w2 H2. apply (framed_same_entries w2); [|assumption].
    now apply UnMount_keeps_data_directory. }
  assert (Hun : forall w2, framed w2 ->
            framed (snd (os.Remove p (snd (UnMount host m name "driver" w2))))).
  { intros w2 H2. now apply framed_Remove, HU. }
  assert (Hend : forall w2, framed w2 ->
            framed (snd ((err ← UnMount host m name "driver";
                          if not_nil err then
                            _ ← os.Remove p;
                            mret (errors_Wrapf err msg_create_unmount) else
                          mret None) w2))).
  { intros w2 H2. io. specialize (HU w2 H2). specialize (Hun w2 H2).
    destruct (UnMount host m name "driver" w2) as [[e|] w3];
      cbn [not_nil is_nil negb fst snd] in *; [|assumption].
    destruct (os.Remove p w3) as [e' w4]. now cbn [fst snd] in *. }
  assert (Hown : forall w2, framed w2 ->
            framed (snd ((err ← (if (0 <=? uid) || (0 <=? gid) then
                               err ← os_Chown host mountPath uid gid;
                               if not_nil err then
                                 _ ← UnMount host m name "driver";
                                 _ ← os.Remove p;
                                 mret (errors_Wrapf err msg_create_chown) else
                               mret None
                             else mret None);
                      if not_nil err then mret err else
                      err ← UnMount host m name "driver";
                      if not_nil err then
                        _ ← os.Remove p;
                        mret (errors_Wrapf err msg_create_unmount) else
                      mret None) w2))).
  { intros w2 H2. io.
    destruct ((0 <=? uid) || (0 <=? gid)); cbn [not_nil is_nil negb];
      [|apply (Hend w2 H2)].
    unfold os_Chown.
    destruct (chown_err host mountPath uid gid w2) as [e|];
      cbn [not_nil is_nil negb]; [|apply (Hend w2 H2)].
    specialize (Hun w2 H2).
    destruct (UnMount host m name "driver" w2) as [e1 w3]. cbn [snd] in *.
    destruct (os.Remove p w3) as [e2 w4]. now cbn [fst snd] in *. }
  destruct (0 <? mode); cbn [not_nil is_nil negb]; [|apply (Hown w1 H1)].
  pose proof (framed_exec (chmod mode mountPath) w1
                ltac:(intros q; discriminate) H1) as H2.
  destruct (exec_Command host (chmod mode mountPath) w1)
    as [[out [e|]] w2]; cbn [not_nil is_nil negb fst snd] in *;
    [|apply (Hown w2 H2)].
  specialize (Hun w2 H2).
  destruct (UnMount host m name "driver" w2) as [e1 w3]. cbn [snd] in *.
  destruct (os.Remove p w3) as [e2 w4]. now cbn [fst snd] in *.
Qed.

End CreateFrame.

(** With separate directories and the data directory in place, [Create] of
    a volume, successful or not and on any host, writes in the data
    directory at its own data file only: every other valid name resolves
    after the call as it did before. *)
Theorem Create_keeps_other_volumes
  (host : Host) (m : Manager) (name : string) (sizeInBytes : Z) (sparse : bool)
  (fs : string) (uid gid mode : Z) (w : World) (other : string) :
  separate m ->
  resolve (dataDir m) w = Found Directory ->
  let w' := snd (Create host m name sizeInBytes sparse fs uid gid mode w) in
  (forall b, b <> name +:+ "." +:+ fs ->
     files w' !! filepath_Join (dataDir m) b
     = files w !! filepath_Join (dataDir m) b) /\
  (validateName name = None -> validateName other = None -> other <> name ->
   fst (getVolume m other w') = fst (getVolume m other w)).
Proof.
  intros Hsep Hd w'.
  assert (HF : framed_by m (name +:+ "." +:+ fs) w w').
  { assert (H0 : framed_by m (name +:+ "." +:+ fs) w w) by now split.
    subst w'. unfold Create. io.
    destruct (validateName name) as [e|]; [exact H0|].
    cbn [not_nil is_nil negb].
    destruct (sizeInBytes <? 10000000); [exact H0|].
    destruct (MkFsOptions !! fs) as [mkfsFlags|]; [|exact H0].
    pose proof (framed_MkdirAll m _ w w H0) as H1.
    destruct (os.MkdirAll (dataDir m) w) as [[e|] w1];
      cbn [not_nil is_nil negb fst snd] in *; [assumption|].
    pose proof (framed_Create_allocate host m _ w sizeInBytes sparse w1 H1)
      as H2.
    destruct (Create_allocate host sizeInBytes sparse _ w1) as [[e|] w2];
      cbn [not_nil is_nil negb fst snd] in *; [assumption|].
    set (p := filepath_Join (dataDir m) (name +:+ "." +:+ fs)) in *.
    pose proof (framed_exec host m _ w (mkfs fs mkfsFlags p) w2
                  ltac:(intros q; discriminate) H2) as H3.
    destruct (exec_Command host (mkfs fs mkfsFlags p) w2)
      as [[out [e|]] w3]; cbn [not_nil is_nil negb fst snd] in *.
    - pose proof (framed_Remove m _ w w3 H3) as H4. fold p in H4.
      destruct (os.Remove p w3) as [e' w4]. now cbn [fst snd] in *.
    - now apply framed_Create_adjust. }
  destruct HF as [Hd' Hk]. split; [exact Hk|].
  intros Hn Ho Hne. apply getVolume_agree; [assumption|congruence|].
  intros ext. apply Hk. intros E.
  apply dotless_split in E as [E _]; auto using validateName_dotless.
Qed.

Lemma Create_keeps_other_volumes_witness :
  fst (getVolume plugin "db"
         (snd (Create disk_full plugin "logs" 20000000 false "xfs" 0 0 0
                 db_created)))
  = fst (getVolume plugin "db" db_created).
Proof.
  refine (proj2 (Create_keeps_other_volumes disk_full plugin "logs" 20000000
                   false "xfs" 0 0 0 db_created "db" plugin_separate _)
            eq_refl eq_refl _).
  - vm_compute; reflexivity.
  - discriminate.
Defined.

(** ** Create with an owner or a mode *)

Section CreateAdjusts.

Variable host : Host.

(** The first lease, taken: what [Mount] leaves. *)
Lemma Mount_first_success m name lease w vol :
  separate m -> well_formed w ->
  validateName name = None ->
  getVolume m name w = ((vol, None), w) ->
  listLeases vol w = [] ->
  fst (os.MkdirAll (StateDir vol) w) = None ->
  resolve (MountPointPath vol) w = Absent ->
  (forall w0, run host (mounting vol) w0 = Exit0) ->
  exists w',
    Mount host m name lease w = ((MountPointPath vol, None), w') /\
    trace w' = trace w ++ [mounting vol] /\
    mounts w' = {[MountPointPath vol]} ∪ mounts w /\
    getVolume m name w' = ((vol, None), w') /\
    listLeases vol w' = [lease] /\
    files w' !! filepath_Join (StateDir vol) lease = Some (Regular 0 0).
Proof.
  intros Hsep Hwf Hn Hv Hl Hok Hmp Hmount.
  destruct (Mount_first host m name lease w vol Hsep Hwf Hn Hv Hl Hok Hmp)
    as (Hs0 & Hl0 & Hmp0 & HM).
  destruct (getVolume_fields m name w vol Hv) as (_ & HSD & HMP & _).
  destruct (separate_state_mount m name name Hsep) as (Hms & Hsm & Hsd & Hlm).
  pose proof (getVolume_after m name w _ vol
                (Mount_keeps_data_directory host m name lease w Hsep) Hv)
    as Hv'.
  set (w0 := snd (os.MkdirAll (StateDir vol) w)) in *.
  destruct (MkdirAll_tools (StateDir vol) w) as [Ht0 Hm0]. fold w0 in Ht0, Hm0.
  rewrite Hmount in HM. rewrite HM in Hv'. cbn [snd] in Hv'.
  set (lf := filepath_Join (StateDir vol) lease) in *.
  set (w' := set_mounts _ _) in *.
  assert (Hf' : files w' = <[lf := Regular 0 0]>
                             (<[MountPointPath vol := Directory]> (files w0)))
    by reflexivity.
  assert (Hs' : resolve (StateDir vol) w' = Found Directory).
  { rewrite (resolve_files _ (set_files (insert lf (Regular 0 0))
                                (set_files (insert (MountPointPath vol) Directory)
                                   w0)) w')
      by reflexivity.
    apply insert_keeps_resolve.
    - cbn [set_files files]. rewrite lookup_insert_ne.
      + unfold lf. rewrite Hl0. discriminate.
      + unfold lf. rewrite HSD, HMP. intros E. now apply (Hlm lease).
    - rewrite <- Hs0. apply insert_keeps_resolve_other.
      + rewrite HSD, HMP. intros E'. apply Hms. now rewrite E'.
      + now right.
      + intros E'. exfalso. apply Hms. rewrite <- HSD, <- HMP, E'.
        apply Dir_prefix_of. }
  exists w'. split; [exact HM|].
  split; [unfold w'; cbn [trace set_mounts log set_files]; now rewrite Ht0|].
  split; [unfold w'; cbn [mounts set_mounts log set_files]; now rewrite Hm0|].
  split; [assumption|]. split.
  - apply singleton_of_NoDup; [apply NoDup_listLeases|].
    intros l. rewrite elem_of_listLeases, Hf'. split.
    + intros [_ [x Hx]].
      destruct (decide (l = lease)) as [->|Hd]; [reflexivity|exfalso].
      rewrite !lookup_insert_ne, Hl0 in Hx; [discriminate| |].
      * rewrite HSD, HMP. intros E. now apply (Hlm l).
      * unfold lf. intros E. apply Join_inj in E as [_ E]. congruence.
    + intros ->. split; [assumption|]. fold lf. rewrite lookup_insert_eq. eauto.
  - rewrite Hf'. apply lookup_insert_eq.
Qed.

(** The last lease, released: what [UnMount] leaves. *)
Lemma UnMount_last_success m name lease w vol :
  validateName name = None ->
  getVolume m name w = ((vol, None), w) ->
  listLeases vol w = [lease] ->
  files w !! filepath_Join (StateDir vol) lease <> Some Directory ->
  (forall w0, run host (unmounting vol) w0 = Exit0) ->
  exists w',
    UnMount host m name lease w = (None, w') /\
    trace w' = trace w ++ [unmounting vol] /\
    mounts w' = mounts w ∖ {[MountPointPath vol]} /\
    files w' !! StateDir vol = None /\
    files w' !! MountPointPath vol = None.
Proof.
  intros Hn Hv Hl Hnd Hrun.
  pose proof (UnMount_last host m name lease w vol Hn Hv Hl Hnd) as HU.
  cbv zeta in HU. rewrite Hrun in HU.
  eexists. split; [exact HU|]. cbn [trace mounts files set_files set_mounts log].
  repeat split.
  - apply filter_keeps_gone, filter_prefix_gone.
  - apply filter_prefix_gone.
Qed.

Lemma same_entries_files d w w' : files w' = files w -> same_entries d w w'.
Proof.
  intros H. split; [now apply resolve_files|]. intros b0. now rewrite H.
Qed.

(** [Create] on a host where every utility succeeds, up to the adjustment
    of owner and mode. *)
Lemma Create_until_adjust m name sizeInBytes (sparse : bool) fs uid gid mode w
  mkfsFlags :
  validateName name = None ->
  10000000 <= sizeInBytes ->
  MkFsOptions !! fs = Some mkfsFlags ->
  fst (os.MkdirAll (dataDir m) w) = None ->
  (forall c w0, run host c w0 = Exit0) ->
  let p := filepath_Join (dataDir m) (name +:+ "." +:+ fs) in
  let allocate :=
    if sparse then truncate sizeInBytes p else fallocate sizeInBytes p in
  let blocks := if sparse then 0 else blocks_for sizeInBytes in
  Create host m name sizeInBytes sparse fs uid gid mode w =
  Create_adjust host m name p uid gid mode
    (log (mkfs fs mkfsFlags p)
       (write_file p (Regular sizeInBytes blocks)
          (log allocate (snd (os.MkdirAll (dataDir m) w))))).
Proof.
  intros Hn Hsize Hfs Hok Hrun p allocate blocks.
  rewrite (Create_allocates host m name sizeInBytes sparse fs uid gid mode w
             mkfsFlags Hn Hsize Hfs Hok).
  fold p. io. unfold Create_allocate. io.
  destruct sparse; subst allocate blocks;
    rewrite exec_Command_Exit0 by apply Hrun;
    cbn [not_nil is_nil negb fst snd effect];
    rewrite exec_Command_Exit0 by apply Hrun;
    cbn [not_nil is_nil negb fst snd effect]; reflexivity.
Qed.

Lemma MkdirAll_made p w q :
  fst (os.MkdirAll p w) = None -> q `prefix_of` p -> q <> [] ->
  files (snd (os.MkdirAll p w)) !! q = Some Directory.
Proof.
  unfold os.MkdirAll.
  destruct (os.mkdir_all [] p (files w)) as [err fs'] eqn:E. cbn [fst snd].
  intros -> Hq Hne. cbn [set_files files].
  apply (mkdir_all_prefixes p [] (files w) fs' q E Hq Hne).
Qed.

Lemma MkdirAll_ok_of_prefixes p w :
  (forall q, q `prefix_of` p -> q <> [] ->
     files w !! q = Some Directory \/ files w !! q = None) ->
  fst (os.MkdirAll p w) = None.
Proof.
  intros H. unfold os.MkdirAll.
  pose proof (mkdir_all_ok p [] (files w) H) as Hok.
  now destruct (os.mkdir_all [] p (files w)).
Qed.

Lemma MkdirAll_ok_prefixes p w q :
  fst (os.MkdirAll p w) = None -> q `prefix_of` p -> q <> [] ->
  files w !! q = Some Directory \/ files w !! q = None.
Proof.
  unfold os.MkdirAll.
  destruct (os.mkdir_all [] p (files w)) as [err fs'] eqn:E. cbn [fst].
  intros -> Hq Hne. apply (mkdir_all_None p [] (files w) fs' q E Hq Hne).
Qed.

(** The world in which [Create] adjusts owner and mode. *)
Lemma created_world m name sizeInBytes (sparse : bool) fs w c1 c2 :
  let p := filepath_Join (dataDir m) (name +:+ "." +:+ fs) in
  let blocks := if sparse then 0 else blocks_for sizeInBytes in
  let w3 := log c2 (write_file p (Regular sizeInBytes blocks)
                      (log c1 (snd (os.MkdirAll (dataDir m) w)))) in
  well_formed w ->
  fst (os.MkdirAll (dataDir m) w) = None ->
  files w !! p <> Some Directory ->
  well_formed w3 /\
  resolve (dataDir m) w3 = Found Directory /\
  files w3 !! p = Some (Regular sizeInBytes blocks) /\
  trace w3 = trace w ++ [c1; c2] /\ mounts w3 = mounts w /\
  forall q, q <> p -> q <> [] ->
    files w3 !! q = files w !! q \/
    q `prefix_of` dataDir m /\ files w3 !! q = Some Directory.
Proof.
  intros p blocks w3 Hwf Hok Hp.
  set (w1 := snd (os.MkdirAll (dataDir m) w)) in *.
  assert (Hp1 : files w1 !! p = files w !! p).
  { destruct (MkdirAll_writes (dataDir m) w p) as [H|[H _]]; [assumption|].
    now apply Join_not_prefix in H. }
  assert (Hd1 : resolve (dataDir m) w1 = Found Directory)
    by now apply MkdirAll_resolves.
  assert (Hwf1 : well_formed w1) by now apply well_formed_MkdirAll.
  split; [|split; [|split; [|split; [|split]]]].
  - unfold w3. apply well_formed_log. unfold write_file. cbn [files log].
    destruct (files w1 !! p) as [[]|] eqn:E;
      try (now apply well_formed_log);
      (apply well_formed_insert;
       [now apply well_formed_log
       |unfold p; rewrite filepath_Dir_Join, lookup_node_log;
        now apply resolve_Found
       |right; cbn [files log]; rewrite E; discriminate]).
  - unfold w3. rewrite resolve_log. apply write_file_keeps_resolve.
    now rewrite resolve_log.
  - unfold w3. cbn [files log]. apply write_file_lookup. cbn [files log].
    now rewrite Hp1.
  - unfold w3. cbn [trace log]. rewrite (proj1 (write_file_tools _ _ _)).
    cbn [trace log]. unfold w1. rewrite (proj1 (MkdirAll_tools _ _)).
    now rewrite <- app_assoc.
  - unfold w3. cbn [mounts log]. rewrite (proj2 (write_file_tools _ _ _)).
    cbn [mounts log]. unfold w1. now rewrite (proj2 (MkdirAll_tools _ _)).
  - intros q Hq Hq0. unfold w3. cbn [files log].
    rewrite write_file_other by assumption. cbn [files log].
    destruct (MkdirAll_writes (dataDir m) w q) as [H|[H _]]; [now left|].
    right. split; [assumption|]. now apply MkdirAll_made.
Qed.

End CreateAdjusts.

(** [Create] with an owner or a mode, on a host where every utility and
    [chown] succeed, for a name with no other data file, no lease and no
    mount point: the volume is mounted for the lease [driver], [chmod] is run
    when there is a mode, and the volume is unmounted again.  The call
    succeeds, the utilities run in that order, and afterwards the volume
    resolves, is not mounted, and neither its state directory nor its mount
    point is left. *)
Theorem Create_adjusts_owner_and_mode
  (host : Host) (m : Manager) (name : string) (sizeInBytes : Z) (sparse : bool)
  (fs : string) (uid gid mode : Z) (w : World) (mkfsFlags : list string) :
  let p := filepath_Join (dataDir m) (name +:+ "." +:+ fs) in
  let sd := filepath_Join (stateDir m) name in
  let mp := filepath_Join (mountDir m) name in
  let allocate :=
    if sparse then truncate sizeInBytes p else fallocate sizeInBytes p in
  let blocks := if sparse then 0 else blocks_for sizeInBytes in
  let vol := mkVolume name fs (512 * blocks) sizeInBytes sd p mp in
  separate m -> well_formed w ->
  validateName name = None ->
  10000000 <= sizeInBytes <= 2 ^ 63 - 512 ->
  MkFsOptions !! fs = Some mkfsFlags ->
  fst (os.MkdirAll (dataDir m) w) = None ->
  files w !! p <> Some Directory ->
  (forall ext, ext <> fs ->
     files w !! filepath_Join (dataDir m) (name +:+ "." +:+ ext) = None) ->
  0 <= uid \/ 0 <= gid \/ 0 < mode ->
  (forall x, files w !! filepath_Join sd x = None) ->
  fst (os.MkdirAll sd w) = None ->
  resolve mp w = Absent ->
  (forall c w0, run host c w0 = Exit0) ->
  (forall q u g w0, chown_err host q u g w0 = None) ->
  let r := Create host m name sizeInBytes sparse fs uid gid mode w in
  fst r = None /\
  trace (snd r) =
    trace w ++ [allocate; mkfs fs mkfsFlags p; mounting vol] ++
    (if 0 <? mode then [chmod mode mp] else []) ++ [unmounting vol] /\
  mounts (snd r) = mounts w ∖ {[mp]} /\
  Get m name (snd r) = ((vol, None), snd r) /\
  files (snd r) !! sd = None /\ files (snd r) !! mp = None.
Proof.
  intros p sd mp allocate blocks vol Hsep Hwf Hn Hsize Hfs Hok Hp Hnone Hadj
    Hnl Hoks Hmp Hrun Hchown r.
  subst r.
  rewrite (Create_until_adjust host m name sizeInBytes sparse fs uid gid mode w
             mkfsFlags Hn (proj1 Hsize) Hfs Hok Hrun).
  fold p allocate blocks.
  destruct (created_world m name sizeInBytes sparse fs w allocate
              (mkfs fs mkfsFlags p) Hwf Hok Hp)
    as (Hwf3 & Hd3 & Hp3 & Ht3 & Hm3 & Hfr).
  fold p blocks in Hwf3, Hd3, Hp3, Ht3, Hm3, Hfr.
  set (w3 := log (mkfs fs mkfsFlags p) _) in *.
  pose proof Hsep as (Hsd & Hds & Hmd & Hdm & Hsm & Hms).
  assert (Hv3 : getVolume m name w3 = ((vol, None), w3)).
  { destruct (getVolume_of_entries m name w3 fs _ Hn Hd3 Hp3) as [Hone _].
    rewrite Hone.
    - unfold resolved. fold p. rewrite Hp3. unfold p.
      rewrite (fs_of_data_file _ _ _ (MkFsOptions_dotless _ _ Hfs)).
      assert (Ha : uint64 (int64 (blocks * 512)) = 512 * blocks /\
                   uint64 sizeInBytes = sizeInBytes).
      { destruct (allocated_bytes sizeInBytes ltac:(lia)) as (H1 & H2 & _).
        unfold blocks. destruct sparse; [|auto]. split; [reflexivity|auto]. }
      destruct Ha as [-> ->]. reflexivity.
    - intros ext Hx.
      destruct (Hfr (filepath_Join (dataDir m) (name +:+ "." +:+ ext)))
        as [H|[H _]].
      + intros E. apply Join_inj in E as [_ E].
        apply append_inv_head, append_inv_head in E. congruence.
      + apply Join_not_root.
      + rewrite H. now apply Hnone.
      + now apply Join_not_prefix in H. }
  assert (Hl3 : listLeases vol w3 = []).
  { apply no_entries_no_leases. intros x. cbn [StateDir vol]. fold sd.
    destruct (Hfr (filepath_Join sd x)) as [H|[H _]].
    - apply separate_lease. assumption.
    - apply Join_not_root.
    - rewrite H. apply Hnl.
    - exfalso. apply Hsd. now apply Join_prefix_of, Join_prefix_of in H. }
  assert (Hoks3 : fst (os.MkdirAll (StateDir vol) w3) = None).
  { apply MkdirAll_ok_of_prefixes. intros q Hq Hq0. cbn [StateDir vol] in Hq.
    destruct (Hfr q) as [H|[_ H]]; [|assumption| |now left].
    - intros ->. now apply (separate_state m name _ Hsep) in Hq.
    - rewrite H. now apply (MkdirAll_ok_prefixes sd w q). }
  assert (Hmp3 : resolve (MountPointPath vol) w3 = Absent).
  { cbn [MountPointPath vol]. rewrite <- Hmp.
    apply resolve_of_lookups; intros Hx.
    - destruct (Hfr mp) as [H|[H _]]; [|assumption|assumption|].
      + apply separate_mount. assumption.
      + exfalso. apply Hmd. now apply Join_prefix_of in H.
    - unfold mp in *. rewrite filepath_Dir_Join in *.
      destruct (Hfr (mountDir m)) as [H|[H _]]; [|assumption|assumption|].
      + intros E. apply Hdm. rewrite E. now exists [name +:+ "." +:+ fs].
      + contradiction. }
  destruct (Mount_first_success host m name "driver" w3 vol Hsep Hwf3 Hn Hv3
              Hl3 Hoks3 Hmp3 ltac:(intros; apply Hrun))
    as (w4 & HM & Ht4 & Hm4 & Hv4 & Hl4 & Hf4).
  assert (Hfinish : forall w5,
            files w5 = files w4 -> mounts w5 = mounts w4 ->
            exists w6,
              UnMount host m name "driver" w5 = (None, w6) /\
              trace w6 = trace w5 ++ [unmounting vol] /\
              mounts w6 = mounts w ∖ {[mp]} /\
              Get m name w6 = ((vol, None), w6) /\
              files w6 !! sd = None /\ files w6 !! mp = None).
  { intros w5 Hf5 Hm5.
    assert (Hv5 : getVolume m name w5 = ((vol, None), w5))
      by (apply (getVolume_after m name w4); [now apply same_entries_files|
          assumption]).
    assert (Hl5 : listLeases vol w5 = ["driver"])
      by (rewrite (listLeases_files vol w4 w5 Hf5); assumption).
    assert (Hnd5 : files w5 !! filepath_Join (StateDir vol) "driver"
                   <> Some Directory) by (rewrite Hf5, Hf4; discriminate).
    destruct (UnMount_last_success host m name "driver" w5 vol Hn Hv5 Hl5 Hnd5
                ltac:(intros; apply Hrun))
      as (w6 & HU & Ht6 & Hm6 & Hs6 & Hp6).
    exists w6. split; [assumption|]. split; [assumption|]. split.
    { rewrite Hm6, Hm5, Hm4, Hm3. cbn [MountPointPath vol].
      apply set_eq. intros x.
      rewrite !elem_of_difference, elem_of_union, !elem_of_singleton. tauto. }
    split; [|split; assumption].
    unfold Get. rewrite Hn. cbn [not_nil is_nil negb].
    apply (getVolume_after m name w5); [|assumption].
    pose proof (UnMount_keeps_data_directory host m name "driver" w5 Hsep) as H.
    now rewrite HU in H. }
  unfold Create_adjust. io.
  assert (Hc : ((0 <=? uid) || (0 <=? gid) || (0 <? mode)) = true).
  { rewrite !orb_true_iff, !Z.leb_le, Z.ltb_lt. tauto. }
  rewrite Hc, HM. cbn [not_nil is_nil negb fst snd].
  assert (Hchmod : forall w5 tr,
            files w5 = files w4 -> mounts w5 = mounts w4 ->
            trace w5 = trace w4 ++ tr ->
            let r := (err ← (if (0 <=? uid) || (0 <=? gid) then
                               err ← os_Chown host (MountPointPath vol) uid gid;
                               if not_nil err then
                                 _ ← UnMount host m name "driver";
                                 _ ← os.Remove p;
                                 mret (errors_Wrapf err msg_create_chown) else
                               mret None
                             else mret None);
                      if not_nil err then mret err else
                      err ← UnMount host m name "driver";
                      if not_nil err then
                        _ ← os.Remove p;
                        mret (errors_Wrapf err msg_create_unmount) else
                      mret None) w5 in
            fst r = None /\
            trace (snd r) = trace w4 ++ tr ++ [unmounting vol] /\
            mounts (snd r) = mounts w ∖ {[mp]} /\
            Get m name (snd r) = ((vol, None), snd r) /\
            files (snd r) !! sd = None /\ files (snd r) !! mp = None).
  { intros w5 tr Hf5 Hm5 Ht5. io.
    destruct (Hfinish w5 Hf5 Hm5) as (w6 & HU & Ht6 & Hm6 & Hg6 & Hs6 & Hp6).
    assert (Etr : trace w6 = trace w4 ++ tr ++ [unmounting vol])
      by (rewrite Ht6, Ht5; now rewrite <- app_assoc).
    destruct ((0 <=? uid) || (0 <=? gid)); unfold os_Chown;
      rewrite ?Hchown; cbn [not_nil is_nil negb]; rewrite HU;
      cbn [not_nil is_nil negb fst snd]; repeat split; assumption. }
  assert (Efinal : forall tr,
            trace w4 ++ tr ++ [unmounting vol]
            = trace w ++ [allocate; mkfs fs mkfsFlags p; mounting vol] ++
              tr ++ [unmounting vol]).
  { intros tr. rewrite Ht4, Ht3, <- !app_assoc. reflexivity. }
  destruct (0 <? mode) eqn:Hmode.
  - rewrite exec_Command_Exit0 by apply Hrun.
    cbn [not_nil is_nil negb fst snd effect].
    destruct (Hchmod (log (chmod mode (MountPointPath vol)) w4)
                [chmod mode (MountPointPath vol)] eq_refl eq_refl eq_refl)
      as (H1 & H2 & H3).
    split; [exact H1|]. split; [|exact H3].
    etransitivity; [exact H2|apply Efinal].
  - destruct (Hchmod w4 [] eq_refl eq_refl ltac:(now rewrite app_nil_r))
      as (H1 & H2 & H3).
    cbn [not_nil is_nil negb].
    split; [exact H1|]. split; [|exact H3].
    etransitivity; [exact H2|apply Efinal].
Qed.

Lemma Create_adjusts_owner_and_mode_witness :
  let r := Create obliging plugin "db" 50000000 false "ext4" 1000 1000 493
             fresh in
  fst r = None /\
  mounts (snd r) = mounts fresh ∖ {[filepath_Join (mountDir plugin) "db"]} /\
  files (snd r) !! filepath_Join (mountDir plugin) "db" = None.
Proof.
  assert (Hfresh : forall q : path, q <> ["mnt"] -> files fresh !! q = None).
  { intros q Hq. destruct (files fresh !! q) as [n|] eqn:E; [exfalso|reflexivity].
    apply elem_of_map_to_list in E. revert E. vm_compute. intros E.
    apply elem_of_cons in E as [E|E]; [injection E as -> _; now apply Hq|].
    now apply elem_of_nil in E. }
  destruct (Create_adjusts_owner_and_mode obliging plugin "db" 50000000 false
              "ext4" 1000 1000 493 fresh ["-F"] plugin_separate)
    as (H1 & _ & H3 & _ & _ & H6).
  - apply (bool_decide_unpack _). vm_compute. exact I.
  - reflexivity.
  - lia.
  - reflexivity.
  - vm_compute; reflexivity.
  - rewrite Hfresh; discriminate.
  - intros ext _. apply Hfresh. discriminate.
  - left. lia.
  - intros x. apply Hfresh. discriminate.
  - vm_compute; reflexivity.
  - vm_compute; reflexivity.
  - reflexivity.
  - reflexivity.
  - cbv zeta. auto.
Defined.
